(** * CRSLab: the TGReDial batch builder, the KGSF model and its system

    A shallow embedding of
    - [crslab/data/dataloader/tgredial.py] (module [DataLoader]),
    - [crslab/model/crs/kgsf/kgsf.py]      (module [KGSF]),
    - [crslab/system/kgsf.py]              (module [System]),
    and the properties of the written specification that concern them.

    Python values are modelled as follows: an [int] is a [Z], a list is a
    [list], a [dict] with string keys is a [gmap string _], a [set] of ints
    is a [gset Z], a raised exception is the [Raise] branch of [result].
    Floating point numbers (embeddings, logits, losses) are rationals; the
    learned layers (graph encoders, attention, transformer encoder and
    decoder, linear heads) are the fields of the model record, each a
    function at the current weights. *)

From Stdlib Require Import ZArith QArith List Lia String Ascii Sorted.
From stdpp Require Import base tactics option list gmap strings sets.

Local Open Scope Z_scope.

#[local] Set Warnings "-register-all".

(** ** Python exceptions and the error monad *)

Module Py.

Inductive exn : Type :=
| KeyError
| TypeError
| ValueError
| IndexError
| RuntimeError
| NameError.

(** The outcome of a call: a value, a raised exception, or, for the one
    unbounded [while] loop of the code, the fuel of the model running out. *)
Inductive result (A : Type) : Type :=
| Ok (a : A)
| Raise (e : exn)
| OutOfFuel.

Arguments Ok {A} a.
Arguments Raise {A} e.
Arguments OutOfFuel {A}.

#[global] Instance result_ret : MRet result := fun A a => Ok a.

#[global] Instance result_bind : MBind result := fun A B k m =>
  match m with
  | Ok a => k a
  | Raise e => Raise e
  | OutOfFuel => OutOfFuel
  end.

(** [for x in xs: ...] with a body that may raise, collecting results. *)
Fixpoint for_each {A B : Type} (f : A -> result B) (xs : list A) : result (list B) :=
  match xs with
  | [] => Ok []
  | x :: xs' =>
      y ← f x; ys ← for_each f xs'; Ok (y :: ys)
  end.

(** Values stored in a conversation record; a [str] is its list of code
    points. *)
Inductive value : Type :=
| VNone
| VInt (z : Z)
| VStr (s : list Z)
| VList (l : list value).

(** Iterating a value with [for x in v]. *)
Definition iter (v : value) : result (list value) :=
  match v with
  | VList l => Ok l
  | VStr s => Ok ((fun c => VStr [c]) <$> s)
  | VInt _ | VNone => Raise TypeError
  end.

(** [d[k]] on a dict. *)
Definition getitem {K V : Type} `{Countable K} (d : gmap K V) (k : K) : result V :=
  match d !! k with
  | Some v => Ok v
  | None => Raise KeyError
  end.

(** [k in d] on a dict. *)
Definition contains {K V : Type} `{Countable K} (d : gmap K V) (k : K) : bool :=
  bool_decide (is_Some (d !! k)).

(** [v[1]] on a value. *)
Definition index1 (v : value) : result value :=
  match v with
  | VList l => match l !! 1%nat with Some x => Ok x | None => Raise IndexError end
  | VStr s => match s !! 1%nat with Some c => Ok (VStr [c]) | None => Raise IndexError end
  | VInt _ | VNone => Raise TypeError
  end.

(** Reading a value as an int, a list of ints, a list of lists of ints. *)
Definition as_int (v : value) : result Z :=
  match v with
  | VInt z => Ok z
  | _ => Raise TypeError
  end.

Definition as_ints (v : value) : result (list Z) :=
  xs ← iter v; for_each as_int xs.

Definition as_int_lists (v : value) : result (list (list Z)) :=
  xs ← iter v; for_each as_ints xs.

(** [len(l)] and the truth value of an int ([if x:]). *)
Definition len {A : Type} (l : list A) : Z := Z.of_nat (length l).

Definition truthy (z : Z) : bool := negb (z =? 0).

Definition truthy_opt (o : option Z) : bool :=
  match o with
  | Some z => truthy z
  | None => false
  end.

(** Slices [l[:i]] and [l[i:]]: a negative bound counts from the end, and
    bounds are clipped to the list. *)
Definition slice_bound (n i : Z) : nat :=
  Z.to_nat (if i <? 0 then Z.max 0 (n + i) else Z.min i n).

Definition slice_to {A : Type} (l : list A) (i : Z) : list A :=
  take (slice_bound (len l) i) l.

Definition slice_from {A : Type} (l : list A) (i : Z) : list A :=
  drop (slice_bound (len l) i) l.

(** The [random] module: the generator is the sequence of raw values it
    will produce and the number of values consumed so far. *)
Record rng : Type := {
  entropy : nat -> Z;
  consumed : nat
}.

Definition next (g : rng) : rng :=
  {| entropy := entropy g; consumed := S (consumed g) |}.

(** [random.randint(a, b)]: a value of [a..b], both ends included;
    [ValueError] on an empty range. *)
Definition randint (a b : Z) (g : rng) : result (Z * rng) :=
  if b <? a then Raise ValueError
  else Ok (a + entropy g (consumed g) mod (b - a + 1), next g).

End Py.

Import Py.

(** ** The TGReDial data loader *)

Module DataLoader.

Abbreviation conv_dict := (gmap string value).

(** A Python [str] in the vocabulary maps is its list of code points. *)
Abbreviation pystr := (list Z).

(** The attributes [__init__] stores on the loader: the ids of the special
    tokens, the vocabulary maps and the truncation lengths (each
    [opt.get(..., None)], hence optional). *)
Record loader : Type := {
  n_entity : Z;
  pad_token_idx : Z;
  start_token_idx : Z;
  end_token_idx : Z;
  unk_token_idx : Z;
  sent_split_idx : Z;
  word_split_idx : Z;
  pad_entity_idx : Z;
  pad_word_idx : Z;
  tok2ind : gmap pystr Z;
  id2entity : gmap Z pystr;
  ind2topic : gmap Z (list pystr);
  context_truncate : option Z;
  response_truncate : option Z;
  entity_truncate : option Z;
  word_truncate : option Z;
  item_truncate : option Z
}.

Definition item_size (self : loader) : Z := n_entity self.
Definition conv_bos_id (self : loader) : Z := start_token_idx self.

(** [x - k] on an optional length: [None - k] is a [TypeError]. *)
Definition minus_opt (x : option Z) (k : Z) : result (option Z) :=
  match x with
  | Some z => Ok (Some (z - k))
  | None => Raise TypeError
  end.

(** *** The helpers of [crslab.data.dataloader.utils] *)

(** Modelled from the spec: [truncate] of [crslab.data.dataloader.utils] is
    not among the sources. A sequence no longer than [max_length] (or any
    sequence when no length is configured) is kept whole; otherwise
    [truncate_tail] keeps the first [max_length] elements and
    [truncate_tail=False] removes from the head, keeping the last
    [max_length] elements. *)
Definition truncate {A : Type} (vec : list A) (max_length : option Z)
    (truncate_tail : bool) : list A :=
  match max_length with
  | None => vec
  | Some m =>
      if len vec <=? m then vec
      else if m =? 0 then []
      else if truncate_tail then slice_to vec m
      else slice_from vec (- m)
  end.

(** Modelled from the spec: [merge_utt] of [crslab.data.dataloader.utils]
    is not among the sources. The utterances are concatenated, the optional
    separator token after each of them, the last separator dropped unless
    [keep_split_in_tail], and the optional final token appended. *)
Definition merge_utt (conversation : list (list Z)) (split_token_idx : option Z)
    (keep_split_in_tail : bool) (final_token_idx : option Z) : list Z :=
  let merged :=
    concat (fmap (fun utt =>
      match split_token_idx with
      | Some s => if truthy s then utt ++ [s] else utt
      | None => utt
      end) conversation) in
  let merged :=
    if truthy_opt split_token_idx && negb keep_split_in_tail
    then slice_to merged (-1) else merged in
  match final_token_idx with
  | Some f => if truthy f then merged ++ [f] else merged
  | None => merged
  end.

(** Modelled from the spec: [add_start_end_token_idx] of
    [crslab.data.dataloader.utils] is not among the sources. The sequence
    is wrapped with the start and end markers that are given. *)
Definition add_start_end_token_idx (vec : list Z) (start_token_idx end_token_idx : option Z)
    : list Z :=
  let res := if truthy_opt start_token_idx
             then default 0 start_token_idx :: vec else vec in
  if truthy_opt end_token_idx then res ++ [default 0 end_token_idx] else res.

(** Modelled from the spec: one row of [padded_tensor], which is not among
    the sources. The content is flush to the start ([pad_tail]) or to the
    end of a row of width [t], the rest is filled with [pad_idx]; a row
    longer than [t] does not fit. *)
Definition pad_row (pad_idx : Z) (pad_tail : bool) (t : nat) (item : list Z)
    : result (list Z) :=
  if (t <? length item)%nat then Raise RuntimeError
  else if pad_tail then Ok (item ++ replicate (t - length item) pad_idx)
  else Ok (replicate (t - length item) pad_idx ++ item).

(** What [pad_row] produces: [row] is [item] padded to width [t]. *)
Definition padded (pad_idx : Z) (pad_tail : bool) (t : nat) (item row : list Z) : Prop :=
  (length item <= t)%nat /\
  row = if pad_tail then item ++ replicate (t - length item) pad_idx
        else replicate (t - length item) pad_idx ++ item.

(** All rows of a tensor have length [w]. *)
Definition all_width (w : Z) (rows : list (list Z)) : Prop :=
  Forall (fun row => len row = w) rows.

(** Modelled from the spec: the width [padded_tensor] pads to, [max_len]
    when it is given, the longest row otherwise, and at least 1. *)
Definition tensor_width (items : list (list Z)) (max_len : option Z) : nat :=
  let t := match max_len with
           | None => max_list (length <$> items)
           | Some m => Z.to_nat m
           end in
  Nat.max t 1.

(** Modelled from the spec: [padded_tensor] of
    [crslab.data.dataloader.utils] is not among the sources. All rows of a
    batch are padded with [pad_idx] to one length: [max_len] when it is
    given, the longest row otherwise, and at least 1; padding goes after
    the content for [pad_tail] and before it otherwise. An empty batch has
    no tensor. *)
Definition padded_tensor (items : list (list Z)) (pad_idx : Z) (pad_tail : bool)
    (max_len : option Z) : result (list (list Z)) :=
  match items with
  | [] => Raise ValueError
  | _ => for_each (pad_row pad_idx pad_tail (tensor_width items max_len)) items
  end.

(** *** Recommendation batches *)

(** [rec_process_fn]: one copy of the record per listed movie, the copy's
    ['item'] set to that movie. *)
Definition augment (d : conv_dict) (movie : value) : conv_dict :=
  <["item"%string := movie]> d.

Definition expand_record (d : conv_dict) : result (list conv_dict) :=
  items ← getitem d "items"%string;
  movies ← iter items;
  Ok (augment d <$> (movies : list value)).

Definition rec_process_fn (dataset : list conv_dict) : result (list conv_dict) :=
  per_record ← for_each expand_record dataset;
  Ok (concat per_record).

(** [_process_rec_context]: the separator is put in front of every
    utterance but the first (in place, in the record's own lists), the
    utterances are merged, truncated from the head and wrapped. *)
Definition insert_splits (self : loader) (context_tokens : list (list Z)) : list (list Z) :=
  imap (fun i utterance =>
          if (i =? 0)%nat then utterance else sent_split_idx self :: utterance)
       context_tokens.

Definition _process_rec_context (self : loader) (context_tokens : list (list Z))
    : result (list Z) :=
  let compact_context := insert_splits self context_tokens in
  max_length ← minus_opt (context_truncate self) 2;
  let compat_context :=
    truncate (merge_utt compact_context None false None) max_length false in
  Ok (add_start_end_token_idx compat_context
        (Some (start_token_idx self)) (Some (end_token_idx self))).

(** [_neg_sample]: draw from [1..item_size] until the draw is outside
    [item_set]. The loop has no bound of its own; [fuel] bounds the number
    of redraws of the model. *)
Fixpoint neg_sample_loop (fuel : nat) (self : loader) (item_set : gset Z)
    (item : Z) (g : rng) : result (Z * rng) :=
  if bool_decide (item ∈ item_set) then
    match fuel with
    | O => OutOfFuel
    | S fuel' =>
        '(item', g') ← randint 1 (item_size self) g;
        neg_sample_loop fuel' self item_set item' g'
    end
  else Ok (item, g).

Definition _neg_sample (fuel : nat) (self : loader) (item_set : gset Z) (g : rng)
    : result (Z * rng) :=
  '(item, g') ← randint 1 (item_size self) g;
  neg_sample_loop fuel self item_set item g'.

(** The [k]-th value that [random.randint(1, item_size)] returns from the
    generator state [g]. *)
Definition draw (self : loader) (g : rng) (k : nat) : Z :=
  1 + entropy g (consumed g + k)%nat mod (item_size self - 1 + 1).

(** The loop [for _ in input_ids: sample_negs.append(...)]. *)
Fixpoint sample_negs_loop (fuel : nat) (self : loader) (seq_set : gset Z)
    (input_ids : list Z) (g : rng) : result (list Z * rng) :=
  match input_ids with
  | [] => Ok ([], g)
  | _ :: rest =>
      '(neg, g') ← _neg_sample fuel self seq_set g;
      '(negs, g'') ← sample_negs_loop fuel self seq_set rest g';
      Ok (neg :: negs, g'')
  end.

Record history : Type := {
  h_input_ids : list Z;
  h_target_pos : option (list Z);
  h_input_mask : list Z;
  h_sample_negs : list Z
}.

(** [_process_history]. *)
Definition _process_history (fuel : nat) (self : loader) (context_items : list Z)
    (item_id : option Z) (g : rng) : result (history * rng) :=
  let input_ids := truncate context_items (item_truncate self) false in
  let input_mask := fmap (fun _ => 1) input_ids in
  let seq_set : gset Z := list_to_set input_ids in
  '(sample_negs, g') ← sample_negs_loop fuel self seq_set input_ids g;
  Ok ({| h_input_ids := input_ids;
         h_target_pos := (fun i => slice_from input_ids 1 ++ [i]) <$> item_id;
         h_input_mask := input_mask;
         h_sample_negs := sample_negs |}, g').

(** The context items of a record: the interaction history, when the
    record has one, followed by the items of the context. *)
Definition context_items_of (d : conv_dict) : result (list Z) :=
  items ← (v ← getitem d "context_items"%string; as_ints v);
  if contains d "interaction_history"%string then
    hist ← (v ← getitem d "interaction_history"%string; as_ints v);
    Ok (hist ++ items)
  else Ok items.

Record rec_batch : Type := {
  rb_context : list (list Z);
  rb_mask : list (list Z);
  rb_input_ids : list (list Z);
  rb_target_pos : list (list Z);
  rb_input_mask : list (list Z);
  rb_sample_negs : list (list Z);
  rb_movie_id : list Z
}.

(** What the per-record loop of [rec_batchify] appends for one record. *)
Record rec_row : Type := {
  rr_context : list Z;
  rr_movie_id : Z;
  rr_history : history
}.

Fixpoint rec_rows (fuel : nat) (self : loader) (batch : list conv_dict) (g : rng)
    : result (list rec_row * rng) :=
  match batch with
  | [] => Ok ([], g)
  | d :: rest =>
      context ← (v ← getitem d "context_tokens"%string; toks ← as_int_lists v;
                 _process_rec_context self toks);
      item_id ← (v ← getitem d "item"%string; as_int v);
      context_items ← context_items_of d;
      '(h, g') ← _process_history fuel self context_items (Some item_id) g;
      '(rows, g'') ← rec_rows fuel self rest g';
      Ok ({| rr_context := context; rr_movie_id := item_id; rr_history := h |} :: rows,
          g'')
  end.

(** The padding stage of [rec_batchify]. *)
Definition rec_pad (self : loader) (rows : list rec_row) : result rec_batch :=
  let pad := pad_token_idx self in
  let column (f : history -> list Z) : list (list Z) :=
    (fun r => f (rr_history r)) <$> rows in
  batch_context ← padded_tensor (rr_context <$> rows) pad true (context_truncate self);
  input_ids ← padded_tensor (column h_input_ids) pad false (item_truncate self);
  target_pos ←
    padded_tensor (column (fun h => default [] (h_target_pos h))) pad false
      (item_truncate self);
  input_mask ← padded_tensor (column h_input_mask) pad false (item_truncate self);
  sample_negs ← padded_tensor (column h_sample_negs) pad false (item_truncate self);
  Ok {| rb_context := batch_context;
        rb_mask :=
          (fun row : list Z => (fun x => if x =? pad then 0 else 1) <$> row)
            <$> (batch_context : list (list Z));
        rb_input_ids := input_ids;
        rb_target_pos := target_pos;
        rb_input_mask := input_mask;
        rb_sample_negs := sample_negs;
        rb_movie_id := rr_movie_id <$> rows |}.

Definition rec_batchify (fuel : nat) (self : loader) (batch : list conv_dict) (g : rng)
    : result (rec_batch * rng) :=
  '(rows, g') ← rec_rows fuel self batch g;
  b ← rec_pad self rows;
  Ok (b, g').

(** *** Conversation batches *)

(** [_get_context_tokens]: the start token closes every utterance but the
    last. *)
Definition _get_context_tokens (self : loader) (context_tokens : list (list Z))
    : result (list (list Z)) :=
  let tokens := (fun utter => utter ++ [conv_bos_id self]) <$> context_tokens in
  match last tokens with
  | None => Raise IndexError
  | Some t => Ok (take (length tokens - 1) tokens ++ [slice_to t (-1)])
  end.

(** [[self.tok2ind.get(token, self.unk_token_idx) for token in tokens]]. *)
Definition token_ids (self : loader) (tokens : list pystr) : list Z :=
  (fun token => default (unk_token_idx self) (tok2ind self !! token)) <$> tokens.

(** [self.ind2topic[topic_id]] with a value as the key. *)
Definition topic_tokens (self : loader) (topic_id : value) : result (list pystr) :=
  match topic_id with
  | VInt z => getitem (ind2topic self) z
  | VList _ => Raise TypeError
  | VStr _ | VNone => Raise KeyError
  end.

(** [self.id2entity[movie_id].split('（')[0]], one token per character;
    the full-width parenthesis is code point 65288. *)
Fixpoint before_paren (name : pystr) : pystr :=
  match name with
  | [] => []
  | c :: rest => if c =? 65288 then [] else c :: before_paren rest
  end.

Definition movie_tokens (self : loader) (movie_id : value) : result (list pystr) :=
  match movie_id with
  | VInt z => name ← getitem (id2entity self) z;
              Ok ((fun c => [c]) <$> before_paren name)
  | VList _ => Raise TypeError
  | VStr _ | VNone => Raise KeyError
  end.

(** The topics of one target policy: its second component when that is a
    list. *)
Definition policy_topics (target_policy : value) : result (list value) :=
  topic_variable ← index1 target_policy;
  match topic_variable with
  | VList topics => Ok topics
  | _ => Ok []
  end.

Definition _get_enhanced_topic (self : loader) (d : conv_dict) : result (list Z) :=
  if contains d "target"%string then
    target ← getitem d "target"%string;
    policies ← iter target;
    topics ← for_each policy_topics policies;
    enhanced_topic ← for_each (fun topic_id => toks ← topic_tokens self topic_id;
                                               Ok (token_ids self toks))
                              (concat topics);
    Ok (merge_utt enhanced_topic (Some (word_split_idx self)) false
          (Some (sent_split_idx self)))
  else Ok [].

Definition _get_enhanced_movie (self : loader) (d : conv_dict) : result (list Z) :=
  if contains d "items"%string then
    items ← getitem d "items"%string;
    movies ← iter items;
    enhanced_movie ← for_each (fun movie_id => toks ← movie_tokens self movie_id;
                                               Ok (token_ids self toks))
                              movies;
    Ok (truncate
          (merge_utt enhanced_movie (Some (word_split_idx self))
             (truthy (sent_split_idx self)) None)
          (item_truncate self) false)
  else Ok [].

Definition _get_enhanced_context_tokens (self : loader) (d : conv_dict)
    (last_context_token : list Z) : result (list Z) :=
  enhanced_topic ← _get_enhanced_topic self d;
  enhanced_movie ← _get_enhanced_movie self d;
  if negb (len enhanced_movie =? 0) then
    max_length ← minus_opt (context_truncate self) (len enhanced_movie);
    Ok (enhanced_movie ++ truncate last_context_token max_length false)
  else if negb (len enhanced_topic =? 0) then
    max_length ← minus_opt (context_truncate self) (len enhanced_topic);
    Ok (enhanced_topic ++ truncate last_context_token max_length false)
  else Ok last_context_token.

(** [torch.cat((a, b), dim=1)]: the rows of two batches joined pairwise. *)
Definition cat_cols {A : Type} (a b : list (list A)) : result (list (list A)) :=
  if (length a =? length b)%nat then Ok (zip_with app a b)
  else Raise RuntimeError.

Record conv_batch : Type := {
  cb_enhanced_input_ids : list (list Z);
  cb_enhanced_context_tokens : list (list Z);
  cb_input_ids : list (list Z);
  cb_context_tokens : list (list Z);
  cb_context_entities : list (list Z);
  cb_context_words : list (list Z);
  cb_response : list (list Z)
}.

(** [_finalize_batch]. *)
Definition _finalize_batch (self : loader)
    (batch_context_tokens batch_response batch_enhanced_context_tokens
     batch_context_entities batch_context_words : list (list Z)) : result conv_batch :=
  let pad := pad_token_idx self in
  context_tokens ← padded_tensor batch_context_tokens pad false (context_truncate self);
  response ← padded_tensor batch_response pad true (response_truncate self);
  input_ids ← cat_cols context_tokens response;
  enhanced_context_tokens ←
    padded_tensor batch_enhanced_context_tokens pad false (context_truncate self);
  enhanced_input_ids ← cat_cols enhanced_context_tokens response;
  context_entities ←
    padded_tensor batch_context_entities (pad_entity_idx self) false None;
  context_words ← padded_tensor batch_context_words (pad_word_idx self) false None;
  Ok {| cb_enhanced_input_ids := enhanced_input_ids;
        cb_enhanced_context_tokens := enhanced_context_tokens;
        cb_input_ids := input_ids;
        cb_context_tokens := context_tokens;
        cb_context_entities := context_entities;
        cb_context_words := context_words;
        cb_response := response |}.

(** What the per-record loop of [conv_batchify] appends for one record. *)
Record conv_row : Type := {
  cr_context_tokens : list Z;
  cr_enhanced_context_tokens : list Z;
  cr_response : list Z;
  cr_context_entities : list Z;
  cr_context_words : list Z
}.

Definition conv_row_of (self : loader) (d : conv_dict) : result conv_row :=
  context_tokens ← (v ← getitem d "context_tokens"%string; toks ← as_int_lists v;
                    _get_context_tokens self toks);
  let context := truncate (merge_utt context_tokens None false None)
                   (context_truncate self) false in
  response ← (v ← getitem d "response"%string; as_ints v);
  max_length ← minus_opt (response_truncate self) 2;
  let response := add_start_end_token_idx (truncate response max_length true)
                    (Some (start_token_idx self)) (Some (end_token_idx self)) in
  entities ← (v ← getitem d "context_entities"%string; as_ints v);
  words ← (v ← getitem d "context_words"%string; as_ints v);
  enhanced ← _get_enhanced_context_tokens self d context;
  Ok {| cr_context_tokens := context;
        cr_enhanced_context_tokens := enhanced;
        cr_response := response;
        cr_context_entities := truncate entities (entity_truncate self) false;
        cr_context_words := truncate words (word_truncate self) false |}.

(** [conv_batchify]. *)
Definition conv_batchify (self : loader) (batch : list conv_dict) : result conv_batch :=
  rows ← for_each (conv_row_of self) batch;
  _finalize_batch self
    (cr_context_tokens <$> rows) (cr_response <$> rows)
    (cr_enhanced_context_tokens <$> rows)
    (cr_context_entities <$> rows) (cr_context_words <$> rows).

(** *** A small configuration for the examples *)

Definition example_loader : loader :=
  {| n_entity := 3;
     pad_token_idx := 0; start_token_idx := 1; end_token_idx := 2; unk_token_idx := 3;
     sent_split_idx := 2; word_split_idx := 2;
     pad_entity_idx := 0; pad_word_idx := 0;
     tok2ind := ∅; id2entity := ∅; ind2topic := ∅;
     context_truncate := Some 4; response_truncate := Some 4;
     entity_truncate := Some 3; word_truncate := Some 3; item_truncate := Some 2 |}.

(** A generator whose raw values count up, and one stuck on one value. *)
Definition counting_rng : rng := {| entropy := Z.of_nat; consumed := 0 |}.
Definition constant_rng (z : Z) : rng := {| entropy := fun _ => z; consumed := 0 |}.

(** A generator that repeats the raw value 0 for its first [n] values and
    counts up afterwards. *)
Definition stalling_rng (n : nat) : rng :=
  {| entropy := fun i => if (i <? n)%nat then 0 else Z.of_nat (i - n); consumed := 0 |}.

(** A conversation record with one utterance, one entity and one word. *)
Definition example_record : conv_dict :=
  {[ "context_tokens"%string := VList [VList [VInt 5; VInt 6]];
     "response"%string := VList [VInt 7];
     "context_entities"%string := VList [VInt 2];
     "context_words"%string := VList [VInt 1] ]}.

(** *** Policy augmentation and interaction *)

(** The topics of one target policy in [policy_process_fn]: whatever
    iterating its second component yields. *)
Definition policy_topic_variable (target_policy : value) : result (list value) :=
  topic_variable ← index1 target_policy;
  iter topic_variable.

Definition set_target_topic (d : conv_dict) (topic : value) : conv_dict :=
  <["target_topic"%string := topic]> d.

Definition expand_policy (d : conv_dict) : result (list conv_dict) :=
  target ← getitem d "target"%string;
  policies ← iter target;
  topics ← for_each policy_topic_variable policies;
  Ok (set_target_topic d <$> concat (topics : list (list value))).

(** [policy_process_fn]: one copy of the record per topic of each of its
    target policies, the copy's ['target_topic'] set to that topic. *)
Definition policy_process_fn (dataset : list conv_dict) : result (list conv_dict) :=
  per_record ← for_each expand_policy dataset;
  Ok (concat per_record).

(** What [conv_interact] returns: the padded context, which it returns
    four times, the padded entities and words, and [None]. *)
Record conv_interaction : Type := {
  ci_enhanced_input_ids : list (list Z);
  ci_enhanced_context_tokens : list (list Z);
  ci_input_ids : list (list Z);
  ci_context_tokens : list (list Z);
  ci_context_entities : list (list Z);
  ci_context_words : list (list Z);
  ci_response : option (list (list Z))
}.

(** [conv_interact]. *)
Definition conv_interact (self : loader) (data : conv_dict) : result conv_interaction :=
  context_tokens ← (v ← getitem data "context_tokens"%string; toks ← as_int_lists v;
                    _get_context_tokens self toks);
  let context_tokens :=
    [truncate (merge_utt context_tokens None false None) (context_truncate self) false] in
  context_tokens ←
    padded_tensor context_tokens (pad_token_idx self) false (context_truncate self);
  entities ← (v ← getitem data "context_entities"%string; as_ints v);
  let context_entities := [truncate entities (entity_truncate self) false] in
  words ← (v ← getitem data "context_words"%string; as_ints v);
  let context_words := [truncate words (word_truncate self) false] in
  context_entities ← padded_tensor context_entities (pad_entity_idx self) false None;
  context_words ← padded_tensor context_words (pad_word_idx self) false None;
  Ok {| ci_enhanced_input_ids := context_tokens;
        ci_enhanced_context_tokens := context_tokens;
        ci_input_ids := context_tokens;
        ci_context_tokens := context_tokens;
        ci_context_entities := context_entities;
        ci_context_words := context_words;
        ci_response := None |}.

(** *** Recommendation in interaction *)

(** [_process_rec_context] with its effect on its argument: the loop
    inserts the separators into the utterance lists of the caller's record
    themselves, before anything can fail, so the call leaves them as
    [insert_splits] makes them. *)
Definition _process_rec_context_inplace (self : loader) (context_tokens : list (list Z))
    : result (list Z) * list (list Z) :=
  (_process_rec_context self context_tokens, insert_splits self context_tokens).

(** What [rec_interact] returns: the fields of a recommendation batch of
    one record, with [None] for the target positions and the movie. *)
Record rec_interaction : Type := {
  ri_context : list (list Z);
  ri_mask : list (list Z);
  ri_input_ids : list (list Z);
  ri_target_pos : option (list (list Z));
  ri_input_mask : list (list Z);
  ri_sample_negs : list (list Z);
  ri_movie_id : option (list Z)
}.

(** [rec_interact]. *)
Definition rec_interact (fuel : nat) (self : loader) (data : conv_dict) (g : rng)
    : result (rec_interaction * rng) :=
  context ← (v ← getitem data "context_tokens"%string; toks ← as_int_lists v;
             _process_rec_context self toks);
  context_items ← context_items_of data;
  '(h, g') ← _process_history fuel self context_items None g;
  let pad := pad_token_idx self in
  context ← padded_tensor [context] pad true (context_truncate self);
  input_ids ← padded_tensor [h_input_ids h] pad false (item_truncate self);
  input_mask ← padded_tensor [h_input_mask h] pad false (item_truncate self);
  sample_negs ← padded_tensor [h_sample_negs h] pad false (item_truncate self);
  Ok ({| ri_context := context;
         ri_mask :=
           (fun row : list Z => (fun x => if x =? pad then 0 else 1) <$> row)
             <$> (context : list (list Z));
         ri_input_ids := input_ids;
         ri_target_pos := None;
         ri_input_mask := input_mask;
         ri_sample_negs := sample_negs;
         ri_movie_id := None |}, g').

(** A recommendation record with two utterances and two context items. *)
Definition example_rec_record : conv_dict :=
  {[ "context_tokens"%string := VList [VList [VInt 5]; VList [VInt 6]];
     "context_items"%string := VList [VInt 1; VInt 2];
     "item"%string := VInt 3 ]}.

(** *** Policy batches *)

(** [cls_id] and [sep_id] are set to the start and the end token. *)
Definition cls_id (self : loader) : Z := start_token_idx self.
Definition sep_id (self : loader) : Z := end_token_idx self.

(** [_get_final_topic]: the token ids of the topics of [final_topic[1]],
    merged. *)
Definition _get_final_topic (self : loader) (final_topic : value) : result (list Z) :=
  topic_ids ← index1 final_topic;
  topic_ids ← iter topic_ids;
  final_topic ← for_each (fun topic_id => toks ← topic_tokens self topic_id;
                                           Ok (token_ids self toks))
                         topic_ids;
  Ok (merge_utt final_topic (Some (word_split_idx self)) false (Some (sep_id self))).

(** [_get_context]. *)
Definition _get_context (self : loader) (context_tokens : list (list Z))
    (final_topic : list Z) : result (list Z) :=
  let context :=
    merge_utt context_tokens (Some (sent_split_idx self)) false (Some (sep_id self)) in
  let context := context ++ final_topic in
  max_length ← minus_opt (context_truncate self) 1;
  Ok (add_start_end_token_idx (truncate context max_length false)
        (Some (cls_id self)) None).

(** [topic_id != x] for an int [x]: a value that is no int differs. *)
Definition value_ne (topic_id : value) (x : Z) : bool :=
  match topic_id with
  | VInt z => negb (z =? x)
  | _ => true
  end.

(** [_get_policy_tokens]: the token ids of every topic that is not the pad
    topic. [pad_topic_idx] is the attribute [__init__] sets for a vocabulary
    with a ['pad_topic']. *)
Definition _get_policy_tokens (self : loader) (pad_topic_idx : Z) (topic_ids : value)
    : result (list (list Z)) :=
  topic_ids ← iter topic_ids;
  tokens ← for_each (fun topic_id =>
                       if value_ne topic_id pad_topic_idx then
                         toks ← topic_tokens self topic_id;
                         Ok (Some (token_ids self toks))
                       else Ok None)
                    topic_ids;
  Ok (omap id (tokens : list (option (list Z)))).

(** [_get_context_policy]. *)
Definition _get_context_policy (self : loader) (pad_topic_idx : Z)
    (context_policies : value) (final_topic : list Z) : result (list Z) :=
  turns ← iter context_policies;
  per_turn ← for_each (fun policies_one_turn =>
                         policies ← iter policies_one_turn;
                         if negb (len policies =? 0) then
                           per_policy ← for_each (fun policy =>
                                                    topic_ids ← index1 policy;
                                                    _get_policy_tokens self pad_topic_idx
                                                      topic_ids)
                                                 policies;
                           Ok (concat (per_policy : list (list (list Z))))
                         else Ok [])
                      turns;
  let context_policy := concat (per_turn : list (list (list Z))) in
  let context_policy := merge_utt context_policy (Some (word_split_idx self)) false None in
  let context_policy :=
    add_start_end_token_idx context_policy (Some (cls_id self)) (Some (sep_id self)) in
  Ok (context_policy ++ final_topic).

Record policy_batch : Type := {
  pb_context : list (list Z);
  pb_context_mask : list (list Z);
  pb_context_policy : list (list Z);
  pb_context_policy_mask : list (list Z);
  pb_user_profile : list (list Z);
  pb_user_profile_mask : list (list Z);
  pb_target : list Z
}.

(** [(t != x).long()]. *)
Definition ne_mask (t : list (list Z)) (x : Z) : list (list Z) :=
  (fun row : list Z => (fun y => if y =? x then 0 else 1) <$> row) <$> t.

(** [_finalize_policy_batch]. *)
Definition _finalize_policy_batch (self : loader)
    (batch_context batch_context_policy batch_user_profile : list (list Z))
    (batch_target : list Z) : result policy_batch :=
  let pad := pad_token_idx self in
  batch_context ← padded_tensor batch_context pad true (context_truncate self);
  batch_context_policy ← padded_tensor batch_context_policy pad true None;
  batch_user_profile ← padded_tensor batch_user_profile pad true None;
  Ok {| pb_context := batch_context;
        pb_context_mask := ne_mask batch_context pad;
        pb_context_policy := batch_context_policy;
        pb_context_policy_mask := ne_mask batch_context_policy 0;
        pb_user_profile := batch_user_profile;
        pb_user_profile_mask := ne_mask batch_user_profile 0;
        pb_target := batch_target |}.

(** What the per-record loop of [policy_batchify] adds for one record. *)
Record policy_row : Type := {
  pr_context : list Z;
  pr_context_policy : list Z;
  pr_user_profile : list (list Z);
  pr_target : Z
}.

Definition policy_row_of (self : loader) (pad_topic_idx : Z) (d : conv_dict)
    : result policy_row :=
  final_topic ← (v ← getitem d "final"%string; _get_final_topic self v);
  context ← (v ← getitem d "context_tokens"%string; toks ← as_int_lists v;
             _get_context self toks final_topic);
  context_policy ← (v ← getitem d "context_policy"%string;
                    _get_context_policy self pad_topic_idx v final_topic);
  user_profile ← (v ← getitem d "user_profile"%string; as_int_lists v);
  target ← (v ← getitem d "target_topic"%string; as_int v);
  Ok {| pr_context := context;
        pr_context_policy := context_policy;
        pr_user_profile := user_profile;
        pr_target := target |}.

(** [policy_batchify]: the contexts, the policies and the targets are
    appended, one per record; the user profiles are joined with [extend]. *)
Definition policy_batchify (self : loader) (pad_topic_idx : Z) (batch : list conv_dict)
    : result policy_batch :=
  rows ← for_each (policy_row_of self pad_topic_idx) batch;
  _finalize_policy_batch self
    (pr_context <$> rows) (pr_context_policy <$> rows)
    (concat (pr_user_profile <$> rows)) (pr_target <$> rows).

(** A loader that knows topic 10, of one token, and has 9 as its pad
    token; a policy record with two profile sentences. *)
Definition example_policy_loader : loader :=
  {| n_entity := 3;
     pad_token_idx := 9; start_token_idx := 1; end_token_idx := 2; unk_token_idx := 3;
     sent_split_idx := 2; word_split_idx := 2;
     pad_entity_idx := 0; pad_word_idx := 0;
     tok2ind := {[ [100] := 7 ]}; id2entity := ∅; ind2topic := {[ 10 := [[100]] ]};
     context_truncate := Some 8; response_truncate := Some 4;
     entity_truncate := Some 3; word_truncate := Some 3; item_truncate := Some 2 |}.

Definition example_policy_batch_record : conv_dict :=
  {[ "final"%string := VList [VStr [1]; VList [VInt 10]];
     "context_tokens"%string := VList [VList [VInt 5; VInt 6]];
     "context_policy"%string :=
       VList [VList [VList [VStr [1]; VList [VInt 10; VInt 0]]]; VList []];
     "user_profile"%string := VList [VList [VInt 4]; VList [VInt 5; VInt 6]];
     "target_topic"%string := VInt 10 ]}.

(** A record with two target policies, of two topics and of one. *)
Definition example_policy_record : conv_dict :=
  {[ "target"%string :=
       VList [VList [VStr [1]; VList [VInt 10; VInt 11]];
              VList [VStr [2]; VList [VInt 12]]] ]}.

End DataLoader.

(** ** The KGSF model *)

Module KGSF.

(** A vector of floats (an embedding, a row of logits). *)
Abbreviation vec := (list Q).

(** *** Tensor operations *)

(** [torch.argmax] of a vector: the index of the first maximal value. *)
Fixpoint argmax_from (best : Q) (best_idx idx : Z) (l : vec) : Z :=
  match l with
  | [] => best_idx
  | x :: rest =>
      if Qle_bool x best then argmax_from best best_idx (idx + 1) rest
      else argmax_from x idx (idx + 1) rest
  end.

Definition argmax (l : vec) : result Z :=
  match l with
  | [] => Raise IndexError
  | x :: rest => Ok (argmax_from x 0 1 rest)
  end.

(** [reps[ids]]: the rows of [reps] picked by a batch of id sequences; an
    id outside [-n..n-1] is an [IndexError]. *)
Definition index_row {A : Type} (reps : list A) (i : Z) : result A :=
  let n := len reps in
  let j := if i <? 0 then i + n else i in
  if (j <? 0) || (n <=? j) then Raise IndexError
  else match reps !! Z.to_nat j with
       | Some x => Ok x
       | None => Raise IndexError
       end.

Definition index_rows {A : Type} (reps : list A) (ids : list (list Z))
    : result (list (list A)) :=
  for_each (for_each (index_row reps)) ids.

(** [ids.eq(pad)]. *)
Definition eq_mask (ids : list (list Z)) (pad : Z) : list (list bool) :=
  (fun row : list Z => (fun x => x =? pad) <$> row) <$> ids.

(** [torch.cat((a, b, c), dim=-1)] of three batches of vector sequences:
    the batch sizes and the sequence lengths have to agree. The parts of
    every position are kept apart. *)
Fixpoint cat3_seq (a b c : list vec) : result (list (vec * vec * vec)) :=
  match a, b, c with
  | [], [], [] => Ok []
  | x :: a', y :: b', z :: c' =>
      rest ← cat3_seq a' b' c'; Ok ((x, y, z) :: rest)
  | _, _, _ => Raise RuntimeError
  end.

Fixpoint cat3 (a b c : list (list vec)) : result (list (list (vec * vec * vec))) :=
  match a, b, c with
  | [], [], [] => Ok []
  | x :: a', y :: b', z :: c' =>
      row ← cat3_seq x y z; rest ← cat3 a' b' c'; Ok (row :: rest)
  | _, _, _ => Raise RuntimeError
  end.

(** [F.linear(x, weight, bias)]: one dot product per row of [weight]. *)
Definition dot (x w : vec) : Q :=
  foldr Qplus 0%Q (zip_with Qmult x w).

Definition linear (x : vec) (weight : list vec) (bias : option vec) : vec :=
  match bias with
  | Some b => zip_with (fun w bi => (dot x w + bi)%Q) weight b
  | None => dot x <$> weight
  end.

(** [x[:, -1:, :]]: the last position of every row, when there is one. *)
Definition last_position {A : Type} (x : list (list A)) : list (list A) :=
  (fun row : list A => slice_from row (-1)) <$> x.

(** [x.unsqueeze(1)] and [x.unsqueeze(1).expand(-1, seq_len, -1)]. *)
Definition unsqueeze1 {A : Type} (x : list A) : list (list A) :=
  (fun v => [v]) <$> x.

Definition expand1 {A : Type} (x : list A) (seq_len : nat) : list (list A) :=
  (fun v => replicate seq_len v) <$> x.

(** A tensor whose rank is only known when it is indexed: a 0-dim tensor
    holds one value, a tensor of higher rank its slices along dim 0. *)
Inductive tensor (A : Type) : Type :=
| Scalar (x : A)
| Dim (xs : list (tensor A)).

Arguments Scalar {A} x.
Arguments Dim {A} xs.

(** [t[i]]: indexing a 0-dim tensor or past the end is an [IndexError]. *)
Definition tget {A : Type} (t : tensor A) (i : nat) : result (tensor A) :=
  match t with
  | Scalar _ => Raise IndexError
  | Dim xs => match xs !! i with
              | Some x => Ok x
              | None => Raise IndexError
              end
  end.

(** [t.reshape(-1)]. *)
Fixpoint flatten {A : Type} (t : tensor A) : list A :=
  match t with
  | Scalar x => [x]
  | Dim xs => (fix go (l : list (tensor A)) : list A :=
                 match l with
                 | [] => []
                 | y :: rest => flatten y ++ go rest
                 end) xs
  end.

Definition of_list1 {A : Type} (l : list A) : tensor A := Dim (Scalar <$> l).
Definition of_list2 {A : Type} (l : list (list A)) : tensor A := Dim (of_list1 <$> l).
Definition of_list3 {A : Type} (l : list (list (list A))) : tensor A :=
  Dim (of_list2 <$> l).

(** [t[n][j][0]] and [t[n][j][0][k]]. *)
Definition tget3 {A : Type} (t : tensor A) (n j : nat) : result (tensor A) :=
  t ← tget t n; t ← tget t j; tget t 0%nat.

Definition tget4 {A : Type} (t : tensor A) (n j k : nat) : result (tensor A) :=
  t ← tget3 t n j; tget t k.

(** The value of a tensor with a single element, as [bool(t)] and the
    comparisons of [sorted] need it. *)
Definition item {A : Type} (t : tensor A) : result A :=
  match flatten t with
  | [x] => Ok x
  | _ => Raise RuntimeError
  end.

(** [torch.cat((a, b))] along dim 0. *)
Definition tcat {A : Type} (a b : tensor A) : result (tensor A) :=
  match a, b with
  | Dim xs, Dim ys => Ok (Dim (xs ++ ys))
  | _, _ => Raise RuntimeError
  end.

(** [torch.stack] of 1-dim tensors: there must be one at least, and all of
    one length. *)
Definition stack {A : Type} (ts : list (list A)) : result (list (list A)) :=
  match ts with
  | [] => Raise RuntimeError
  | t :: rest =>
      if forallb (fun t' => (length t' =? length t)%nat) rest then Ok ts
      else Raise RuntimeError
  end.

(** [x.reshape(a, b, -1)] of the flattened data. *)
Fixpoint chunk {A : Type} (n k : nat) (l : list A) : list (list A) :=
  match n with
  | O => []
  | S n' => take k l :: chunk n' k (drop k l)
  end.

Definition reshape3 {A : Type} (a b : nat) (flat : list A) : result (list (list (list A))) :=
  if (a * b =? 0)%nat then Raise RuntimeError
  else if negb (length flat mod (a * b) =? 0)%nat then Raise RuntimeError
  else
    let r := (length flat / (a * b))%nat in
    Ok ((fun m => chunk b r m) <$> chunk a (b * r) flat).

(** [x.repeat(beam, 1, ...)]: [beam] copies along dim 0. *)
Definition repeat0 {A : Type} (beam : nat) (x : list A) : list A :=
  concat (replicate beam x).

(** [sorted(l, key=key, reverse=True)]: descending and stable. *)
Fixpoint insert_desc {A : Type} (key : A -> Q) (x : A) (l : list A) : list A :=
  match l with
  | [] => [x]
  | y :: rest =>
      if Qle_bool (key y) (key x) then x :: y :: rest
      else y :: insert_desc key x rest
  end.

Definition sorted_desc {A : Type} (key : A -> Q) (l : list A) : list A :=
  foldr (insert_desc key) [] l.

(** [v.topk(k)]: the [k] largest values, largest first, and their
    indices; [k] may not exceed the length. *)
Definition topk (k : nat) (v : vec) : result (vec * list Z) :=
  if (length v <? k)%nat then Raise RuntimeError
  else
    let ranked := take k (sorted_desc fst (zip v (seqZ 0 (len v)))) in
    Ok (fst <$> ranked, snd <$> ranked).

(** *** The model *)

(** What the decoder attends to: the encoded context tokens with their
    mask, and the entity and word representations with their masks. *)
Record encodings : Type := {
  token_encoding : list (list vec) * list (list bool);
  entity_reps : list (list vec);
  entity_mask : list (list bool);
  word_reps : list (list vec);
  word_mask : list (list bool)
}.

Section Model.

(** The incremental state of the decoder. *)
Context {St : Type}.

(** The attributes of the model: the ids of the special tokens and the
    layers, each at its current weights. The graph encoders are applied to
    the static graphs, so they stand for the node embeddings they return;
    [rec_bias], [infomax_bias] and [token_embedding] are the bias vectors
    and the weight matrix the code passes to [F.linear]. *)
Record model : Type := {
  start_token_idx : Z;
  end_token_idx : Z;
  pad_token_idx : Z;
  pad_entity_idx : Z;
  pad_word_idx : Z;
  response_truncate : Z;
  entity_encoder : list vec;
  word_encoder : list vec;
  entity_self_attn : list (list vec) -> list (list bool) -> list vec;
  word_self_attn : list (list vec) -> list (list bool) -> list vec;
  gate_layer : list vec -> list vec -> list vec;
  rec_bias : vec;
  rec_loss : list vec -> list Z -> Q;
  infomax_norm : vec -> vec;
  infomax_bias : vec;
  conv_encoder : list (list Z) -> list (list vec) * list (list bool);
  conv_entity_norm : vec -> vec;
  conv_entity_attn_norm : vec -> vec;
  conv_word_norm : vec -> vec;
  conv_word_attn_norm : vec -> vec;
  copy_norm : vec -> vec;
  copy_output : vec -> vec;
  copy_mask : list bool;
  token_embedding : list vec;
  conv_decoder : list (list Z) -> encodings -> option St -> list (list vec) * option St;
  conv_loss : list vec -> list Z -> Q
}.

Variable self : model.

(** [_starts]. *)
Definition _starts (batch_size : nat) : list (list Z) :=
  replicate batch_size [start_token_idx self].

(** The logits of one position: the copy logits, masked by the copy mask,
    plus the generation logits. *)
Definition sum_logits_at (latent : vec * vec * vec) : vec :=
  let '(entity_latent, word_latent, dialog_latent) := latent in
  let copy_latent := copy_norm self (entity_latent ++ word_latent ++ dialog_latent) in
  let copy_logits :=
    zip_with (fun x (m : bool) => if m then x else 0%Q) (copy_output self copy_latent)
      (copy_mask self) in
  let gen_logits := linear dialog_latent (token_embedding self) None in
  zip_with Qplus copy_logits gen_logits.

(** The logits of every position of every row. *)
Definition sum_logits_of (entity_latent word_latent dialog_latent : list (list vec))
    : result (list (list vec)) :=
  latent ← cat3 entity_latent word_latent dialog_latent;
  Ok ((fun row : list (vec * vec * vec) => sum_logits_at <$> row)
        <$> (latent : list (list (vec * vec * vec)))).

(** The decoder input of forced decoding:
    [torch.cat((start, response[:, :-1]), dim=-1)]. *)
Definition forced_inputs (response : list (list Z)) : list (list Z) :=
  zip_with app (_starts (length response))
    ((fun row : list Z => slice_to row (-1)) <$> response).

(** [_decode_forced_with_kg]; [seq_len] is [response.shape[1]]. *)
Definition _decode_forced_with_kg (enc : encodings)
    (entity_emb_attn word_emb_attn : list vec) (response : list (list Z))
    : result (list (list vec) * list (list Z)) :=
  let seq_len := length (default [] (head response)) in
  let inputs := forced_inputs response in
  let dialog_latent := (conv_decoder self inputs enc None).1 in
  let entity_latent := expand1 entity_emb_attn seq_len in
  let word_latent := expand1 word_emb_attn seq_len in
  sum_logits ← sum_logits_of entity_latent word_latent dialog_latent;
  preds ← for_each (for_each argmax) sum_logits;
  Ok (sum_logits, preds).

(** [finished] in the greedy loop: the number of rows that hold the end
    token equals the batch size. *)
Definition has_end (row : list Z) : bool :=
  existsb (fun x => x =? end_token_idx self) row.

Definition all_finished (batch_size : nat) (inputs : list (list Z)) : bool :=
  (length (filter (fun row => has_end row = true) inputs) =? batch_size)%nat.

(** One pass through the body of the greedy loop, up to the test of
    [finished]: the logits of the step, the inputs with the predictions
    appended, and the new incremental state. *)
Definition greedy_step (enc : encodings) (entity_emb_attn word_emb_attn : list vec)
    (inputs : list (list Z)) (incr_state : option St)
    : result (list vec * list (list Z) * option St) :=
  let '(dialog_latent, incr_state') := conv_decoder self inputs enc incr_state in
  let dialog_latent := last_position dialog_latent in
  let db_latent := unsqueeze1 entity_emb_attn in
  let concept_latent := unsqueeze1 word_emb_attn in
  sum_logits ← sum_logits_of db_latent concept_latent dialog_latent;
  preds ← for_each (for_each argmax) sum_logits;
  inputs' ← DataLoader.cat_cols inputs preds;
  Ok (concat sum_logits, inputs', incr_state').

(** The loop [for _ in range(self.response_truncate)] with [n] passes
    left. [logits] is the Python list of the logits of the passes made. *)
Fixpoint greedy_loop (n : nat) (enc : encodings) (entity_emb_attn word_emb_attn : list vec)
    (batch_size : nat) (inputs : list (list Z)) (incr_state : option St)
    (logits : list (list vec)) : result (list (list vec) * list (list Z)) :=
  match n with
  | O => Ok (logits, inputs)
  | S n' =>
      '(sum_logits, inputs', incr_state') ←
        greedy_step enc entity_emb_attn word_emb_attn inputs incr_state;
      let logits' := logits ++ [sum_logits] in
      if all_finished batch_size inputs' then Ok (logits', inputs')
      else greedy_loop n' enc entity_emb_attn word_emb_attn batch_size inputs'
             incr_state' logits'
  end.

(** [_decode_greedy_with_kg]. The returned logits are
    [torch.cat(logits, dim=1)], which needs at least one pass; they are
    kept as the list of the passes, one batch of logit rows per pass. *)
Definition _decode_greedy_with_kg (enc : encodings)
    (entity_emb_attn word_emb_attn : list vec)
    : result (list (list vec) * list (list Z)) :=
  let batch_size := length (token_encoding enc).1 in
  let inputs := _starts batch_size in
  '(logits, inputs') ←
    greedy_loop (Z.to_nat (response_truncate self)) enc entity_emb_attn word_emb_attn
      batch_size inputs None [];
  match logits with
  | [] => Raise RuntimeError
  | _ => Ok (logits, inputs')
  end.

(** *** Beam search *)

(** [torch.nn.functional.softmax] of a vector. *)
Variable softmax : vec -> vec.

(** A candidate of the search: the tokens, the history of the logits and
    the score. The search starts from empty Python lists in the first two
    places, here [None]. *)
Record candidate : Type := {
  cand_tokens : option (list Z);
  cand_logits : option (tensor Q);
  cand_score : Q
}.

(** [_initialize_beam_search]. *)
Definition _initialize_beam_search (batch_size beam : nat)
    : result (list (list candidate) * list (list (list Z)) * option St) :=
  inputs ← reshape3 1 batch_size (concat (_starts batch_size));
  Ok (replicate batch_size
        [{| cand_tokens := None; cand_logits := None; cand_score := 1 |}],
      inputs, None).

(** [_repeat_inputs]. *)
Definition _repeat_inputs (enc : encodings) (entity_emb_attn word_emb_attn : list vec)
    (beam : nat) : encodings * list vec * list vec :=
  ({| token_encoding := (repeat0 beam (token_encoding enc).1,
                         repeat0 beam (token_encoding enc).2);
      entity_reps := repeat0 beam (entity_reps enc);
      entity_mask := repeat0 beam (entity_mask enc);
      word_reps := repeat0 beam (word_reps enc);
      word_mask := repeat0 beam (word_mask enc) |},
   repeat0 beam entity_emb_attn, repeat0 beam word_emb_attn).

(** [seq[0][0]] and [seq[0][1]], which [torch.stack] needs to be tensors. *)
Definition first_tokens (cands : list candidate) : result (list Z) :=
  match cands with
  | [] => Raise IndexError
  | c :: _ => match cand_tokens c with
              | Some t => Ok t
              | None => Raise TypeError
              end
  end.

Definition first_logits (cands : list candidate) : result (tensor Q) :=
  match cands with
  | [] => Raise IndexError
  | c :: _ => match cand_logits c with
              | Some t => Ok t
              | None => Raise TypeError
              end
  end.

(** [_get_inputs_from_sequences]. *)
Definition _get_inputs_from_sequences (sequences : list (list candidate))
    (beam batch_size : nat) : result (list (list (list Z))) :=
  tokens ← for_each first_tokens sequences;
  stacked ← stack tokens;
  reshape3 beam batch_size (concat stacked).

(** [_compute_logits]: the summed logits, of shape (rows, 1, vocabulary). *)
Definition _compute_logits (inputs : list (list (list Z))) (enc : encodings)
    (incr_state : option St) (entity_emb_attn word_emb_attn : list vec)
    : result (list (list vec)) :=
  let dialog_latent := (conv_decoder self (concat inputs) enc incr_state).1 in
  let dialog_latent := last_position dialog_latent in
  sum_logits_of (unsqueeze1 entity_emb_attn) (unsqueeze1 word_emb_attn) dialog_latent.

(** [softmax] without [dim] on a tensor of rank 3 normalises along dim 0:
    entry [(n, j, v)] is taken from the softmax of the entries
    [(0, j, v), (1, j, v), ...]. *)
Definition softmax_dim0 (logits : list (list vec)) : list (list vec) :=
  let column (j v : nat) : vec :=
    (fun row : list vec => default 0%Q (default [] (row !! j) !! v)) <$> logits in
  imap (fun n (row : list vec) =>
          imap (fun j (x : vec) =>
                  imap (fun v (_ : Q) => default 0%Q (softmax (column j v) !! n)) x)
               row)
       logits.

(** [_get_top_k_probabilities]. *)
Definition _get_top_k_probabilities (logits : list (list vec)) (beam : nat)
    : result (list (list vec) * list (list (list Z))) :=
  ranked ← for_each (for_each (topk beam)) (softmax_dim0 logits);
  Ok ((fun row : list (vec * list Z) => fst <$> row) <$> (ranked : list (list (vec * list Z))),
      (fun row : list (vec * list Z) => snd <$> row) <$> (ranked : list (list (vec * list Z)))).

(** The truth value of the logits history of a candidate. *)
Definition history_truth (h : option (tensor Q)) : result bool :=
  match h with
  | None => Ok false
  | Some t => x ← item t; Ok (negb (Qeq_bool x 0))
  end.

(** The candidate that continues candidate [n] of example [j] with its
    [k]-th best token. *)
Definition extend_candidate (cands : list candidate) (inputs : list (list (list Z)))
    (logits probs : tensor Q) (preds : tensor Z) (j n k : nat) : result candidate :=
  old ← match cands !! n with Some c => Ok c | None => Raise IndexError end;
  input ← match inputs !! n with
           | Some m => match m !! j with Some row => Ok row | None => Raise IndexError end
           | None => Raise IndexError
           end;
  pred ← tget4 preds n j k;
  let tokens := input ++ flatten pred in
  keep ← history_truth (cand_logits old);
  step_logits ← tget3 logits n j;
  history ← (if (keep : bool)
             then tcat (default (Dim []) (cand_logits old)) (Dim [step_logits])
             else Ok (Dim [step_logits]));
  prob ← (t ← tget4 probs n j k; item t);
  Ok {| cand_tokens := Some tokens;
        cand_logits := Some history;
        cand_score := (cand_score old * prob)%Q |}.

(** [_update_sequences]. *)
Definition _update_sequences (sequences : list (list candidate))
    (inputs : list (list (list Z))) (logits probs : list (list vec))
    (preds : list (list (list Z))) (beam batch_size : nat)
    : result (list (list candidate)) :=
  for_each
    (fun j =>
       cands ← match sequences !! j with Some s => Ok s | None => Raise IndexError end;
       candidates ←
         for_each (fun nk : nat * nat =>
                     extend_candidate cands inputs (of_list3 logits) (of_list3 probs)
                       (of_list3 preds) j nk.1 nk.2)
                  (n ← seq 0 (length (cands : list candidate)); k ← seq 0 beam; [(n, k)]);
       Ok (take beam (sorted_desc cand_score candidates)))
    (seq 0 batch_size).

(** [_is_generation_finished]: the positions, over all leading slices, at
    which some row holds the end token are as many as [inputs.size(1)]. *)
Definition end_positions (m : list (list Z)) : nat :=
  length (filter (fun l => existsb (fun row : list Z =>
                                      match row !! l with
                                      | Some x => x =? end_token_idx self
                                      | None => false
                                      end) m = true)
                 (seq 0 (length (default [] (head m))))).

Definition _is_generation_finished (inputs : list (list (list Z))) : bool :=
  (sum_list (end_positions <$> inputs) =? length (default [] (head inputs)))%nat.

(** [_get_final_outputs]. *)
Definition _get_final_outputs (sequences : list (list candidate))
    : result (list (tensor Q) * list (list Z)) :=
  logits ← for_each first_logits sequences;
  logits ← match logits with [] => Raise RuntimeError | _ => Ok logits end;
  tokens ← for_each first_tokens sequences;
  inputs ← stack tokens;
  Ok (logits, inputs).

(** The loop of [decode_beam_search_with_kg] from pass [i] on, with [n]
    passes left. *)
Fixpoint beam_loop (n i : nat) (enc : encodings) (entity_emb_attn word_emb_attn : list vec)
    (beam batch_size : nat) (sequences : list (list candidate))
    (inputs : list (list (list Z))) (incr_state : option St)
    : result (list (list candidate)) :=
  match n with
  | O => Ok sequences
  | S n' =>
      let '(enc, entity_emb_attn, word_emb_attn) :=
        if (i =? 1)%nat then _repeat_inputs enc entity_emb_attn word_emb_attn beam
        else (enc, entity_emb_attn, word_emb_attn) in
      inputs ← (if negb (i =? 0)%nat
                then _get_inputs_from_sequences sequences beam batch_size
                else Ok inputs);
      logits ← _compute_logits inputs enc incr_state entity_emb_attn word_emb_attn;
      '(probs, preds) ← _get_top_k_probabilities logits beam;
      sequences ← _update_sequences sequences inputs logits probs preds beam batch_size;
      if _is_generation_finished inputs then Ok sequences
      else beam_loop n' (S i) enc entity_emb_attn word_emb_attn beam batch_size
             sequences inputs incr_state
  end.

(** [decode_beam_search_with_kg]. *)
Definition decode_beam_search_with_kg (enc : encodings)
    (entity_emb_attn word_emb_attn : list vec) (beam : nat)
    : result (list (tensor Q) * list (list Z)) :=
  let batch_size := length (token_encoding enc).1 in
  '(sequences, inputs, incr_state) ← _initialize_beam_search batch_size beam;
  sequences ←
    beam_loop (Z.to_nat (response_truncate self)) 0 enc entity_emb_attn word_emb_attn
      beam batch_size sequences inputs incr_state;
  _get_final_outputs sequences.

(** [nn.MSELoss(reduction='sum')] and [torch.sum] of a batch of rows. *)
Definition sum_all (x : list vec) : Q :=
  foldr Qplus 0%Q (concat x).

Definition infomax_loss (predict labels : list vec) : Q :=
  sum_all (zip_with (zip_with (fun p l => ((p - l) * (p - l))%Q)) predict labels).

(** The infomax prediction from the pooled word representations. *)
Definition info_predict (word_attn_rep : list vec) : list vec :=
  (fun rep => linear (infomax_norm self rep) (entity_encoder self)
                (Some (infomax_bias self)))
    <$> word_attn_rep.

(** [pretrain_infomax]. *)
Definition pretrain_infomax (words : list (list Z)) (entity_labels : list vec)
    : result (option Q) :=
  let loss_mask := sum_all entity_labels in
  if Qeq_bool loss_mask 0 then Ok None
  else
    word_representations ← index_rows (word_encoder self) words;
    let word_padding_mask := eq_mask words (pad_word_idx self) in
    let word_attn_rep := word_self_attn self word_representations word_padding_mask in
    Ok (Some (infomax_loss (info_predict word_attn_rep) entity_labels / loss_mask)%Q).

(** [recommend]: the recommendation loss, the infomax loss or [None], and
    the scores. *)
Definition recommend (context_entities context_words : list (list Z))
    (entities : list vec) (movie : list Z) (mode : string)
    : result (Q * option Q * list vec) :=
  let entity_graph_representations := entity_encoder self in
  let word_graph_representations := word_encoder self in
  let entity_padding_mask := eq_mask context_entities (pad_entity_idx self) in
  let word_padding_mask := eq_mask context_words (pad_word_idx self) in
  entity_representations ← index_rows entity_graph_representations context_entities;
  word_representations ← index_rows word_graph_representations context_words;
  let entity_attn_rep := entity_self_attn self entity_representations entity_padding_mask in
  let word_attn_rep := word_self_attn self word_representations word_padding_mask in
  let user_rep := gate_layer self entity_attn_rep word_attn_rep in
  let rec_scores :=
    (fun u => linear u entity_graph_representations (Some (rec_bias self)))
      <$> user_rep in
  let rec_loss_value := rec_loss self rec_scores movie in
  let info_loss_mask := sum_all entities in
  let info_loss :=
    if Qeq_bool info_loss_mask 0 then None
    else Some (infomax_loss (info_predict word_attn_rep) entities / info_loss_mask)%Q in
  Ok (rec_loss_value, info_loss, rec_scores).

(** What [converse] returns: the loss with the predictions, or the
    predictions alone. *)
Inductive conv_output : Type :=
| LossAndPreds (loss : Q) (preds : list (list Z))
| Preds (preds : list (list Z)).

(** The first part of [converse]: the encodings the decoder attends to and
    the pooled entity and word vectors, projected for the decoder. *)
Definition conv_encodings (context_tokens context_entities context_words : list (list Z))
    : result (encodings * list vec * list vec) :=
  let entity_graph_representations := entity_encoder self in
  let word_graph_representations := word_encoder self in
  let entity_padding_mask := eq_mask context_entities (pad_entity_idx self) in
  let word_padding_mask := eq_mask context_words (pad_word_idx self) in
  entity_representations ← index_rows entity_graph_representations context_entities;
  word_representations ← index_rows word_graph_representations context_words;
  let entity_attn_rep := entity_self_attn self entity_representations entity_padding_mask in
  let word_attn_rep := word_self_attn self word_representations word_padding_mask in
  let tokens_encoding := conv_encoder self context_tokens in
  let conv_entity_emb := conv_entity_attn_norm self <$> entity_attn_rep in
  let conv_word_emb := conv_word_attn_norm self <$> word_attn_rep in
  let conv_entity_reps :=
    (fun row : list vec => conv_entity_norm self <$> row) <$> entity_representations in
  let conv_word_reps :=
    (fun row : list vec => conv_word_norm self <$> row) <$> word_representations in
  Ok ({| token_encoding := tokens_encoding;
         entity_reps := conv_entity_reps; entity_mask := entity_padding_mask;
         word_reps := conv_word_reps; word_mask := word_padding_mask |},
      conv_entity_emb, conv_word_emb).

(** [converse]. *)
Definition converse (context_tokens context_entities context_words response : list (list Z))
    (mode : string) : result conv_output :=
  '(enc, conv_entity_emb, conv_word_emb) ←
    conv_encodings context_tokens context_entities context_words;
  if negb (String.eqb mode "test") then
    '(logits, preds) ← _decode_forced_with_kg enc conv_entity_emb conv_word_emb response;
    let loss := conv_loss self (concat logits) (concat response) in
    Ok (LossAndPreds loss preds)
  else
    '(logits, preds) ← _decode_greedy_with_kg enc conv_entity_emb conv_word_emb;
    Ok (Preds preds).

(** The batches of the three stages and what [forward] returns for them. *)
Inductive batch : Type :=
| PretrainBatch (words : list (list Z)) (entity_labels : list vec)
| RecBatch (context_entities context_words : list (list Z)) (entities : list vec)
    (movie : list Z)
| ConvBatch (context_tokens context_entities context_words response : list (list Z)).

Inductive output : Type :=
| PretrainOut (loss : option Q)
| RecOut (rec_loss_value : Q) (info_loss : option Q) (rec_scores : list vec)
| ConvOut (out : conv_output).

(** [forward]: the stage tag selects the forward mode; a batch of another
    stage does not unpack, an unknown tag leaves [loss] unbound. *)
Definition forward (b : batch) (stage mode : string) : result output :=
  if String.eqb stage "pretrain" then
    match b with
    | PretrainBatch words entity_labels =>
        loss ← pretrain_infomax words entity_labels; Ok (PretrainOut loss)
    | _ => Raise ValueError
    end
  else if String.eqb stage "rec" then
    match b with
    | RecBatch context_entities context_words entities movie =>
        '(rl, il, scores) ← recommend context_entities context_words entities movie mode;
        Ok (RecOut rl il scores)
    | _ => Raise ValueError
    end
  else if String.eqb stage "conv" then
    match b with
    | ConvBatch context_tokens context_entities context_words response =>
        out ← converse context_tokens context_entities context_words response mode;
        Ok (ConvOut out)
    | _ => Raise ValueError
    end
  else Raise NameError.

End Model.

(** *** The declared shapes of the layers *)

(** The decoder returns one latent vector per input position of every row:
    its output has shape (batch size, sequence length, dimension). *)
Definition decoder_shape {St : Type} (self : model (St:=St)) : Prop :=
  forall inputs enc incr_state,
    Forall2 (fun (input : list Z) (latent : list vec) => length latent = length input)
      inputs (conv_decoder self inputs enc incr_state).1.

(** The logits of a position range over a vocabulary that is not empty. *)
Definition has_vocabulary {St : Type} (self : model (St:=St)) : Prop :=
  forall latent, sum_logits_at self latent <> [].

(** *** A small model for the examples *)

(** Three tokens: 0 starts a response, 2 ends it. The decoder points, at
    every position, to the token after the one it reads. *)
Definition one_hot (size : nat) (i : Z) : vec :=
  (fun j => if j =? i then 1%Q else 0%Q) <$> seqZ 0 (Z.of_nat size).

Definition example_model : model (St:=unit) :=
  {| start_token_idx := 0; end_token_idx := 2; pad_token_idx := 3;
     pad_entity_idx := 0; pad_word_idx := 0;
     response_truncate := 5;
     entity_encoder := [[1%Q]; [0%Q]];
     word_encoder := [[1%Q]; [0%Q]];
     entity_self_attn := fun reps _ => (fun _ => [0%Q]) <$> reps;
     word_self_attn := fun reps _ => (fun _ => [0%Q]) <$> reps;
     gate_layer := fun e _ => e;
     rec_bias := [0%Q; 0%Q];
     rec_loss := fun _ _ => 2%Q;
     infomax_norm := fun x => x;
     infomax_bias := [0%Q; 0%Q];
     conv_encoder := fun tokens =>
       ((fun row : list Z => (fun _ => [0%Q]) <$> row) <$> tokens,
        (fun row : list Z => (fun _ => false) <$> row) <$> tokens);
     conv_entity_norm := fun x => x;
     conv_entity_attn_norm := fun x => x;
     conv_word_norm := fun x => x;
     conv_word_attn_norm := fun x => x;
     copy_norm := fun x => x;
     copy_output := fun _ => [0%Q; 0%Q; 0%Q];
     copy_mask := [false; false; false];
     token_embedding := [one_hot 3 0; one_hot 3 1; one_hot 3 2];
     conv_decoder := fun inputs _ incr_state =>
       ((fun row : list Z => (fun t => one_hot 3 ((t + 1) mod 3)) <$> row) <$> inputs,
        incr_state);
     conv_loss := fun _ _ => 1%Q |}.

(** The example model with another cap on the passes of decoding. *)
Definition with_response_truncate {St : Type} (z : Z) (m : model (St:=St))
    : model (St:=St) :=
  {| start_token_idx := start_token_idx m; end_token_idx := end_token_idx m;
     pad_token_idx := pad_token_idx m;
     pad_entity_idx := pad_entity_idx m; pad_word_idx := pad_word_idx m;
     response_truncate := z;
     entity_encoder := entity_encoder m; word_encoder := word_encoder m;
     entity_self_attn := entity_self_attn m; word_self_attn := word_self_attn m;
     gate_layer := gate_layer m; rec_bias := rec_bias m; rec_loss := rec_loss m;
     infomax_norm := infomax_norm m; infomax_bias := infomax_bias m;
     conv_encoder := conv_encoder m;
     conv_entity_norm := conv_entity_norm m;
     conv_entity_attn_norm := conv_entity_attn_norm m;
     conv_word_norm := conv_word_norm m;
     conv_word_attn_norm := conv_word_attn_norm m;
     copy_norm := copy_norm m; copy_output := copy_output m; copy_mask := copy_mask m;
     token_embedding := token_embedding m;
     conv_decoder := conv_decoder m; conv_loss := conv_loss m |}.

(** The encodings [converse] builds with this model for a batch with one
    context token, one entity and one word. *)
Definition example_encodings : encodings :=
  {| token_encoding := ([[[0%Q]]], [[false]]);
     entity_reps := [[[1%Q]]]; entity_mask := [[true]];
     word_reps := [[[1%Q]]]; word_mask := [[true]] |}.

(** *** Trainable parameters *)

(** The sub-modules of the model that own parameters. *)
Module Layer.

Inductive t : Type :=
| token_embedding
| word_kg_embedding
| entity_encoder
| entity_self_attn
| word_encoder
| word_self_attn
| gate_layer
| infomax_norm
| infomax_bias
| rec_bias
| conv_encoder
| conv_entity_norm
| conv_entity_attn_norm
| conv_word_norm
| conv_word_attn_norm
| copy_norm
| copy_output
| conv_decoder.

#[global] Instance eq_dec : EqDecision t.
Proof. solve_decision. Defined.

End Layer.

(** A parameter tensor: its value and its [requires_grad] flag. The model
    keeps its parameters by name; [parameters m] lists the names of the
    parameters of sub-module [m]. A parameter may be listed by several
    sub-modules (the decoder is built on the token embedding). *)
Record parameter : Type := {
  data : Q;
  requires_grad : bool
}.

Definition set_requires_grad (flag : bool) (p : parameter) : parameter :=
  {| data := data p; requires_grad := flag |}.

Section Parameters.

Variable parameters : Layer.t -> list string.

Definition freeze_models : list Layer.t :=
  [Layer.word_kg_embedding; Layer.entity_encoder; Layer.entity_self_attn;
   Layer.word_encoder; Layer.word_self_attn; Layer.gate_layer; Layer.infomax_bias;
   Layer.infomax_norm; Layer.rec_bias].

(** [freeze_parameters]. *)
Definition freeze_parameters (store : gmap string parameter) : gmap string parameter :=
  foldl (fun store m =>
           foldl (fun store p => alter (set_requires_grad false) p store)
                 store (parameters m))
        store freeze_models.

End Parameters.

(** *** Parameters for the examples *)

(** Every sub-module owns one weight; the decoder also lists the weight of
    the token embedding it is built on. *)
Definition example_parameters (m : Layer.t) : list string :=
  match m with
  | Layer.token_embedding => ["token_embedding.weight"%string]
  | Layer.word_kg_embedding => ["word_kg_embedding.weight"%string]
  | Layer.entity_encoder => ["entity_encoder.weight"%string]
  | Layer.entity_self_attn => ["entity_self_attn.a"%string]
  | Layer.word_encoder => ["word_encoder.weight"%string]
  | Layer.word_self_attn => ["word_self_attn.a"%string]
  | Layer.gate_layer => ["gate_layer.weight"%string]
  | Layer.infomax_norm => ["infomax_norm.weight"%string]
  | Layer.infomax_bias => ["infomax_bias.bias"%string]
  | Layer.rec_bias => ["rec_bias.bias"%string]
  | Layer.conv_encoder => ["conv_encoder.weight"%string]
  | Layer.conv_entity_norm => ["conv_entity_norm.weight"%string]
  | Layer.conv_entity_attn_norm => ["conv_entity_attn_norm.weight"%string]
  | Layer.conv_word_norm => ["conv_word_norm.weight"%string]
  | Layer.conv_word_attn_norm => ["conv_word_attn_norm.weight"%string]
  | Layer.copy_norm => ["copy_norm.weight"%string]
  | Layer.copy_output => ["copy_output.weight"%string]
  | Layer.conv_decoder => ["token_embedding.weight"%string; "conv_decoder.weight"%string]
  end.

(** A store with three of these parameters, all trainable. *)
Definition example_store : gmap string parameter :=
  {[ "token_embedding.weight"%string := {| data := 5; requires_grad := true |};
     "entity_encoder.weight"%string := {| data := 7; requires_grad := true |};
     "conv_decoder.weight"%string := {| data := 9; requires_grad := true |} ]}.

End KGSF.

(** ** The KGSF system *)

Module System.

(** What a step does to the system, in order: a gradient update on a loss,
    a call of the evaluator, an entry added to a metric. [RecEvaluate] is
    one call [self.evaluator.rec_evaluate(rec_rank, item)]; [ConvEvaluate]
    is the call of the system's [conv_evaluate] on the predictions and the
    responses of the batch. *)
Inductive event : Type :=
| Backward (loss : Q)
| RecEvaluate (rec_rank : list Z) (item : Z)
| ConvEvaluate (prediction response : list (list Z))
| OptimMetric (name : string) (value : Q)
| GenMetric (name : string) (value : Q).

(** The truth value of a loss: [None] and a zero tensor are false. *)
Definition truthy_loss (loss : option Q) : bool :=
  match loss with
  | Some x => negb (Qeq_bool x 0)
  | None => false
  end.

(** *** Evaluation of the recommendations *)

(** [l.index(x)]: the first position of [x], a [ValueError] without one. *)
Fixpoint list_index (x : Z) (l : list Z) : result Z :=
  match l with
  | [] => Raise ValueError
  | y :: rest => if y =? x then Ok 0 else i ← list_index x rest; Ok (i + 1)
  end.

(** [rec_evaluate]: the scores of the item entities are picked from every
    row, the positions of the 50 best are the ranks, and the evaluator gets
    the ranks of every example with the position of its label among the
    item entities. The result lists the calls of the evaluator.
    [rec_predict] is the batch as the list of its rows: a batch without
    rows has no width of its own, and the properties below are stated for
    batches with a row. *)
Definition rec_evaluate (item_ids : list Z) (rec_predict : list KGSF.vec)
    (item_label : list Z) : result (list (list Z * Z)) :=
  rec_predict ← for_each (fun row => for_each (KGSF.index_row row) item_ids) rec_predict;
  rec_ranks ← for_each (fun row => ranked ← KGSF.topk 50 row; Ok (ranked : _ * _).2)
                       rec_predict;
  for_each (fun '(rec_rank, item) => item ← list_index item item_ids;
                                    Ok (rec_rank, item))
           (zip (rec_ranks : list (list Z)) item_label).

Section Steps.

Context {St : Type}.
Variable model : KGSF.model (St:=St).

(** [self.item_ids], the item entities of the side data. *)
Variable item_ids : list Z.

(** [_handle_pretrain_stage]. *)
Definition _handle_pretrain_stage (b : KGSF.batch) (mode : string) (log : list event)
    : result (list event) :=
  out ← KGSF.forward model b "pretrain" mode;
  match out with
  | KGSF.PretrainOut (Some info_loss) =>
      Ok (log ++ [Backward info_loss; OptimMetric "info_loss" info_loss])
  | KGSF.PretrainOut None => Ok log
  | _ => Raise TypeError
  end.

(** The loss of a recommendation step:
    [rec_loss + (0.025 * info_loss if info_loss else 0)]. *)
Definition rec_stage_loss (rec_loss : Q) (info_loss : option Q) : Q :=
  (rec_loss + (if truthy_loss info_loss
               then (25 # 1000) * default 0 info_loss else 0))%Q.

(** [_handle_rec_stage]: the loss is updated on in mode 'train'; in every
    other mode [rec_evaluate] runs on the scores and the labels [batch[-1]]
    and makes its calls of the evaluator, or raises; the metrics are
    recorded after that. *)
Definition _handle_rec_stage (b : KGSF.batch) (mode : string) (log : list event)
    : result (list event) :=
  out ← KGSF.forward model b "rec" mode;
  match out, b with
  | KGSF.RecOut rec_loss info_loss rec_predict, KGSF.RecBatch _ _ _ movie =>
      let loss := rec_stage_loss rec_loss info_loss in
      log ← (if String.eqb mode "train" then Ok (log ++ [Backward loss])
             else calls ← rec_evaluate item_ids rec_predict movie;
                  Ok (log ++ ((fun call : list Z * Z => RecEvaluate call.1 call.2)
                                <$> calls)));
      let log := (log : list event) ++ [OptimMetric "rec_loss" rec_loss] in
      Ok (if truthy_loss info_loss
          then log ++ [OptimMetric "info_loss" (default 0%Q info_loss)] else log)
  | _, _ => Raise TypeError
  end.

(** [_handle_conv_stage]. *)
Definition _handle_conv_stage (b : KGSF.batch) (mode : string) (log : list event)
    : result (list event) :=
  out ← KGSF.forward model b "conv" mode;
  match b with
  | KGSF.ConvBatch _ _ _ response =>
      if String.eqb mode "test" then
        match out with
        | KGSF.ConvOut (KGSF.Preds pred) => Ok (log ++ [ConvEvaluate pred response])
        | KGSF.ConvOut (KGSF.LossAndPreds _ _) => Raise RuntimeError
        | _ => Raise TypeError
        end
      else
        match out with
        | KGSF.ConvOut (KGSF.LossAndPreds gen_loss pred) =>
            let log :=
              if String.eqb mode "train" then log ++ [Backward gen_loss]
              else log ++ [ConvEvaluate pred response] in
            Ok (log ++ [OptimMetric "gen_loss" gen_loss; GenMetric "ppl" gen_loss])
        | _ => Raise TypeError
        end
  | _ => Raise TypeError
  end.

(** [step]. *)
Definition step (b : KGSF.batch) (stage mode : string) (log : list event)
    : result (list event) :=
  if String.eqb stage "pretrain" then _handle_pretrain_stage b mode log
  else if String.eqb stage "rec" then _handle_rec_stage b mode log
  else if String.eqb stage "conv" then _handle_conv_stage b mode log
  else Raise ValueError.

End Steps.

(** *** The conversation phase and the parameters *)

Section Training.

Variable parameters : KGSF.Layer.t -> list string.

(** Modelled from the spec: [BaseSystem.backward] and [init_optim] are not
    among the sources. A gradient step updates the trainable parameters
    (here by the gradient [grad] of the step's loss) and leaves the
    non-trainable ones as they are. *)
Definition backward (grad : string -> Q) (store : gmap string KGSF.parameter)
    : gmap string KGSF.parameter :=
  map_imap (fun name p =>
              Some (if KGSF.requires_grad p
                    then {| KGSF.data := (KGSF.data p - grad name)%Q;
                            KGSF.requires_grad := true |}
                    else p))
           store.

(** [train_conversation], as far as the parameters go: the parameters are
    frozen, then every training step of every epoch makes its update; the
    validation and test steps update nothing. [cuda_visible_devices] is
    [os.environ["CUDA_VISIBLE_DEVICES"]], [grads] the gradients of the
    training steps in order. *)
Definition train_conversation (cuda_visible_devices : option string)
    (grads : list (string -> Q)) (store : gmap string KGSF.parameter)
    : result (gmap string KGSF.parameter) :=
  match cuda_visible_devices with
  | None => Raise KeyError
  | Some _ =>
      let store := KGSF.freeze_parameters parameters store in
      Ok (foldl (fun store grad => backward grad store) store grads)
  end.

End Training.

End System.

(** * Properties *)

(** ** The error monad *)

(** Splits a successful [x ← m; k] in hypothesis [H] into the success of
    [m] and of [k]. *)
Ltac bind_ok H x Hx :=
  match type of H with
  | (mbind _ ?m) = Ok _ =>
      destruct m as [x| |] eqn:Hx; simpl in H; try discriminate H
  end.

(** ** Recommendation augmentation *)

Section Augmentation.

Import DataLoader.

Lemma expand_record_items (d : conv_dict) (l : list value) :
  d !! "items"%string = Some (VList l) ->
  expand_record d = Ok (map (augment d) l).
Proof.
  intros H. unfold expand_record, getitem. rewrite H. reflexivity.
Qed.

Lemma augment_target (d : conv_dict) (m : value) :
  augment d m !! "item"%string = Some m.
Proof. unfold augment. apply lookup_insert_eq. Qed.

Lemma augment_frame (d : conv_dict) (m : value) (k : string) :
  k <> "item"%string -> augment d m !! k = d !! k.
Proof. intros Hk. unfold augment. apply lookup_insert_ne. congruence. Qed.

(** C6, as amended: a record listing N items yields N records, the i-th
    one with the i-th listed item as its target and every field other than
    ['item'] as in the original; the targets are pairwise distinct exactly
    when the listed items are. *)
Theorem rec_process_fn_expansion (d : conv_dict) (l : list value) :
  d !! "items"%string = Some (VList l) ->
  exists out,
    rec_process_fn [d] = Ok out /\
    length out = length l /\
    (forall i m, l !! i = Some m ->
       exists r, out !! i = Some r /\ r !! "item"%string = Some m /\
         forall k, k <> "item"%string -> r !! k = d !! k) /\
    (NoDup ((fun r : conv_dict => r !! "item"%string) <$> out) <-> NoDup l).
Proof.
  intros H. exists (map (augment d) l).
  unfold rec_process_fn. simpl. rewrite (expand_record_items d l H). simpl.
  rewrite app_nil_r. split; [reflexivity|].
  split; [apply length_fmap|]. split.
  - intros i m Hi. exists (augment d m). split.
    + rewrite list_lookup_fmap, Hi. reflexivity.
    + split; [apply augment_target | intros k Hk; apply augment_frame, Hk].
  - rewrite <- list_fmap_compose.
    rewrite (list_fmap_ext _ Some l)
      by (intros i x _; apply augment_target).
    apply (NoDup_fmap Some).
Qed.

Lemma rec_process_fn_expansion_witness :
  exists out,
    rec_process_fn [{["items"%string := VList [VInt 3; VInt 8]]}] = Ok out /\
    length out = 2%nat.
Proof.
  destruct (rec_process_fn_expansion
              {["items"%string := VList [VInt 3; VInt 8]]} [VInt 3; VInt 8])
    as (out & Hout & Hlen & _).
  - apply lookup_singleton_eq.
  - exists out. split; [exact Hout | exact Hlen].
Defined.

(** C6 as stated fails: a record that lists the same movie twice yields two
    records with the same target. *)
Lemma rec_process_fn_repeated_target :
  let d : conv_dict := {["items"%string := VList [VInt 7; VInt 7]]} in
  rec_process_fn [d] = Ok [augment d (VInt 7); augment d (VInt 7)] /\
  ~ NoDup ((fun r : conv_dict => r !! "item"%string) <$> [augment d (VInt 7); augment d (VInt 7)]).
Proof.
  intros d. split.
  - reflexivity.
  - rewrite !fmap_cons, !augment_target. intros Hnd.
    apply NoDup_cons in Hnd as [Hnotin _]. apply Hnotin. left.
Qed.

End Augmentation.

(** ** Negative sampling *)

Section NegativeSampling.

Import DataLoader.

Variable self : loader.
Variable item_set : gset Z.

Lemma randint_item (g : rng) :
  1 <= item_size self ->
  randint 1 (item_size self) g = Ok (draw self g 0, next g).
Proof.
  intros HM. unfold randint, draw.
  destruct (Z.ltb_spec (item_size self) 1) as [Hlt|_]; [lia|].
  rewrite Nat.add_0_r. reflexivity.
Qed.

Lemma draw_next (g : rng) (k : nat) : draw self (next g) k = draw self g (S k).
Proof. unfold draw, next. simpl. do 3 f_equal. lia. Qed.

Lemma draw_range (g : rng) (k : nat) :
  1 <= item_size self -> (1 <= draw self g k <= item_size self).
Proof.
  intros HM. unfold draw.
  pose proof (Z.mod_pos_bound (entropy g (consumed g + k)%nat)
                (item_size self - 1 + 1)) as Hb.
  lia.
Qed.

(** A set smaller than the item space leaves an id of [1..item_size] free. *)
Lemma free_item_exists :
  Z.of_nat (size item_set) < item_size self ->
  exists v, (1 <= v <= item_size self) /\ (v ∉ item_set).
Proof.
  intros Hsize.
  destruct (decide (Exists (fun v => v ∉ item_set) (seqZ 1 (item_size self))))
    as [Hex|Hall].
  - apply Exists_exists in Hex as (v & Hv & Hfree).
    apply elem_of_seqZ in Hv. exists v. split; [lia | exact Hfree].
  - exfalso. apply not_Exists_Forall in Hall; [|intros v; apply _].
    assert (Hsub : list_to_set (C:=gset Z) (seqZ 1 (item_size self)) ⊆ item_set).
    { intros v Hv. apply elem_of_list_to_set in Hv.
      rewrite Forall_forall in Hall. specialize (Hall v Hv). simpl in Hall.
      destruct (decide (v ∈ item_set)) as [Hin|Hout]; [exact Hin | contradiction]. }
    apply subseteq_size in Hsub.
    rewrite size_list_to_set in Hsub by apply NoDup_seqZ.
    rewrite length_seqZ in Hsub. lia.
Qed.

(** The loop returns the current item when it is free, and otherwise the
    first free one among the coming draws. *)
Lemma neg_sample_loop_returns (fuel : nat) :
  1 <= item_size self ->
  forall (item : Z) (g : rng),
    (item ∉ item_set \/ exists k, (k < fuel)%nat /\ draw self g k ∉ item_set) ->
    exists r g', neg_sample_loop fuel self item_set item g = Ok (r, g') /\
                 (r ∉ item_set) /\
                 (r = item \/ (1 <= r <= item_size self)).
Proof.
  intros HM. induction fuel as [|fuel IH]; intros item g Hfree.
  - destruct Hfree as [Hfree|(k & Hk & _)]; [|lia].
    exists item, g. simpl. rewrite bool_decide_eq_false_2 by exact Hfree.
    destruct (bool_decide (item ∈ item_set)); auto.
  - simpl. destruct (decide (item ∈ item_set)) as [Hin|Hout].
    + rewrite bool_decide_eq_true_2 by exact Hin.
      rewrite randint_item by exact HM. simpl.
      destruct Hfree as [Hfree|(k & Hk & Hdraw)]; [contradiction|].
      destruct (IH (draw self g 0) (next g)) as (r & g' & Hr & Hr1 & Hr2).
      { destruct k as [|k]; [left; exact Hdraw|].
        right. exists k. split; [lia|]. rewrite draw_next. exact Hdraw. }
      exists r, g'. split; [exact Hr|]. split; [exact Hr1|].
      right. destruct Hr2 as [->|Hr2]; [apply draw_range, HM | exact Hr2].
    + rewrite bool_decide_eq_false_2 by exact Hout.
      exists item, g. auto.
Qed.

(** Whatever the loop returns is outside the item set. *)
Lemma neg_sample_loop_sound (fuel : nat) :
  forall (item : Z) (g : rng) (r : Z) (g' : rng),
    neg_sample_loop fuel self item_set item g = Ok (r, g') -> r ∉ item_set.
Proof.
  induction fuel as [|fuel IH]; intros item g r g'; simpl.
  - destruct (decide (item ∈ item_set)) as [Hin|Hout].
    + rewrite bool_decide_eq_true_2 by exact Hin. discriminate.
    + rewrite bool_decide_eq_false_2 by exact Hout. intros [= <- _]. exact Hout.
  - destruct (decide (item ∈ item_set)) as [Hin|Hout].
    + rewrite bool_decide_eq_true_2 by exact Hin.
      destruct (randint 1 (item_size self) g) as [[i gi]|e|]; simpl; try discriminate.
      apply IH.
    + rewrite bool_decide_eq_false_2 by exact Hout. intros [= <- _]. exact Hout.
Qed.

(** Whatever the loop returns is the item it started from or a draw. *)
Lemma neg_sample_loop_range (fuel : nat) :
  forall (item : Z) (g : rng) (r : Z) (g' : rng),
    neg_sample_loop fuel self item_set item g = Ok (r, g') ->
    r = item \/ (1 <= r <= item_size self).
Proof.
  induction fuel as [|fuel IH]; intros item g r g'; simpl.
  - destruct (bool_decide (item ∈ item_set)); [discriminate|].
    intros [= <- _]. left. reflexivity.
  - destruct (bool_decide (item ∈ item_set)).
    + unfold randint. destruct (Z.ltb_spec (item_size self) 1) as [Hlt|Hge];
        simpl; [discriminate|].
      intros Hr. right. apply IH in Hr as [->|Hr]; [|exact Hr].
      pose proof (Z.mod_pos_bound (entropy g (consumed g)) (item_size self - 1 + 1)).
      lia.
    + intros [= <- _]. left. reflexivity.
Qed.

(** C7: the id [_neg_sample] returns is never in the item set, and when the
    set is smaller than the item space the loop ends after finitely many
    redraws, for every generator that produces each id of [1..item_size]
    at some point. *)
Theorem neg_sample_avoids_and_terminates (g : rng) :
  Z.of_nat (size item_set) < item_size self ->
  (forall v, 1 <= v <= item_size self -> exists k, draw self g k = v) ->
  (forall fuel item g',
     _neg_sample fuel self item_set g = Ok (item, g') -> item ∉ item_set) /\
  (exists fuel item g',
     _neg_sample fuel self item_set g = Ok (item, g') /\ (item ∉ item_set) /\
     forall fuel', (fuel <= fuel')%nat ->
       _neg_sample fuel' self item_set g = Ok (item, g')).
Proof.
  intros Hsize Hfair.
  assert (HM : 1 <= item_size self) by lia.
  split.
  - intros fuel item g'. unfold _neg_sample. rewrite randint_item by exact HM.
    simpl. apply neg_sample_loop_sound.
  - destruct (free_item_exists Hsize) as (v & Hv & Hfree).
    destruct (Hfair v Hv) as (k & Hk).
    assert (Hloop : forall fuel, (k <= fuel)%nat -> exists r g',
      neg_sample_loop fuel self item_set (draw self g 0) (next g) = Ok (r, g') /\
      (r ∉ item_set)).
    { intros fuel Hfuel.
      destruct (neg_sample_loop_returns fuel HM (draw self g 0) (next g))
        as (r & g' & Hr & Hr1 & _).
      - destruct k as [|k]; [left; rewrite Hk; exact Hfree|].
        right. exists k. split; [lia|]. rewrite draw_next, Hk. exact Hfree.
      - exists r, g'. auto. }
    assert (Hmono : forall fuel item g0 r g',
      neg_sample_loop fuel self item_set item g0 = Ok (r, g') ->
      neg_sample_loop (S fuel) self item_set item g0 = Ok (r, g')).
    { induction fuel as [|fuel IH]; intros item g0 r g'; simpl.
      - destruct (bool_decide (item ∈ item_set)); [discriminate | auto].
      - destruct (bool_decide (item ∈ item_set)); [|auto].
        destruct (randint 1 (item_size self) g0) as [[i gi]|e|]; simpl;
          try discriminate.
        intros Hr. apply IH in Hr. exact Hr. }
    destruct (Hloop k (Nat.le_refl k)) as (r & g' & Hr & Hr1).
    exists k, r, g'. unfold _neg_sample. rewrite randint_item by exact HM. simpl.
    split; [exact Hr|]. split; [exact Hr1|].
    intros fuel' Hle. induction Hle as [|m Hle IHle]; [exact Hr|].
    apply Hmono. exact IHle.
Qed.

End NegativeSampling.

Lemma neg_sample_avoids_and_terminates_witness :
  exists fuel item g',
    DataLoader._neg_sample fuel DataLoader.example_loader {[1]} DataLoader.counting_rng
      = Ok (item, g') /\ (item ∉ ({[1]} : gset Z)).
Proof.
  destruct (neg_sample_avoids_and_terminates DataLoader.example_loader {[1]}
              DataLoader.counting_rng) as [_ (fuel & item & g' & Hr & Hfree & _)].
  - vm_compute. reflexivity.
  - intros v Hv. change (DataLoader.item_size DataLoader.example_loader) with 3 in Hv.
    assert (Hcases : v = 1 \/ v = 2 \/ v = 3) by lia.
    destruct Hcases as [->|[->| ->]];
      [exists 0%nat | exists 1%nat | exists 2%nat]; reflexivity.
  - exists fuel, item, g'. split; [exact Hr | exact Hfree].
Defined.

Lemma neg_sample_loop_stalls (fuel : nat) :
  forall g : rng,
    (forall k, (k < fuel)%nat -> entropy g (consumed g + k)%nat = 0) ->
    DataLoader.neg_sample_loop fuel DataLoader.example_loader {[1]} 1 g = OutOfFuel.
Proof.
  induction fuel as [|fuel IH]; intros g Hzero; [reflexivity|].
  simpl. rewrite bool_decide_eq_true_2 by (apply elem_of_singleton; reflexivity).
  unfold randint. simpl.
  assert (H0 : entropy g (consumed g) = 0)
    by (rewrite <- (Hzero 0%nat) by lia; f_equal; lia).
  rewrite H0. change (1 + 0 mod (3 - 1 + 1)) with 1.
  apply IH. intros k Hk. simpl.
  rewrite <- (Hzero (S k)) by lia. f_equal. lia.
Qed.

(** The loop has no bound of its own: for every number of redraws there
    is a generator, producing every id at some point, that needs more. *)
Lemma neg_sample_no_fixed_bound (n : nat) :
  (forall v, 1 <= v <= 3 ->
     exists k, DataLoader.draw DataLoader.example_loader
                 (DataLoader.stalling_rng (S n)) k = v) /\
  DataLoader._neg_sample n DataLoader.example_loader {[1]}
    (DataLoader.stalling_rng (S n)) = OutOfFuel.
Proof.
  split.
  - intros v Hv. exists (S n + Z.to_nat (v - 1))%nat.
    unfold DataLoader.draw, DataLoader.stalling_rng. simpl.
    destruct (Nat.ltb_spec (S (n + Z.to_nat (v - 1))) (S n)) as [Hlt|_]; [lia|].
    replace (Z.of_nat (n + Z.to_nat (v - 1) - n)) with (v - 1) by lia.
    rewrite Z.mod_small by lia. lia.
  - unfold DataLoader._neg_sample, randint. simpl.
    apply neg_sample_loop_stalls. intros k Hk. simpl.
    destruct (Nat.ltb_spec (S k) (S n)) as [_|Hge]; [reflexivity | lia].
Qed.

(** ** Padding *)

Section Padding.

Import DataLoader.

Lemma for_each_Forall2 {A B : Type} (f : A -> result B) (xs : list A) (ys : list B) :
  for_each f xs = Ok ys -> Forall2 (fun x y => f x = Ok y) xs ys.
Proof.
  revert ys. induction xs as [|x xs IH]; intros ys; simpl.
  - intros [= <-]. constructor.
  - destruct (f x) as [y|e|] eqn:Ex; simpl; try discriminate.
    destruct (for_each f xs) as [ys'|e|]; simpl; try discriminate.
    intros [= <-]. constructor; [exact Ex | apply IH; reflexivity].
Qed.

Lemma pad_row_ok (pad_idx : Z) (pad_tail : bool) (t : nat) (item row : list Z) :
  pad_row pad_idx pad_tail t item = Ok row -> padded pad_idx pad_tail t item row.
Proof.
  unfold pad_row, padded.
  destruct (Nat.ltb_spec t (length item)) as [Hlt|Hge]; [discriminate|].
  destruct pad_tail; intros [= <-]; split; auto.
Qed.

Lemma padded_length (pad_idx : Z) (pad_tail : bool) (t : nat) (item row : list Z) :
  padded pad_idx pad_tail t item row -> length row = t.
Proof.
  intros [Hle ->]. destruct pad_tail; rewrite length_app, length_replicate; lia.
Qed.

Lemma padded_elem (pad_idx : Z) (pad_tail : bool) (t : nat) (item row : list Z) (x : Z) :
  padded pad_idx pad_tail t item row -> x ∈ row -> x ∈ item \/ x = pad_idx.
Proof.
  intros [_ ->] Hx.
  destruct pad_tail; apply elem_of_app in Hx as [Hx|Hx]; auto;
    right; apply elem_of_replicate_inv in Hx; exact Hx.
Qed.

Lemma padded_tensor_ok (items : list (list Z)) (pad_idx : Z) (pad_tail : bool)
    (max_len : option Z) (rows : list (list Z)) :
  padded_tensor items pad_idx pad_tail max_len = Ok rows ->
  Forall2 (padded pad_idx pad_tail (tensor_width items max_len)) items rows.
Proof.
  unfold padded_tensor. destruct items as [|i0 items]; [discriminate|].
  intros H. apply for_each_Forall2 in H.
  eapply Forall2_impl; [exact H|]. intros item row. apply pad_row_ok.
Qed.

Lemma padded_tensor_width (items : list (list Z)) (pad_idx : Z) (pad_tail : bool)
    (max_len : option Z) (rows : list (list Z)) :
  padded_tensor items pad_idx pad_tail max_len = Ok rows ->
  Forall (fun row => length row = tensor_width items max_len) rows.
Proof.
  intros H. apply padded_tensor_ok in H.
  generalize dependent (tensor_width items max_len). intros w H.
  induction H as [|item row its rws Hp _ IH]; constructor; [|exact IH].
  eapply padded_length, Hp.
Qed.

Lemma padded_tensor_elem (items : list (list Z)) (pad_idx : Z) (pad_tail : bool)
    (max_len : option Z) (rows : list (list Z)) (row : list Z) (x : Z) :
  padded_tensor items pad_idx pad_tail max_len = Ok rows ->
  row ∈ rows -> x ∈ row ->
  x = pad_idx \/ exists item, item ∈ items /\ x ∈ item.
Proof.
  intros H. apply padded_tensor_ok in H.
  generalize dependent (tensor_width items max_len). intros w H.
  induction H as [|item r its rws Hp _ IH]; intros Hrow Hx.
  - apply elem_of_nil in Hrow. contradiction.
  - apply elem_of_cons in Hrow as [->|Hrow].
    + destruct (padded_elem _ _ _ _ _ x Hp Hx) as [Hi| ->]; [|left; reflexivity].
      right. exists item. split; [left | exact Hi].
    + destruct (IH Hrow Hx) as [->|(it & Hit & Hxit)]; [left; reflexivity|].
      right. exists it. split; [right; exact Hit | exact Hxit].
Qed.

Lemma tensor_width_some (items : list (list Z)) (m : Z) :
  1 <= m -> Z.of_nat (tensor_width items (Some m)) = m.
Proof. intros Hm. unfold tensor_width. lia. Qed.

Lemma truncate_elem {A : Type} (vec : list A) (max_length : option Z) (tail : bool) (x : A) :
  x ∈ truncate vec max_length tail -> x ∈ vec.
Proof.
  unfold truncate. destruct max_length as [m|]; [|auto].
  destruct (len vec <=? m); [auto|].
  destruct (m =? 0); [intros H; apply elem_of_nil in H; contradiction|].
  destruct tail; unfold slice_to, slice_from; intros H.
  - apply elem_of_take in H as (i & Hi & _). eapply list_elem_of_lookup_2, Hi.
  - apply list_elem_of_lookup in H as (i & Hi). rewrite lookup_drop in Hi.
    eapply list_elem_of_lookup_2, Hi.
Qed.

End Padding.

(** ** The fields of a batch *)

Section BatchFields.

Import DataLoader.

Lemma padded_tensor_all_width (items : list (list Z)) (pad_idx : Z) (pad_tail : bool)
    (max_len : option Z) (rows : list (list Z)) :
  padded_tensor items pad_idx pad_tail max_len = Ok rows ->
  all_width (Z.of_nat (tensor_width items max_len)) rows.
Proof.
  intros H. apply padded_tensor_width in H. unfold all_width, len.
  eapply Forall_impl; [exact H|]. intros row ->. reflexivity.
Qed.

Lemma cat_cols_all_width (a b rows : list (list Z)) (n m : Z) :
  cat_cols a b = Ok rows -> all_width n a -> all_width m b -> all_width (n + m) rows.
Proof.
  unfold cat_cols, all_width, len.
  destruct (length a =? length b)%nat; [|discriminate].
  intros [= <-] Ha. revert b. induction Ha as [|x a Hx Ha IH]; intros b Hb.
  - constructor.
  - destruct Hb as [|y b Hy Hb]; simpl; constructor.
    + rewrite length_app. lia.
    + apply IH, Hb.
Qed.

Lemma all_width_fmap (w : Z) (f : Z -> Z) (rows : list (list Z)) :
  all_width w rows -> all_width w ((fun row : list Z => f <$> row) <$> rows).
Proof.
  unfold all_width, len. intros H. apply Forall_fmap.
  eapply Forall_impl; [exact H|]. intros row Hrow. simpl.
  rewrite length_fmap. exact Hrow.
Qed.

Lemma truncate_length {A : Type} (vec : list A) (m : Z) (tail : bool) :
  0 <= m -> len (truncate vec (Some m) tail) <= m.
Proof.
  intros Hm. unfold truncate.
  destruct (Z.leb_spec (len vec) m) as [Hle|Hgt]; [exact Hle|].
  destruct (Z.eqb_spec m 0) as [->|Hne]; [unfold len; simpl; lia|].
  unfold len in *.
  destruct tail; unfold slice_to, slice_from, slice_bound, len.
  - destruct (Z.ltb_spec m 0) as [Hneg|_]; [lia|]. rewrite length_take. lia.
  - destruct (Z.ltb_spec (- m) 0) as [_|Hpos]; [|lia]. rewrite length_drop. lia.
Qed.

Lemma tensor_width_bound (items : list (list Z)) (e : Z) :
  1 <= e -> Forall (fun item => len item <= e) items ->
  1 <= Z.of_nat (tensor_width items None) <= e.
Proof.
  intros He Hall. unfold tensor_width. split; [lia|].
  assert (Hmax : Z.of_nat (max_list (length <$> items)) <= e).
  { induction Hall as [|item items Hitem _ IH]; [simpl; lia|].
    rewrite fmap_cons. change (max_list (length item :: (length <$> items)))
      with (Nat.max (length item) (max_list (length <$> items))).
    unfold len in Hitem. lia. }
  lia.
Qed.

(** C8, as amended: in a batch the builder returns, the context, the
    enhanced context and the response have the configured context and
    response lengths, their concatenations the sum, and the item fields of
    a recommendation batch the configured item length; the entity and word
    fields are padded without a maximum, to the longest row of the batch
    (at least 1), which [conv_batchify] keeps within [entity_truncate]
    and [word_truncate]; every row is its content, unchanged and flush to
    its side, and the pad id elsewhere. *)
Theorem batch_fields_padded (self : loader) (c r it : Z) :
  context_truncate self = Some c -> response_truncate self = Some r ->
  item_truncate self = Some it -> 1 <= c -> 1 <= r -> 1 <= it ->
  (forall ctx resp enh ents words b,
     _finalize_batch self ctx resp enh ents words = Ok b ->
     all_width c (cb_context_tokens b) /\
     all_width c (cb_enhanced_context_tokens b) /\
     all_width r (cb_response b) /\
     all_width (c + r) (cb_input_ids b) /\
     all_width (c + r) (cb_enhanced_input_ids b) /\
     all_width (Z.of_nat (tensor_width ents None)) (cb_context_entities b) /\
     all_width (Z.of_nat (tensor_width words None)) (cb_context_words b) /\
     Forall2 (padded (pad_token_idx self) false (Z.to_nat c)) ctx (cb_context_tokens b) /\
     Forall2 (padded (pad_token_idx self) false (Z.to_nat c)) enh
       (cb_enhanced_context_tokens b) /\
     Forall2 (padded (pad_token_idx self) true (Z.to_nat r)) resp (cb_response b) /\
     Forall2 (padded (pad_entity_idx self) false (tensor_width ents None)) ents
       (cb_context_entities b) /\
     Forall2 (padded (pad_word_idx self) false (tensor_width words None)) words
       (cb_context_words b) /\
     cb_input_ids b = zip_with app (cb_context_tokens b) (cb_response b) /\
     cb_enhanced_input_ids b =
       zip_with app (cb_enhanced_context_tokens b) (cb_response b)) /\
  (forall rows rb,
     rec_pad self rows = Ok rb ->
     all_width c (rb_context rb) /\ all_width c (rb_mask rb) /\
     all_width it (rb_input_ids rb) /\ all_width it (rb_target_pos rb) /\
     all_width it (rb_input_mask rb) /\ all_width it (rb_sample_negs rb) /\
     Forall2 (padded (pad_token_idx self) true (Z.to_nat c))
       (rr_context <$> rows) (rb_context rb) /\
     Forall2 (padded (pad_token_idx self) false (Z.to_nat it))
       ((fun row => h_input_ids (rr_history row)) <$> rows) (rb_input_ids rb) /\
     Forall2 (padded (pad_token_idx self) false (Z.to_nat it))
       ((fun row => default [] (h_target_pos (rr_history row))) <$> rows)
       (rb_target_pos rb) /\
     Forall2 (padded (pad_token_idx self) false (Z.to_nat it))
       ((fun row => h_input_mask (rr_history row)) <$> rows) (rb_input_mask rb) /\
     Forall2 (padded (pad_token_idx self) false (Z.to_nat it))
       ((fun row => h_sample_negs (rr_history row)) <$> rows) (rb_sample_negs rb) /\
     Forall2 (Forall2 (fun x m => (x = pad_token_idx self -> m = 0) /\
                                  (x <> pad_token_idx self -> m = 1)))
       (rb_context rb) (rb_mask rb) /\
     rb_movie_id rb = rr_movie_id <$> rows) /\
  (forall batch b e w,
     entity_truncate self = Some e -> word_truncate self = Some w ->
     1 <= e -> 1 <= w ->
     conv_batchify self batch = Ok b ->
     exists we ww, 1 <= we <= e /\ 1 <= ww <= w /\
       all_width we (cb_context_entities b) /\ all_width ww (cb_context_words b)) /\
  (forall batch b,
     conv_batchify self batch = Ok b ->
     exists rows,
       Forall2 (fun d row => conv_row_of self d = Ok row) batch rows /\
       _finalize_batch self
         (cr_context_tokens <$> rows) (cr_response <$> rows)
         (cr_enhanced_context_tokens <$> rows)
         (cr_context_entities <$> rows) (cr_context_words <$> rows) = Ok b) /\
  (forall fuel batch g rb g',
     rec_batchify fuel self batch g = Ok (rb, g') ->
     exists rows,
       rec_rows fuel self batch g = Ok (rows, g') /\ rec_pad self rows = Ok rb).
Proof.
  intros Hc Hr Hit Hc1 Hr1 Hit1.
  assert (Hwc : forall items, Z.of_nat (tensor_width items (Some c)) = c)
    by (intros; apply tensor_width_some, Hc1).
  assert (Hwr : forall items, Z.of_nat (tensor_width items (Some r)) = r)
    by (intros; apply tensor_width_some, Hr1).
  assert (Hwit : forall items, Z.of_nat (tensor_width items (Some it)) = it)
    by (intros; apply tensor_width_some, Hit1).
  assert (Htc : forall items, tensor_width items (Some c) = Z.to_nat c)
    by (intros; unfold tensor_width; lia).
  assert (Htr : forall items, tensor_width items (Some r) = Z.to_nat r)
    by (intros; unfold tensor_width; lia).
  assert (Hti : forall items, tensor_width items (Some it) = Z.to_nat it)
    by (intros; unfold tensor_width; lia).
  assert (Hcat : forall a b rows : list (list Z),
            cat_cols a b = Ok rows -> rows = zip_with app a b).
  { intros a b rows H. unfold cat_cols in H.
    destruct (length a =? length b)%nat; [|discriminate H].
    injection H as <-. reflexivity. }
  assert (Hfin : forall ctx resp enh ents words b,
     _finalize_batch self ctx resp enh ents words = Ok b ->
     all_width c (cb_context_tokens b) /\
     all_width c (cb_enhanced_context_tokens b) /\
     all_width r (cb_response b) /\
     all_width (c + r) (cb_input_ids b) /\
     all_width (c + r) (cb_enhanced_input_ids b) /\
     all_width (Z.of_nat (tensor_width ents None)) (cb_context_entities b) /\
     all_width (Z.of_nat (tensor_width words None)) (cb_context_words b) /\
     Forall2 (padded (pad_token_idx self) false (Z.to_nat c)) ctx (cb_context_tokens b) /\
     Forall2 (padded (pad_token_idx self) false (Z.to_nat c)) enh
       (cb_enhanced_context_tokens b) /\
     Forall2 (padded (pad_token_idx self) true (Z.to_nat r)) resp (cb_response b) /\
     Forall2 (padded (pad_entity_idx self) false (tensor_width ents None)) ents
       (cb_context_entities b) /\
     Forall2 (padded (pad_word_idx self) false (tensor_width words None)) words
       (cb_context_words b) /\
     cb_input_ids b = zip_with app (cb_context_tokens b) (cb_response b) /\
     cb_enhanced_input_ids b =
       zip_with app (cb_enhanced_context_tokens b) (cb_response b)).
  { intros ctx resp enh ents words b H. unfold _finalize_batch in H.
    rewrite Hc, Hr in H.
    bind_ok H tctx Ectx. bind_ok H tresp Eresp. bind_ok H tin Ein.
    bind_ok H tenh Eenh. bind_ok H tein Eein. bind_ok H tents Eents.
    bind_ok H twords Ewords. injection H as <-. simpl.
    pose proof (padded_tensor_all_width _ _ _ _ _ Ectx) as Wctx.
    pose proof (padded_tensor_all_width _ _ _ _ _ Eresp) as Wresp.
    pose proof (padded_tensor_all_width _ _ _ _ _ Eenh) as Wenh.
    rewrite Hwc in Wctx, Wenh. rewrite Hwr in Wresp.
    pose proof (padded_tensor_ok _ _ _ _ _ Ectx) as Pctx. rewrite Htc in Pctx.
    pose proof (padded_tensor_ok _ _ _ _ _ Eenh) as Penh. rewrite Htc in Penh.
    pose proof (padded_tensor_ok _ _ _ _ _ Eresp) as Presp. rewrite Htr in Presp.
    split; [exact Wctx|]. split; [exact Wenh|]. split; [exact Wresp|].
    split; [eapply cat_cols_all_width; eassumption|].
    split; [eapply cat_cols_all_width; eassumption|].
    split; [eapply padded_tensor_all_width, Eents|].
    split; [eapply padded_tensor_all_width, Ewords|].
    split; [exact Pctx|]. split; [exact Penh|]. split; [exact Presp|].
    split; [eapply padded_tensor_ok, Eents|].
    split; [eapply padded_tensor_ok, Ewords|].
    split; [exact (Hcat _ _ _ Ein) | exact (Hcat _ _ _ Eein)]. }
  split; [exact Hfin|]. split; [|split; [|split]].
  - intros rows rb H. unfold rec_pad in H. rewrite Hc, Hit in H.
    bind_ok H tctx Ectx. bind_ok H tin Ein. bind_ok H ttp Etp.
    bind_ok H tim Eim. bind_ok H tsn Esn. injection H as <-. simpl.
    pose proof (padded_tensor_all_width _ _ _ _ _ Ectx) as Wctx.
    pose proof (padded_tensor_all_width _ _ _ _ _ Ein) as Win.
    pose proof (padded_tensor_all_width _ _ _ _ _ Etp) as Wtp.
    pose proof (padded_tensor_all_width _ _ _ _ _ Eim) as Wim.
    pose proof (padded_tensor_all_width _ _ _ _ _ Esn) as Wsn.
    rewrite Hwc in Wctx. rewrite Hwit in Win, Wtp, Wim, Wsn.
    pose proof (padded_tensor_ok _ _ _ _ _ Ectx) as Pctx. rewrite Htc in Pctx.
    pose proof (padded_tensor_ok _ _ _ _ _ Ein) as Pin. rewrite Hti in Pin.
    pose proof (padded_tensor_ok _ _ _ _ _ Etp) as Ptp. rewrite Hti in Ptp.
    pose proof (padded_tensor_ok _ _ _ _ _ Eim) as Pim. rewrite Hti in Pim.
    pose proof (padded_tensor_ok _ _ _ _ _ Esn) as Psn. rewrite Hti in Psn.
    split; [exact Wctx|]. split; [apply all_width_fmap, Wctx|].
    split; [exact Win|]. split; [exact Wtp|]. split; [exact Wim|].
    split; [exact Wsn|].
    split; [exact Pctx|]. split; [exact Pin|]. split; [exact Ptp|].
    split; [exact Pim|]. split; [exact Psn|]. split; [|reflexivity].
    apply Forall2_fmap_r. apply Forall_Forall2_diag.
    apply Forall_forall. intros row _. simpl.
    apply Forall2_fmap_r. apply Forall_Forall2_diag.
    apply Forall_forall. intros x _. simpl.
    destruct (Z.eqb_spec x (pad_token_idx self)); split; intros; congruence.
  - intros batch b e w He Hw He1 Hw1 H. unfold conv_batchify in H.
    bind_ok H rows Erows.
    apply Hfin in H as (_ & _ & _ & _ & _ & We & Ww & _).
    apply for_each_Forall2 in Erows.
    assert (Hrows : Forall (fun row => len (cr_context_entities row) <= e /\
                                      len (cr_context_words row) <= w) rows).
    { clear We Ww. induction Erows as [|d row ds rws Hrow _ IH]; constructor; [|exact IH].
      unfold conv_row_of in Hrow.
      bind_ok Hrow x1 E1. bind_ok Hrow x2 E2. bind_ok Hrow x3 E3.
      bind_ok Hrow x4 E4. bind_ok Hrow x5 E5. bind_ok Hrow x6 E6.
      injection Hrow as <-. simpl. rewrite He, Hw.
      split; apply truncate_length; lia. }
    eexists _, _. split; [|split; [|split; [exact We | exact Ww]]].
    + apply tensor_width_bound; [exact He1|].
      apply Forall_fmap. eapply Forall_impl; [exact Hrows|]. intros row [H1 _]. exact H1.
    + apply tensor_width_bound; [exact Hw1|].
      apply Forall_fmap. eapply Forall_impl; [exact Hrows|]. intros row [_ H2]. exact H2.
  - intros batch b H. unfold conv_batchify in H. bind_ok H rows Erows.
    exists rows. split; [apply for_each_Forall2, Erows | exact H].
  - intros fuel batch g rb g' H. unfold rec_batchify in H.
    bind_ok H rg Erows. destruct rg as [rows g1]. simpl in H.
    bind_ok H b Epad. injection H as <- <-.
    exists rows. split; [reflexivity | exact Epad].
Qed.

End BatchFields.

Lemma batch_fields_padded_witness :
  (exists b, DataLoader.conv_batchify DataLoader.example_loader [DataLoader.example_record]
               = Ok b /\
     DataLoader.all_width 4 (DataLoader.cb_context_tokens b) /\
     exists we, 1 <= we <= 3 /\ DataLoader.all_width we (DataLoader.cb_context_entities b)) /\
  (exists rb g',
     DataLoader.rec_batchify 5 DataLoader.example_loader [DataLoader.example_rec_record]
       DataLoader.counting_rng = Ok (rb, g') /\
     DataLoader.rb_context rb = [[1; 2; 6; 2]] /\
     DataLoader.rb_input_ids rb = [[1; 2]] /\
     DataLoader.all_width 2 (DataLoader.rb_target_pos rb) /\
     Forall2 (DataLoader.padded 0 false 2) [[3; 3]] (DataLoader.rb_sample_negs rb)).
Proof.
  destruct (batch_fields_padded DataLoader.example_loader 4 4 2)
    as (Hfin & Hpad & Hconv & _ & Hrec); try reflexivity; try lia.
  split.
  - destruct (DataLoader.conv_batchify DataLoader.example_loader
                [DataLoader.example_record]) as [b| |] eqn:Hb; try discriminate Hb.
    exists b. split; [reflexivity|].
    destruct (Hconv [DataLoader.example_record] b 3 3) as (we & ww & Hwe & _ & Wwe & _);
      try reflexivity; try lia; try exact Hb.
    split.
    + unfold DataLoader.conv_batchify in Hb.
      destruct (for_each _ _) as [rows| |]; simpl in Hb; try discriminate Hb.
      apply Hfin in Hb. apply Hb.
    + exists we. split; [exact Hwe | exact Wwe].
  - eexists _, _. split; [vm_compute; reflexivity|].
    edestruct (Hrec 5%nat [DataLoader.example_rec_record] DataLoader.counting_rng)
      as (rows & Hrows & Hrb); [vm_compute; reflexivity|].
    apply Hpad in Hrb as (_ & _ & _ & Wtp & _ & _ & _ & _ & _ & _ & Psn & _).
    assert (Hr : Ok (rows, next (next (next (next (next (next DataLoader.counting_rng))))))
                 = DataLoader.rec_rows 5 DataLoader.example_loader
                     [DataLoader.example_rec_record] DataLoader.counting_rng)
      by (symmetry; exact Hrows).
    vm_compute in Hr. injection Hr as ->.
    split; [reflexivity|]. split; [reflexivity|]. split; [exact Wtp | exact Psn].
Defined.

(** C8 as stated fails: with [entity_truncate = 3] and [word_truncate = 3]
    the entity and word fields of this batch have length 1. *)
Lemma entity_field_not_truncation_length :
  exists b, DataLoader.conv_batchify DataLoader.example_loader [DataLoader.example_record]
              = Ok b /\
    DataLoader.entity_truncate DataLoader.example_loader = Some 3 /\
    DataLoader.cb_context_entities b = [[2]] /\
    DataLoader.cb_context_words b = [[1]] /\
    DataLoader.cb_context_tokens b = [[0; 0; 5; 6]] /\
    DataLoader.cb_response b = [[1; 7; 2; 0]] /\
    ~ DataLoader.all_width 3 (DataLoader.cb_context_entities b).
Proof.
  eexists. split; [vm_compute; reflexivity|]. simpl.
  repeat split. intros H. apply Forall_cons in H as [H _]. discriminate H.
Qed.

(** ** The ids of a batch *)

Section BatchIds.

Import DataLoader.

Variable self : loader.

Lemma neg_sample_range (fuel : nat) (item_set : gset Z) (g g' : rng) (item : Z) :
  _neg_sample fuel self item_set g = Ok (item, g') ->
  1 <= item <= item_size self.
Proof.
  unfold _neg_sample, randint.
  destruct (Z.ltb_spec (item_size self) 1) as [Hlt|Hge]; simpl; [discriminate|].
  intros H. apply neg_sample_loop_range in H.
  pose proof (Z.mod_pos_bound (entropy g (consumed g)) (item_size self - 1 + 1)).
  lia.
Qed.

Lemma sample_negs_loop_range (fuel : nat) (seq_set : gset Z) (input_ids : list Z) :
  forall (g g' : rng) (negs : list Z),
    sample_negs_loop fuel self seq_set input_ids g = Ok (negs, g') ->
    Forall (fun x => 1 <= x <= item_size self) negs.
Proof.
  induction input_ids as [|i rest IH]; intros g g' negs; simpl.
  - intros [= <- _]. constructor.
  - destruct (_neg_sample fuel self seq_set g) as [[neg g1]| |] eqn:E1; simpl;
      try discriminate.
    destruct (sample_negs_loop fuel self seq_set rest g1) as [[ns g2]| |] eqn:E2;
      simpl; try discriminate.
    intros [= <- _]. constructor.
    + eapply neg_sample_range, E1.
    + eapply IH, E2.
Qed.

Lemma rec_rows_negs_range (fuel : nat) (batch : list conv_dict) :
  forall (g g' : rng) (rows : list rec_row),
    rec_rows fuel self batch g = Ok (rows, g') ->
    Forall (fun r => Forall (fun x => 1 <= x <= item_size self)
                       (h_sample_negs (rr_history r))) rows.
Proof.
  induction batch as [|d rest IH]; intros g g' rows; simpl.
  - intros [= <- _]. constructor.
  - intros H. bind_ok H ctx0 Ec. bind_ok H item_id Ei.
    bind_ok H context_items Eci. bind_ok H hg Eh. destruct hg as [h g1].
    bind_ok H rg Er. destruct rg as [rws g2].
    injection H as <- _. constructor; [|eapply IH, Er]. simpl.
    unfold _process_history in Eh. bind_ok Eh sg Es. destruct sg as [sn g3].
    injection Eh as <- _. simpl. eapply sample_negs_loop_range, Es.
Qed.

Lemma conv_row_entities (d : conv_dict) (row : conv_row) :
  conv_row_of self d = Ok row ->
  exists entities words,
    (v ← getitem d "context_entities"%string; as_ints v) = Ok entities /\
    (v ← getitem d "context_words"%string; as_ints v) = Ok words /\
    cr_context_entities row = truncate entities (entity_truncate self) false /\
    cr_context_words row = truncate words (word_truncate self) false.
Proof.
  unfold conv_row_of. intros H.
  bind_ok H x1 E1. bind_ok H x2 E2. bind_ok H x3 E3. bind_ok H x4 E4.
  bind_ok H x5 E5. bind_ok H x6 E6.
  injection H as <-. exists x4, x5. simpl. auto.
Qed.

(** C9, as amended: an id produced by negative sampling lies in
    [1..n_entity], both ends included, and so do the non-pad entries of the
    negative-sample field of a recommendation batch; an entity or word id of
    a conversation batch is an id of one of its records or the pad id, hence
    below the node count whenever the records' ids and the pad id are. *)
Theorem batch_ids_bounded :
  (forall fuel item_set g item g',
     _neg_sample fuel self item_set g = Ok (item, g') ->
     1 <= item <= n_entity self) /\
  (forall fuel batch g rb g' row x,
     rec_batchify fuel self batch g = Ok (rb, g') ->
     row ∈ rb_sample_negs rb -> x ∈ row ->
     x = pad_token_idx self \/ 1 <= x <= n_entity self) /\
  (forall batch b n_word,
     conv_batchify self batch = Ok b ->
     (forall d ids x, d ∈ batch ->
        (v ← getitem d "context_entities"%string; as_ints v) = Ok ids ->
        x ∈ ids -> x < n_entity self) ->
     (forall d ids x, d ∈ batch ->
        (v ← getitem d "context_words"%string; as_ints v) = Ok ids ->
        x ∈ ids -> x < n_word) ->
     pad_entity_idx self < n_entity self -> pad_word_idx self < n_word ->
     (forall row x, row ∈ cb_context_entities b -> x ∈ row -> x < n_entity self) /\
     (forall row x, row ∈ cb_context_words b -> x ∈ row -> x < n_word)).
Proof.
  split; [|split].
  - intros fuel item_set g item g' H. eapply neg_sample_range, H.
  - intros fuel batch g rb g' row x H Hrow Hx. unfold rec_batchify in H.
    bind_ok H rg Er. destruct rg as [rows g1]. bind_ok H b Ep.
    injection H as <- _. unfold rec_pad in Ep.
    bind_ok Ep t1 E1. bind_ok Ep t2 E2. bind_ok Ep t3 E3. bind_ok Ep t4 E4.
    bind_ok Ep t5 E5.
    injection Ep as <-. simpl in Hrow.
    destruct (padded_tensor_elem _ _ _ _ _ row x E5 Hrow Hx) as [->|(item & Hitem & Hxi)];
      [left; reflexivity|].
    right. apply list_elem_of_fmap in Hitem as (r & -> & Hr).
    apply rec_rows_negs_range in Er. rewrite Forall_forall in Er.
    specialize (Er r Hr). rewrite Forall_forall in Er. apply Er, Hxi.
  - intros batch b n_word H Hents Hwords Hpe Hpw. unfold conv_batchify in H.
    bind_ok H rows Erows.
    apply for_each_Forall2 in Erows.
    unfold _finalize_batch in H.
    bind_ok H t1 E1. bind_ok H t2 E2. bind_ok H t3 E3. bind_ok H t4 E4.
    bind_ok H t5 E5. bind_ok H t6 E6. bind_ok H t7 E7.
    injection H as <-. simpl.
    split; intros row x Hrow Hx.
    + destruct (padded_tensor_elem _ _ _ _ _ row x E6 Hrow Hx)
        as [->|(item & Hitem & Hxi)]; [exact Hpe|].
      apply list_elem_of_fmap in Hitem as (r & -> & Hr).
      apply list_elem_of_lookup in Hr as (i & Hi).
      destruct (Forall2_lookup_r _ _ _ _ _ Erows Hi) as (d & Hd & Hrow_of).
      apply conv_row_entities in Hrow_of as (ents & wds & He & _ & Hce & _).
      rewrite Hce in Hxi. apply truncate_elem in Hxi.
      eapply Hents; [eapply list_elem_of_lookup_2, Hd | exact He | exact Hxi].
    + destruct (padded_tensor_elem _ _ _ _ _ row x E7 Hrow Hx)
        as [->|(item & Hitem & Hxi)]; [exact Hpw|].
      apply list_elem_of_fmap in Hitem as (r & -> & Hr).
      apply list_elem_of_lookup in Hr as (i & Hi).
      destruct (Forall2_lookup_r _ _ _ _ _ Erows Hi) as (d & Hd & Hrow_of).
      apply conv_row_entities in Hrow_of as (ents & wds & _ & Hw & _ & Hcw).
      rewrite Hcw in Hxi. apply truncate_elem in Hxi.
      eapply Hwords; [eapply list_elem_of_lookup_2, Hd | exact Hw | exact Hxi].
Qed.

End BatchIds.

(** C9 as stated fails: with [n_entity = 3] negative sampling returns the
    id 3, which is not below the node count. *)
Lemma neg_sample_reaches_n_entity :
  DataLoader._neg_sample 0 DataLoader.example_loader {[1]} (DataLoader.constant_rng 2)
    = Ok (3, next (DataLoader.constant_rng 2)) /\
  DataLoader.n_entity DataLoader.example_loader = 3 /\
  ~ (3 < DataLoader.n_entity DataLoader.example_loader).
Proof.
  split; [vm_compute; reflexivity|]. split; [reflexivity|]. simpl. lia.
Qed.

Lemma batch_ids_bounded_witness :
  1 <= 3 <= DataLoader.n_entity DataLoader.example_loader.
Proof.
  apply (proj1 (batch_ids_bounded DataLoader.example_loader)
           0%nat {[1]} (DataLoader.constant_rng 2) 3
           (next (DataLoader.constant_rng 2))).
  vm_compute. reflexivity.
Defined.

(** ** Logits and predictions *)

Section Logits.

Import KGSF.

Context {St : Type}.
Variable self : model (St:=St).

(** The entry at row [b], position [i] of a batch of sequences. *)
Notation "x @ b , i" := (x !! (b : nat) ≫= (fun row => row !! (i : nat)))
  (at level 20, b at next level, i at next level).

Lemma cat3_seq_ok (n : nat) (a b c : list vec) :
  length a = n -> length b = n -> length c = n ->
  exists r, cat3_seq a b c = Ok r /\ length r = n /\
    forall i x y z, a !! i = Some x -> b !! i = Some y -> c !! i = Some z ->
      r !! i = Some (x, y, z).
Proof.
  revert a b c. induction n as [|n IH]; intros a b c Ha Hb Hc.
  - destruct a, b, c; try discriminate. exists []. repeat split.
    intros i x y z Hx. discriminate.
  - destruct a as [|x a], b as [|y b], c as [|z c]; try discriminate.
    simpl in Ha, Hb, Hc.
    destruct (IH a b c) as (r & Hr & Hlen & Hget); try lia.
    exists ((x, y, z) :: r). simpl. rewrite Hr. simpl. split; [reflexivity|].
    split; [lia|]. intros [|i] x' y' z'; simpl.
    + intros [= <-] [= <-] [= <-]. reflexivity.
    + apply Hget.
Qed.

Lemma cat3_ok (n : nat) (a b c : list (list vec)) :
  length a = length c -> length b = length c ->
  Forall (fun row => length row = n) a ->
  Forall (fun row => length row = n) b ->
  Forall (fun row => length row = n) c ->
  exists r, cat3 a b c = Ok r /\ length r = length c /\
    Forall (fun row => length row = n) r /\
    forall k i x y z, a @ k, i = Some x -> b @ k, i = Some y -> c @ k, i = Some z ->
      r @ k, i = Some (x, y, z).
Proof.
  revert a b. induction c as [|z c IH]; intros a b Ha Hb Fa Fb Fc.
  - destruct a, b; try discriminate. exists []. repeat split; [constructor|].
    intros k i x y z Hx. discriminate.
  - destruct a as [|x a], b as [|y b]; try discriminate.
    simpl in Ha, Hb.
    apply Forall_cons in Fa as [Fx Fa]. apply Forall_cons in Fb as [Fy Fb].
    apply Forall_cons in Fc as [Fz Fc].
    destruct (cat3_seq_ok n x y z Fx Fy Fz) as (row & Hrow & Hrl & Hrget).
    destruct (IH a b) as (r & Hr & Hlen & Fr & Hget); try lia; try assumption.
    exists (row :: r). simpl. rewrite Hrow. simpl. rewrite Hr. simpl.
    split; [reflexivity|]. split; [lia|]. split; [constructor; assumption|].
    intros [|k] i x' y' z'; simpl.
    + apply Hrget.
    + apply Hget.
Qed.

Lemma for_each_argmax_ok (sl : list (list vec)) :
  Forall (Forall (fun v => v <> [])) sl ->
  exists preds, for_each (for_each argmax) sl = Ok preds /\
    Forall2 (Forall2 (fun v p => argmax v = Ok p)) sl preds.
Proof.
  assert (Hrow : forall row : list vec, Forall (fun v => v <> []) row ->
            exists ps, for_each argmax row = Ok ps /\
                       Forall2 (fun v p => argmax v = Ok p) row ps).
  { induction row as [|v row IH]; intros Hne.
    - exists []. split; [reflexivity | constructor].
    - apply Forall_cons in Hne as [Hv Hne]. destruct (IH Hne) as (ps & Hps & Hall).
      destruct v as [|x v]; [contradiction|].
      exists (argmax_from x 0 1 v :: ps). simpl. rewrite Hps. simpl.
      split; [reflexivity|]. constructor; [reflexivity | exact Hall]. }
  induction sl as [|row sl IH]; intros Hne.
  - exists []. split; [reflexivity | constructor].
  - apply Forall_cons in Hne as [Hr Hne]. destruct (IH Hne) as (preds & Hpreds & Hall).
    destruct (Hrow row Hr) as (ps & Hps & Hrall).
    exists (ps :: preds). simpl. rewrite Hps. simpl. rewrite Hpreds. simpl.
    split; [reflexivity|]. constructor; assumption.
Qed.

(** The logits and the predictions of a batch of latent sequences of one
    length. *)
Lemma logits_and_preds (n : nat) (e w d : list (list vec)) :
  has_vocabulary self ->
  length e = length d -> length w = length d ->
  Forall (fun row => length row = n) e ->
  Forall (fun row => length row = n) w ->
  Forall (fun row => length row = n) d ->
  exists sl preds,
    sum_logits_of self e w d = Ok sl /\
    for_each (for_each argmax) sl = Ok preds /\
    length sl = length d /\ length preds = length d /\
    Forall (fun row => length row = n) sl /\
    Forall (fun row => length row = n) preds /\
    forall k i x y z, e @ k, i = Some x -> w @ k, i = Some y -> d @ k, i = Some z ->
      sl @ k, i = Some (sum_logits_at self (x, y, z)) /\
      exists p, argmax (sum_logits_at self (x, y, z)) = Ok p /\ preds @ k, i = Some p.
Proof.
  intros Hvoc He Hw Fe Fw Fd.
  destruct (cat3_ok n e w d He Hw Fe Fw Fd) as (r & Hr & Hlen & Fr & Hget).
  unfold sum_logits_of. rewrite Hr. simpl.
  set (sl := (fun row : list (vec * vec * vec) => sum_logits_at self <$> row) <$> r).
  destruct (for_each_argmax_ok sl) as (preds & Hpreds & Hall).
  { subst sl. apply Forall_fmap, Forall_forall. intros row _. simpl.
    apply Forall_fmap, Forall_forall. intros lat _. apply Hvoc. }
  exists sl, preds. split; [reflexivity|]. split; [exact Hpreds|].
  assert (Hsl : length sl = length d) by (subst sl; rewrite length_fmap; exact Hlen).
  assert (Fsl : Forall (fun row => length row = n) sl).
  { subst sl. apply Forall_fmap. eapply Forall_impl; [exact Fr|].
    intros row Hrow. simpl. rewrite length_fmap. exact Hrow. }
  split; [exact Hsl|]. split; [rewrite <- (Forall2_length _ _ _ Hall); exact Hsl|].
  split; [exact Fsl|]. split.
  - clear Hpreds Hsl. induction Hall as [|row ps sl' preds' Hrow _ IH]; constructor.
    + apply Forall_cons in Fsl as [Hl _]. rewrite <- (Forall2_length _ _ _ Hrow). exact Hl.
    + apply IH. apply Forall_cons in Fsl as [_ Fsl]. exact Fsl.
  - intros k i x y z Hx Hy Hz.
    specialize (Hget k i x y z Hx Hy Hz).
    assert (Hsli : sl @ k, i = Some (sum_logits_at self (x, y, z))).
    { subst sl. rewrite list_lookup_fmap.
      destruct (r !! k) as [row|]; simpl in *; [|discriminate].
      rewrite list_lookup_fmap, Hget. reflexivity. }
    split; [exact Hsli|].
    destruct (sl !! k) as [row|] eqn:Ek; simpl in Hsli; [|discriminate].
    destruct (Forall2_lookup_l _ _ _ _ _ Hall Ek) as (ps & Hps & Hrow).
    destruct (Forall2_lookup_l _ _ _ _ _ Hrow Hsli) as (p & Hp & Harg).
    exists p. split; [exact Harg|]. rewrite Hps. simpl. exact Hp.
Qed.

End Logits.

(** ** Forced decoding *)

Section Forced.

Import KGSF.

Context {St : Type}.
Variable self : model (St:=St).

Notation "x @ b , i" := (x !! (b : nat) ≫= (fun row => row !! (i : nat)))
  (at level 20, b at next level, i at next level).

Lemma slice_to_drop_last {A : Type} (row : list A) :
  slice_to row (-1) = take (length row - 1) row.
Proof.
  unfold slice_to, slice_bound, len. simpl. f_equal. lia.
Qed.

Lemma forced_inputs_rows (response : list (list Z)) :
  forced_inputs self response =
  (fun row => start_token_idx self :: take (length row - 1) row) <$> response.
Proof.
  unfold forced_inputs, _starts.
  induction response as [|row response IH]; simpl; [reflexivity|].
  rewrite slice_to_drop_last. f_equal. exact IH.
Qed.

Lemma lookup_concat_rows {A : Type} (L : nat) (rows : list (list A)) (b i : nat) :
  Forall (fun row => length row = L) rows -> (i < L)%nat ->
  concat rows !! (b * L + i)%nat = rows @ b, i.
Proof.
  intros Hall Hi. revert b. induction Hall as [|row rows Hrow _ IH]; intros b.
  - simpl. rewrite lookup_nil. reflexivity.
  - destruct b as [|b]; simpl.
    + rewrite lookup_app_l by lia. reflexivity.
    + rewrite lookup_app_r by lia.
      replace (L + b * L + i - length row)%nat with (b * L + i)%nat by lia.
      apply IH.
Qed.

(** C2: for a batch of ground-truth responses of length L >= 1, the decoder
    input of forced decoding is START followed by the response without its
    last token, there are exactly L logit positions per response, the
    logits of position i come from the decoder's latent state at position
    i, where the input is the previous response token (START for i = 0),
    and the flattened logits pair position i with token i of the response. *)
Theorem forced_decoding_alignment (enc : encodings) (entity_emb_attn word_emb_attn : list vec)
    (response : list (list Z)) (L : nat) :
  decoder_shape self -> has_vocabulary self ->
  (0 < L)%nat ->
  Forall (fun row => length row = L) response ->
  length entity_emb_attn = length response ->
  length word_emb_attn = length response ->
  let inputs := forced_inputs self response in
  let dialog_latent := (conv_decoder self inputs enc None).1 in
  inputs = (fun row => start_token_idx self :: take (L - 1) row) <$> response /\
  exists logits preds,
    _decode_forced_with_kg self enc entity_emb_attn word_emb_attn response
      = Ok (logits, preds) /\
    length logits = length response /\
    Forall (fun row => length row = L) logits /\
    Forall (fun row => length row = L) preds /\
    forall b i tok, response @ b, i = Some tok ->
      inputs @ b, i = match i with
                      | O => Some (start_token_idx self)
                      | S j => response @ b, j
                      end /\
      exists e w d p,
        entity_emb_attn !! b = Some e /\ word_emb_attn !! b = Some w /\
        dialog_latent @ b, i = Some d /\
        logits @ b, i = Some (sum_logits_at self (e, w, d)) /\
        argmax (sum_logits_at self (e, w, d)) = Ok p /\
        preds @ b, i = Some p /\
        concat logits !! (b * L + i)%nat = Some (sum_logits_at self (e, w, d)) /\
        concat response !! (b * L + i)%nat = Some tok.
Proof.
  intros Hshape Hvoc HL Hresp HE HW inputs dialog_latent.
  assert (Hin : inputs = (fun row => start_token_idx self :: take (L - 1) row) <$> response).
  { subst inputs. rewrite forced_inputs_rows. apply Forall_fmap_ext_1.
    eapply Forall_impl; [exact Hresp|]. intros row ->. reflexivity. }
  split; [exact Hin|].
  assert (Fin : Forall (fun row => length row = L) inputs).
  { rewrite Hin. apply Forall_fmap. eapply Forall_impl; [exact Hresp|].
    intros row Hrow. simpl in *. rewrite length_take. lia. }
  assert (Hlat : Forall2 (fun (input : list Z) (latent : list vec) =>
                            length latent = length input) inputs dialog_latent)
    by apply Hshape.
  assert (Flat : Forall (fun row => length row = L) dialog_latent).
  { clear -Hlat Fin. induction Hlat as [|x y xs ys Hxy _ IH]; constructor.
    - apply Forall_cons in Fin as [Hx _]. lia.
    - apply IH. apply Forall_cons in Fin as [_ Fin]. exact Fin. }
  assert (Hlen_lat : length dialog_latent = length response).
  { rewrite <- (Forall2_length _ _ _ Hlat). rewrite Hin. apply length_fmap. }
  set (seq_len := length (default [] (head response))).
  assert (Fexp : forall x : list vec,
            Forall (fun row => length row = L) (expand1 x seq_len) \/ response = []).
  { intros x. destruct response as [|row response]; [right; reflexivity|]. left.
    apply Forall_cons in Hresp as [Hrow _]. subst seq_len. simpl. rewrite Hrow.
    unfold expand1. apply Forall_fmap, Forall_forall. intros v _. simpl.
    apply length_replicate. }
  assert (Fexp' : forall x : list vec, length x = length response ->
            Forall (fun row => length row = L) (expand1 x seq_len)).
  { intros x Hx. destruct (Fexp x) as [H| ->]; [exact H|].
    destruct x; [constructor | discriminate]. }
  destruct (logits_and_preds self L (expand1 entity_emb_attn seq_len)
              (expand1 word_emb_attn seq_len) dialog_latent Hvoc)
    as (sl & preds & Hsl & Hpreds & Hl1 & Hl2 & Fsl & Fpreds & Hget).
  { unfold expand1. rewrite length_fmap. lia. }
  { unfold expand1. rewrite length_fmap. lia. }
  { apply Fexp', HE. }
  { apply Fexp', HW. }
  { exact Flat. }
  exists sl, preds. unfold _decode_forced_with_kg.
  fold seq_len. fold inputs. fold dialog_latent. rewrite Hsl. simpl. rewrite Hpreds. simpl.
  split; [reflexivity|]. split; [lia|]. split; [exact Fsl|]. split; [exact Fpreds|].
  intros b i tok Htok.
  destruct (response !! b) as [row|] eqn:Erow; simpl in Htok; [|discriminate].
  assert (Hrow : length row = L)
    by (rewrite Forall_forall in Hresp; eapply Hresp, list_elem_of_lookup_2, Erow).
  assert (Hi : (i < L)%nat) by (apply lookup_lt_Some in Htok; lia).
  split.
  - rewrite Hin, list_lookup_fmap, Erow. simpl. destruct i as [|j]; simpl; [reflexivity|].
    apply lookup_take_lt. lia.
  - assert (Hb : (b < length response)%nat) by (eapply lookup_lt_Some, Erow).
    destruct (lookup_lt_is_Some_2 entity_emb_attn b) as [e He]; [lia|].
    destruct (lookup_lt_is_Some_2 word_emb_attn b) as [w Hw]; [lia|].
    destruct (lookup_lt_is_Some_2 dialog_latent b) as [lat Hlatb]; [lia|].
    assert (Hlatl : length lat = L)
      by (rewrite Forall_forall in Flat; eapply Flat, list_elem_of_lookup_2, Hlatb).
    destruct (lookup_lt_is_Some_2 lat i) as [d Hd]; [lia|].
    assert (Hsl_len : seq_len = L).
    { subst seq_len. destruct response as [|r0 response]; [discriminate|].
      apply Forall_cons in Hresp as [Hr0 _]. exact Hr0. }
    destruct (Hget b i e w d) as (Hlog & p & Harg & Hp).
    { unfold expand1. rewrite list_lookup_fmap, He. simpl.
      apply lookup_replicate_2. lia. }
    { unfold expand1. rewrite list_lookup_fmap, Hw. simpl.
      apply lookup_replicate_2. lia. }
    { rewrite Hlatb. simpl. exact Hd. }
    exists e, w, d, p. repeat split; try assumption.
    + rewrite Hlatb. simpl. exact Hd.
    + rewrite (lookup_concat_rows L) by assumption. exact Hlog.
    + rewrite (lookup_concat_rows L) by assumption. rewrite Erow. simpl. exact Htok.
Qed.

End Forced.

(** The example model has the declared shapes. *)
Lemma example_model_decoder_shape : KGSF.decoder_shape KGSF.example_model.
Proof.
  intros inputs enc incr_state. simpl.
  induction inputs as [|row inputs IH]; constructor; [|exact IH].
  apply length_fmap.
Qed.

Lemma example_model_has_vocabulary : KGSF.has_vocabulary KGSF.example_model.
Proof.
  intros [[e w] d]. unfold KGSF.sum_logits_at. simpl. discriminate.
Qed.

Lemma forced_decoding_alignment_witness :
  exists logits preds,
    KGSF._decode_forced_with_kg KGSF.example_model KGSF.example_encodings
      [[0%Q]] [[0%Q]] [[1; 2]] = Ok (logits, preds) /\
    length logits = 1%nat /\
    Forall (fun row => length row = 2%nat) logits.
Proof.
  destruct (forced_decoding_alignment KGSF.example_model KGSF.example_encodings
              [[0%Q]] [[0%Q]] [[1; 2]] 2
              example_model_decoder_shape example_model_has_vocabulary)
    as (_ & logits & preds & Hrun & Hlen & Hrows & _).
  - lia.
  - repeat constructor.
  - reflexivity.
  - reflexivity.
  - exists logits, preds. split; [exact Hrun|]. split; [exact Hlen | exact Hrows].
Defined.

(** ** Greedy decoding *)

Lemma last_position_length {A : Type} (k : nat) (x : list (list A)) :
  Forall (fun row => length row = S k) x ->
  Forall (fun row => length row = 1%nat) (KGSF.last_position x).
Proof.
  intros H. unfold KGSF.last_position. apply Forall_fmap.
  eapply Forall_impl; [exact H|]. intros row Hrow. simpl in *.
  unfold slice_from, slice_bound, len. rewrite length_drop. simpl. lia.
Qed.

Lemma zip_with_app_take {A : Type} (k : nat) (xs ys : list (list A)) :
  length xs = length ys ->
  Forall (fun row => length row = k) xs ->
  Forall (fun row => length row = 1%nat) ys ->
  Forall (fun row => length row = S k) (zip_with app xs ys) /\
  xs = take k <$> zip_with app xs ys.
Proof.
  intros Hlen Hx. revert ys Hlen.
  induction Hx as [|x xs Hxl _ IH]; intros ys Hlen Hy.
  - split; [constructor | reflexivity].
  - destruct ys as [|y ys]; [discriminate|].
    apply Forall_cons in Hy as [Hyl Hy]. injection Hlen as Hlen.
    destruct (IH ys Hlen Hy) as [F E]. simpl. split.
    + constructor; [rewrite length_app; lia | exact F].
    + change (x :: xs = take k (x ++ y) :: (take k <$> zip_with app xs ys)).
      f_equal; [|exact E].
      rewrite take_app_le by lia. rewrite take_ge by lia. reflexivity.
Qed.

Section Greedy.

Import KGSF.

Context {St : Type}.
Variable self : model (St:=St).
Variable enc : encodings.
Variables entity_emb_attn word_emb_attn : list vec.

Local Abbreviation batch_size := (length (token_encoding enc).1).
Notation "x @ b , i" := (x !! (b : nat) ≫= (fun row => row !! (i : nat)))
  (at level 20, b at next level, i at next level).

(** [finished] holds when every row holds the end token. *)
Lemma all_finished_spec (inputs : list (list Z)) :
  length inputs = batch_size ->
  all_finished self batch_size inputs = true <->
  Forall (fun row => end_token_idx self ∈ row) inputs.
Proof.
  intros Hlen. unfold all_finished. rewrite <- Hlen. clear Hlen.
  rewrite Nat.eqb_eq.
  assert (Hrow : forall row, has_end self row = true <-> end_token_idx self ∈ row).
  { intros row. unfold has_end. rewrite existsb_exists. split.
    - intros (x & Hx & Heq). apply Z.eqb_eq in Heq. subst x.
      apply list_elem_of_In. exact Hx.
    - intros Hin. exists (end_token_idx self). split.
      + apply list_elem_of_In. exact Hin.
      + apply Z.eqb_refl. }
  induction inputs as [|row inputs IH]; simpl.
  - split; [constructor | reflexivity].
  - pose proof (length_filter (fun row => has_end self row = true) inputs) as Hle.
    rewrite filter_cons. destruct (decide (has_end self row = true)) as [Hend|Hno]; simpl.
    + rewrite Forall_cons, <- IH, <- Hrow. split; [intros H; split; [exact Hend | lia]|].
      intros [_ H]. lia.
    + split; [lia|]. intros H. apply Forall_cons in H as [H _].
      apply Hrow in H. contradiction.
Qed.

Hypothesis Hshape : decoder_shape self.
Hypothesis Hvoc : has_vocabulary self.
Hypothesis HE : length entity_emb_attn = batch_size.
Hypothesis HW : length word_emb_attn = batch_size.

(** One pass of the loop appends one token to every row. *)
Lemma greedy_step_ok (k : nat) (inputs : list (list Z)) (incr_state : option St) :
  length inputs = batch_size ->
  Forall (fun row => length row = S k) inputs ->
  exists sum_logits inputs' incr_state',
    greedy_step self enc entity_emb_attn word_emb_attn inputs incr_state
      = Ok (sum_logits, inputs', incr_state') /\
    length inputs' = batch_size /\
    Forall (fun row => length row = S (S k)) inputs' /\
    inputs = take (S k) <$> inputs'.
Proof using Hshape Hvoc HE HW.
  intros Hlen Hrows. unfold greedy_step.
  pose proof (Hshape inputs enc incr_state) as Hlat.
  destruct (conv_decoder self inputs enc incr_state) as [dialog_latent incr_state'].
  simpl in Hlat.
  assert (Flat : Forall (fun row => length row = S k) dialog_latent).
  { clear -Hlat Hrows. induction Hlat as [|x y xs ys Hxy _ IH]; constructor.
    - apply Forall_cons in Hrows as [Hx _]. lia.
    - apply IH. apply Forall_cons in Hrows as [_ Hrows]. exact Hrows. }
  assert (Hll : length dialog_latent = batch_size)
    by (rewrite <- (Forall2_length _ _ _ Hlat); exact Hlen).
  destruct (logits_and_preds self 1 (unsqueeze1 entity_emb_attn)
              (unsqueeze1 word_emb_attn) (last_position dialog_latent) Hvoc)
    as (sl & preds & Hsl & Hpreds & Hl1 & Hl2 & Fsl & Fpreds & _).
  { unfold unsqueeze1, last_position. rewrite !length_fmap. lia. }
  { unfold unsqueeze1, last_position. rewrite !length_fmap. lia. }
  { unfold unsqueeze1. apply Forall_fmap, Forall_forall. intros v _. reflexivity. }
  { unfold unsqueeze1. apply Forall_fmap, Forall_forall. intros v _. reflexivity. }
  { eapply last_position_length, Flat. }
  rewrite Hsl. simpl. rewrite Hpreds. simpl.
  assert (Hpl : length inputs = length preds).
  { rewrite Hl2. unfold last_position. rewrite length_fmap. lia. }
  unfold DataLoader.cat_cols. rewrite Hpl, Nat.eqb_refl. simpl.
  destruct (zip_with_app_take (S k) inputs preds Hpl Hrows Fpreds) as [F E].
  eexists _, _, _. split; [reflexivity|]. split; [|split; [exact F | exact E]].
  rewrite length_zip_with. lia.
Qed.

(** The loop from a state reached after [k0] passes, with [n] passes left. *)
Lemma greedy_loop_spec (n : nat) :
  forall (k0 : nat) (inputs : list (list Z)) (incr_state : option St)
         (logits : list (list vec)),
    length inputs = batch_size ->
    Forall (fun row => length row = S k0) inputs ->
    length logits = k0 ->
    exists logits' inputs',
      greedy_loop self n enc entity_emb_attn word_emb_attn batch_size inputs
        incr_state logits = Ok (logits', inputs') /\
      (k0 <= length logits' <= k0 + n)%nat /\
      ((0 < n)%nat -> (k0 < length logits')%nat) /\
      length inputs' = batch_size /\
      Forall (fun row => length row = S (length logits')) inputs' /\
      inputs = take (S k0) <$> inputs' /\
      (n = 0%nat \/ all_finished self batch_size inputs' = true \/
       length logits' = (k0 + n)%nat) /\
      (forall j, (k0 < j < length logits')%nat ->
         all_finished self batch_size (take (S j) <$> inputs') = false).
Proof using Hshape Hvoc HE HW.
  induction n as [|n IH]; intros k0 inputs incr_state logits Hlen Hrows Hlog.
  - exists logits, inputs. simpl. split; [reflexivity|]. rewrite Hlog.
    split; [lia|]. split; [lia|]. split; [exact Hlen|]. split; [exact Hrows|].
    split.
    { rewrite <- (list_fmap_id inputs) at 1. apply Forall_fmap_ext_1.
      eapply Forall_impl; [exact Hrows|]. intros row Hrow. simpl in *.
      symmetry. apply take_ge. lia. }
    split; [left; reflexivity|]. intros j Hj. lia.
  - simpl.
    destruct (greedy_step_ok k0 inputs incr_state Hlen Hrows)
      as (sl & inputs1 & st1 & Hstep & Hlen1 & Hrows1 & Hpre1).
    rewrite Hstep. simpl.
    destruct (all_finished self batch_size inputs1) eqn:Hfin.
    + exists (logits ++ [sl]), inputs1. rewrite length_app, Hlog. simpl.
      split; [reflexivity|]. split; [lia|]. split; [lia|]. split; [exact Hlen1|].
      split; [replace (k0 + 1)%nat with (S k0) by lia; exact Hrows1|].
      split; [exact Hpre1|]. split; [right; left; exact Hfin|].
      intros j Hj. lia.
    + destruct (IH (S k0) inputs1 st1 (logits ++ [sl]) Hlen1 Hrows1)
        as (logits' & inputs' & Hrun & Hk & Hpos & Hlen' & Hrows' & Hpre' & Hstop & Hearly).
      { rewrite length_app, Hlog. simpl. lia. }
      exists logits', inputs'. split; [exact Hrun|]. split; [lia|]. split; [lia|].
      split; [exact Hlen'|]. split; [exact Hrows'|].
      assert (Hpre : inputs = take (S k0) <$> inputs').
      { rewrite Hpre1, Hpre'. rewrite <- list_fmap_compose. apply list_fmap_ext.
        intros i row _. simpl. rewrite take_take. f_equal. lia. }
      split; [exact Hpre|]. split.
      { right. destruct Hstop as [Hn|[Hf|Hk']]; [|left; exact Hf|right; lia].
        subst n. right. simpl in Hrun. lia. }
      intros j Hj. destruct (decide (j = S k0)) as [->|Hne].
      * rewrite <- Hpre'. exact Hfin.
      * apply Hearly. lia.
Qed.

End Greedy.

(** C3: greedy decoding returns, without raising, after at least one and at
    most [response_truncate] passes; it stops at the first pass after which
    every sequence of the batch holds the end token, or at the cap when no
    pass before it got there, and returns the sequences accumulated so far:
    START and one token per pass. *)
Theorem greedy_decoding_stops {St : Type} (self : KGSF.model (St:=St))
    (enc : KGSF.encodings) (entity_emb_attn word_emb_attn : list KGSF.vec) :
  KGSF.decoder_shape self -> KGSF.has_vocabulary self ->
  length entity_emb_attn = length (KGSF.token_encoding enc).1 ->
  length word_emb_attn = length (KGSF.token_encoding enc).1 ->
  0 < KGSF.response_truncate self ->
  exists logits inputs,
    KGSF._decode_greedy_with_kg self enc entity_emb_attn word_emb_attn
      = Ok (logits, inputs) /\
    (1 <= length logits <= Z.to_nat (KGSF.response_truncate self))%nat /\
    length inputs = length (KGSF.token_encoding enc).1 /\
    Forall (fun row => length row = S (length logits) /\
                       head row = Some (KGSF.start_token_idx self)) inputs /\
    (Forall (fun row => KGSF.end_token_idx self ∈ row) inputs \/
     length logits = Z.to_nat (KGSF.response_truncate self)) /\
    (forall j, (1 <= j < length logits)%nat ->
       ~ Forall (fun row => KGSF.end_token_idx self ∈ take (S j) row) inputs).
Proof.
  intros Hshape Hvoc HE HW HT.
  destruct (greedy_loop_spec self enc entity_emb_attn word_emb_attn Hshape Hvoc HE HW
              (Z.to_nat (KGSF.response_truncate self)) 0
              (KGSF._starts self (length (KGSF.token_encoding enc).1)) None [])
    as (logits & inputs & Hrun & Hk & Hpos & Hlen & Hrows & Hpre & Hstop & Hearly).
  { unfold KGSF._starts. apply length_replicate. }
  { unfold KGSF._starts. apply Forall_forall. intros row Hrow.
    apply elem_of_replicate_inv in Hrow. subst row. reflexivity. }
  { reflexivity. }
  assert (Hk1 : (0 < length logits)%nat) by (apply Hpos; lia).
  exists logits, inputs. unfold KGSF._decode_greedy_with_kg.
  rewrite Hrun. simpl.
  destruct logits as [|l0 logits]; [simpl in Hk1; lia|].
  split; [reflexivity|]. split; [lia|]. split; [exact Hlen|]. split.
  { apply Forall_forall. intros row Hrow. split.
    - rewrite Forall_forall in Hrows. apply Hrows, Hrow.
    - apply list_elem_of_lookup in Hrow as (i & Hi).
      assert (Hst : KGSF._starts self (length (KGSF.token_encoding enc).1) !! i
                    = Some (take 1 row))
        by (rewrite Hpre, list_lookup_fmap, Hi; reflexivity).
      unfold KGSF._starts in Hst. apply lookup_replicate in Hst as [Hst _].
      destruct row as [|x row]; [discriminate|]. simpl in Hst.
      injection Hst as ->. reflexivity. }
  split.
  { destruct Hstop as [Hn|[Hf|Hcap]]; [lia| |right; exact Hcap].
    left. apply (all_finished_spec self enc inputs Hlen), Hf. }
  intros j Hj Hall.
  assert (Hfalse : KGSF.all_finished self (length (KGSF.token_encoding enc).1)
                     (take (S j) <$> inputs) = false)
    by (apply Hearly; lia).
  assert (Htrue : KGSF.all_finished self (length (KGSF.token_encoding enc).1)
                    (take (S j) <$> inputs) = true).
  { apply (all_finished_spec self enc); [rewrite length_fmap; exact Hlen|].
    apply Forall_fmap. exact Hall. }
  congruence.
Qed.

Lemma greedy_decoding_stops_witness :
  exists logits inputs,
    KGSF._decode_greedy_with_kg KGSF.example_model KGSF.example_encodings
      [[0%Q]] [[0%Q]] = Ok (logits, inputs) /\
    (1 <= length logits <= 5)%nat.
Proof.
  destruct (greedy_decoding_stops KGSF.example_model KGSF.example_encodings
              [[0%Q]] [[0%Q]] example_model_decoder_shape example_model_has_vocabulary)
    as (logits & inputs & Hrun & Hk & _).
  - reflexivity.
  - reflexivity.
  - simpl. lia.
  - exists logits, inputs. split; [exact Hrun | exact Hk].
Defined.

(** On the example greedy decoding stops after two of the five passes, the
    second having produced the end token; with a cap of zero passes the
    final [torch.cat] of no logits raises. *)
Lemma greedy_example_run :
  KGSF._decode_greedy_with_kg KGSF.example_model KGSF.example_encodings
    [[0%Q]] [[0%Q]]
  = Ok ([[[0%Q; 1%Q; 0%Q]]; [[0%Q; 0%Q; 1%Q]]], [[0; 1; 2]]).
Proof. vm_compute. reflexivity. Qed.

Lemma greedy_without_passes {St : Type} (self : KGSF.model (St:=St))
    (enc : KGSF.encodings) (entity_emb_attn word_emb_attn : list KGSF.vec) :
  KGSF.response_truncate self <= 0 ->
  KGSF._decode_greedy_with_kg self enc entity_emb_attn word_emb_attn
    = Raise RuntimeError.
Proof.
  intros HT. unfold KGSF._decode_greedy_with_kg.
  replace (Z.to_nat (KGSF.response_truncate self)) with 0%nat by lia.
  reflexivity.
Qed.

(** ** The conversation forward pass *)

Section Converse.

Import KGSF System.

Context {St : Type}.
Variable self : model (St:=St).

(** The predictions of forced decoding are the argmax of the logits at
    every position. *)
Lemma forced_preds_argmax (enc : encodings) (e w : list vec) (response : list (list Z))
    (logits : list (list vec)) (preds : list (list Z)) :
  _decode_forced_with_kg self enc e w response = Ok (logits, preds) ->
  Forall2 (Forall2 (fun v p => argmax v = Ok p)) logits preds.
Proof.
  unfold _decode_forced_with_kg. intros H.
  bind_ok H sl Hsl. bind_ok H ps Hps. injection H as <- <-.
  apply for_each_Forall2 in Hps.
  eapply Forall2_impl; [exact Hps|]. intros row prow Hrow.
  apply for_each_Forall2 in Hrow. exact Hrow.
Qed.

Lemma forward_conv (ct ce cw response : list (list Z)) (mode : string) :
  forward self (ConvBatch ct ce cw response) "conv" mode =
  (out ← converse self ct ce cw response mode; Ok (ConvOut out)).
Proof. reflexivity. Qed.

(** C10: in every mode other than 'test' the conversation forward pass
    runs forced decoding on the ground-truth response and returns the loss
    with the per-position argmax predictions, and the system, outside
    training, evaluates these predictions; only in mode 'test' greedy
    decoding runs and its predictions alone are returned and evaluated. *)
Theorem converse_mode_dispatch (ct ce cw response : list (list Z)) (mode : string)
    (log : list event) :
  mode <> "test"%string ->
  converse self ct ce cw response mode =
    ('(enc, e, w) ← conv_encodings self ct ce cw;
     '(logits, preds) ← _decode_forced_with_kg self enc e w response;
     Ok (LossAndPreds (conv_loss self (concat logits) (concat response)) preds)) /\
  (forall out, converse self ct ce cw response mode = Ok out ->
     exists enc e w logits preds,
       conv_encodings self ct ce cw = Ok (enc, e, w) /\
       _decode_forced_with_kg self enc e w response = Ok (logits, preds) /\
       Forall2 (Forall2 (fun v p => argmax v = Ok p)) logits preds /\
       out = LossAndPreds (conv_loss self (concat logits) (concat response)) preds) /\
  (mode <> "train"%string ->
   _handle_conv_stage self (ConvBatch ct ce cw response) mode log =
     ('(enc, e, w) ← conv_encodings self ct ce cw;
      '(logits, preds) ← _decode_forced_with_kg self enc e w response;
      let loss := conv_loss self (concat logits) (concat response) in
      Ok (log ++ [ConvEvaluate preds response; OptimMetric "gen_loss" loss;
                  GenMetric "ppl" loss]))) /\
  converse self ct ce cw response "test" =
    ('(enc, e, w) ← conv_encodings self ct ce cw;
     '(logits, preds) ← _decode_greedy_with_kg self enc e w;
     Ok (Preds preds)) /\
  _handle_conv_stage self (ConvBatch ct ce cw response) "test" log =
    ('(enc, e, w) ← conv_encodings self ct ce cw;
     '(logits, preds) ← _decode_greedy_with_kg self enc e w;
     Ok (log ++ [ConvEvaluate preds response])).
Proof.
  intros Hmode.
  assert (Htest : String.eqb mode "test" = false) by (apply String.eqb_neq, Hmode).
  assert (Heq : converse self ct ce cw response mode =
    ('(enc, e, w) ← conv_encodings self ct ce cw;
     '(logits, preds) ← _decode_forced_with_kg self enc e w response;
     Ok (LossAndPreds (conv_loss self (concat logits) (concat response)) preds))).
  { unfold converse. destruct (conv_encodings self ct ce cw) as [[[enc e] w]| |];
      simpl; try reflexivity. rewrite Htest. reflexivity. }
  split; [exact Heq|]. split; [|split; [|split]].
  - intros out Hout. rewrite Heq in Hout.
    destruct (conv_encodings self ct ce cw) as [[[enc e] w]| |]; simpl in Hout;
      try discriminate Hout.
    destruct (_decode_forced_with_kg self enc e w response) as [[logits preds]| |] eqn:Hf;
      simpl in Hout; try discriminate Hout.
    injection Hout as <-. exists enc, e, w, logits, preds.
    split; [reflexivity|]. split; [exact Hf|]. split; [|reflexivity].
    eapply forced_preds_argmax, Hf.
  - intros Htrain.
    assert (Htr : String.eqb mode "train" = false) by (apply String.eqb_neq, Htrain).
    unfold _handle_conv_stage. rewrite forward_conv, Heq.
    destruct (conv_encodings self ct ce cw) as [[[enc e] w]| |]; simpl; try reflexivity.
    destruct (_decode_forced_with_kg self enc e w response) as [[logits preds]| |];
      simpl; try reflexivity.
    rewrite Htest, Htr. rewrite <- app_assoc. reflexivity.
  - unfold converse.
    destruct (conv_encodings self ct ce cw) as [[[enc e] w]| |]; reflexivity.
  - unfold _handle_conv_stage. rewrite forward_conv. unfold converse.
    destruct (conv_encodings self ct ce cw) as [[[enc e] w]| |]; simpl; try reflexivity.
    destruct (_decode_greedy_with_kg self enc e w) as [[logits preds]| |];
      simpl; reflexivity.
Qed.

End Converse.

Lemma converse_mode_dispatch_witness :
  KGSF.converse KGSF.example_model [[0]] [[0]] [[0]] [[1; 2]] "val"
    = Ok (KGSF.LossAndPreds 1 [[1; 2]]) /\
  KGSF.converse KGSF.example_model [[0]] [[0]] [[0]] [[1; 2]] "test"
    = Ok (KGSF.Preds [[0; 1; 2]]) /\
  System._handle_conv_stage KGSF.example_model
    (KGSF.ConvBatch [[0]] [[0]] [[0]] [[1; 2]]) "val" []
    = Ok [System.ConvEvaluate [[1; 2]] [[1; 2]]; System.OptimMetric "gen_loss" 1;
          System.GenMetric "ppl" 1].
Proof.
  destruct (converse_mode_dispatch KGSF.example_model [[0]] [[0]] [[0]] [[1; 2]]
              "val" []) as (Hval & _ & Hstage & Htest & _).
  - discriminate.
  - split; [rewrite Hval; vm_compute; reflexivity|].
    split; [rewrite Htest; vm_compute; reflexivity|].
    rewrite Hstage by discriminate. vm_compute. reflexivity.
Defined.

(** ** The recommendation step *)

Section Recommend.

Import KGSF System.

Context {St : Type}.
Variable self : model (St:=St).

Lemma forward_rec (ce cw : list (list Z)) (entities : list vec) (movie : list Z)
    (mode : string) :
  forward self (RecBatch ce cw entities movie) "rec" mode =
  ('(rl, il, scores) ← recommend self ce cw entities movie mode; Ok (RecOut rl il scores)).
Proof. reflexivity. Qed.

Lemma rec_stage_loss_value (rl : Q) (info_loss : option Q) :
  (rec_stage_loss rl info_loss == rl + (25 # 1000) * default 0 info_loss)%Q.
Proof.
  unfold rec_stage_loss, truthy_loss. destruct info_loss as [aux|]; simpl.
  - destruct (Qeq_bool aux 0) eqn:Hz; simpl; [|reflexivity].
    apply Qeq_bool_iff in Hz. rewrite Hz. ring.
  - ring.
Qed.

(** C4: when the labels of the batch sum to a non-zero value the loss of
    the recommendation step is the recommendation loss plus 0.025 times
    the infomax loss, which is the summed squared error divided by that
    non-zero sum; when they sum to zero the model returns [None] for the
    infomax loss without dividing, the step's loss is the recommendation
    loss alone, and only the recommendation loss is recorded. In mode
    'train' the step makes its gradient update on that loss and records the
    metrics; in every other mode it runs [rec_evaluate] on the scores
    first, raises what that raises, and records the metrics after the
    calls of the evaluator. *)
Theorem rec_stage_loss_composition (item_ids : list Z) (ce cw : list (list Z))
    (entities : list vec) (movie : list Z) (mode : string) (log : list event)
    (er wr : list (list vec)) :
  index_rows (entity_encoder self) ce = Ok er ->
  index_rows (word_encoder self) cw = Ok wr ->
  let word_attn_rep := word_self_attn self wr (eq_mask cw (pad_word_idx self)) in
  let mask := sum_all entities in
  let aux := (infomax_loss (info_predict self word_attn_rep) entities / mask)%Q in
  let stage (rl : Q) (info : option Q) (scores : list vec) (metrics : list event)
      : result (list event) :=
    if String.eqb mode "train"
    then Ok (log ++ [Backward (rec_stage_loss rl info)] ++ metrics)
    else calls ← rec_evaluate item_ids scores movie;
         Ok (log ++ ((fun call : list Z * Z => RecEvaluate call.1 call.2) <$> calls)
                 ++ metrics) in
  exists rl scores,
    ((mask == 0)%Q ->
       recommend self ce cw entities movie mode = Ok (rl, None, scores) /\
       (rec_stage_loss rl None == rl)%Q /\
       (mode = "train"%string \/ scores <> [] ->
        _handle_rec_stage self item_ids (RecBatch ce cw entities movie) mode log =
          stage rl None scores [OptimMetric "rec_loss" rl])) /\
    (~ (mask == 0)%Q ->
       recommend self ce cw entities movie mode = Ok (rl, Some aux, scores) /\
       (rec_stage_loss rl (Some aux) == rl + (25 # 1000) * aux)%Q /\
       (mode = "train"%string \/ scores <> [] ->
        _handle_rec_stage self item_ids (RecBatch ce cw entities movie) mode log =
          stage rl (Some aux) scores
            ([OptimMetric "rec_loss" rl]
               ++ (if truthy_loss (Some aux)
                   then [OptimMetric "info_loss" aux] else [])))).
Proof.
  intros Her Hwr word_attn_rep mask aux stage.
  set (scores :=
         (fun u => linear u (entity_encoder self) (Some (rec_bias self)))
           <$> gate_layer self
                 (entity_self_attn self er (eq_mask ce (pad_entity_idx self)))
                 word_attn_rep).
  exists (rec_loss self scores movie), scores. split; intros Hmask.
  - assert (Hb : Qeq_bool mask 0 = true) by (apply Qeq_bool_iff, Hmask).
    assert (Hrec : recommend self ce cw entities movie mode
                   = Ok (rec_loss self scores movie, None, scores)).
    { unfold recommend. rewrite Her. simpl. rewrite Hwr. simpl.
      fold mask. rewrite Hb. reflexivity. }
    split; [exact Hrec|]. split.
    + rewrite rec_stage_loss_value. simpl. ring.
    + intros _. unfold _handle_rec_stage. rewrite forward_rec, Hrec. simpl.
      subst stage. simpl. destruct (String.eqb mode "train"); simpl.
      * rewrite <- app_assoc. reflexivity.
      * destruct (rec_evaluate item_ids scores movie) as [calls| |]; simpl;
          try reflexivity.
        rewrite <- app_assoc. reflexivity.
  - assert (Hb : Qeq_bool mask 0 = false).
    { destruct (Qeq_bool mask 0) eqn:E; [|reflexivity].
      apply Qeq_bool_iff in E. contradiction. }
    assert (Hrec : recommend self ce cw entities movie mode
                   = Ok (rec_loss self scores movie, Some aux, scores)).
    { unfold recommend. rewrite Her. simpl. rewrite Hwr. simpl.
      fold mask. rewrite Hb. reflexivity. }
    split; [exact Hrec|]. split.
    + rewrite rec_stage_loss_value. simpl. reflexivity.
    + intros _. unfold _handle_rec_stage. rewrite forward_rec, Hrec. simpl.
      subst stage. simpl. destruct (String.eqb mode "train"); simpl.
      * destruct (Qeq_bool aux 0); simpl; rewrite <- ?app_assoc; reflexivity.
      * destruct (rec_evaluate item_ids scores movie) as [calls| |]; simpl;
          try reflexivity.
        destruct (Qeq_bool aux 0); simpl; rewrite <- ?app_assoc; reflexivity.
Qed.

End Recommend.

Lemma rec_stage_loss_composition_witness :
  KGSF.recommend KGSF.example_model [[0]] [[0]] [[0%Q; 0%Q]] [0] "train"
    = Ok (2%Q, None, [[0%Q; 0%Q]]) /\
  System._handle_rec_stage KGSF.example_model [0; 1]
    (KGSF.RecBatch [[0]] [[0]] [[0%Q; 0%Q]] [0]) "train" []
    = Ok [System.Backward (System.rec_stage_loss 2 None); System.OptimMetric "rec_loss" 2] /\
  System._handle_rec_stage KGSF.example_model [0; 1]
    (KGSF.RecBatch [[0]] [[0]] [[0%Q; 0%Q]] [0]) "val" []
    = Raise RuntimeError.
Proof.
  destruct (rec_stage_loss_composition KGSF.example_model [0; 1] [[0]] [[0]]
              [[0%Q; 0%Q]] [0] "train" [] [[[1%Q]]] [[[1%Q]]])
    as (rl & scores & Hzero & _); [reflexivity | reflexivity |].
  destruct Hzero as (Hrec & _ & Hstage); [reflexivity|].
  assert (Hval : Ok (rl, @None Q, scores) = Ok (2%Q, None, [[0%Q; 0%Q]]))
    by (rewrite <- Hrec; vm_compute; reflexivity).
  injection Hval as -> ->. split; [exact Hrec|].
  split; [apply Hstage; left; reflexivity|].
  destruct (rec_stage_loss_composition KGSF.example_model [0; 1] [[0]] [[0]]
              [[0%Q; 0%Q]] [0] "val" [] [[[1%Q]]] [[[1%Q]]])
    as (rl' & scores' & Hzero' & _); [reflexivity | reflexivity |].
  destruct Hzero' as (Hrec' & _ & Hstage'); [reflexivity|].
  assert (Hval' : Ok (rl', @None Q, scores') = Ok (2%Q, None, [[0%Q; 0%Q]]))
    by (rewrite <- Hrec'; vm_compute; reflexivity).
  injection Hval' as -> ->.
  rewrite Hstage' by (right; discriminate). vm_compute. reflexivity.
Defined.

(** Outside training the step needs 50 item entities to rank: with the two
    of this system the validation step raises, and records nothing, where
    the training step on the same batch returns. *)
Lemma rec_stage_example_few_items :
  System._handle_rec_stage KGSF.example_model [0; 1]
    (KGSF.RecBatch [[0]] [[0]] [[0%Q; 0%Q]] [0]) "val" [] = Raise RuntimeError /\
  System.rec_evaluate [0; 1] [[0%Q; 0%Q]] [0] = Raise RuntimeError.
Proof. split; vm_compute; reflexivity. Qed.

(** With 50 item entities the validation step on the same batch returns:
    one call of the evaluator for the one example, then the metric. *)
Lemma rec_stage_example_validation :
  exists rec_rank,
    System._handle_rec_stage KGSF.example_model (replicate 50 0)
      (KGSF.RecBatch [[0]] [[0]] [[0%Q; 0%Q]] [0]) "val" [] =
    Ok [System.RecEvaluate rec_rank 0; System.OptimMetric "rec_loss" 2] /\
    length rec_rank = 50%nat.
Proof. eexists. split; vm_compute; reflexivity. Qed.

(** With an entity label in the batch the infomax loss is there and counts
    0.025 times. *)
Lemma rec_stage_example_with_entity :
  KGSF.recommend KGSF.example_model [[0]] [[0]] [[1%Q; 0%Q]] [0] "train"
    = Ok (2%Q, Some 1%Q, [[0%Q; 0%Q]]) /\
  (System.rec_stage_loss 2 (Some 1) == 2 + (25 # 1000) * 1)%Q.
Proof.
  split; [vm_compute; reflexivity | reflexivity].
Qed.

(** ** Freezing the parameters *)

Section Freezing.

Import KGSF System.

Variable parameters : Layer.t -> list string.

Lemma foldl_alter_lookup (names : list string) (store : gmap string parameter)
    (name : string) :
  foldl (fun store p => alter (set_requires_grad false) p store) store names !! name =
  if decide (name ∈ names) then set_requires_grad false <$> store !! name
  else store !! name.
Proof.
  revert store. induction names as [|n names IH]; intros store; simpl.
  - destruct (decide (name ∈ [])) as [Hin|_]; [|reflexivity].
    apply elem_of_nil in Hin. contradiction.
  - rewrite IH. destruct (decide (n = name)) as [->|Hne].
    + rewrite lookup_alter_eq.
      destruct (decide (name ∈ names)), (decide (name ∈ name :: names)) as [|Hout];
        try reflexivity.
      * destruct (store !! name) as [[d r]|]; reflexivity.
      * exfalso. apply Hout. left.
      * exfalso. apply Hout. left.
    + rewrite lookup_alter_ne by exact Hne.
      destruct (decide (name ∈ names)) as [Hin|Hout],
               (decide (name ∈ n :: names)) as [Hin'|Hout']; try reflexivity.
      * exfalso. apply Hout'. right. exact Hin.
      * exfalso. apply elem_of_cons in Hin' as [->|Hin']; [apply Hne; reflexivity|].
        contradiction.
Qed.

Lemma freeze_parameters_flat (store : gmap string parameter) :
  freeze_parameters parameters store =
  foldl (fun store p => alter (set_requires_grad false) p store) store
        (concat (parameters <$> freeze_models)).
Proof.
  unfold freeze_parameters. generalize freeze_models. intros layers. revert store.
  induction layers as [|m layers IH]; intros store; simpl; [reflexivity|].
  rewrite foldl_app. apply IH.
Qed.

Lemma freeze_parameters_lookup (store : gmap string parameter) (name : string) :
  freeze_parameters parameters store !! name =
  if decide (name ∈ concat (parameters <$> freeze_models))
  then set_requires_grad false <$> store !! name
  else store !! name.
Proof. rewrite freeze_parameters_flat. apply foldl_alter_lookup. Qed.

Lemma elem_of_frozen (name : string) :
  name ∈ concat (parameters <$> freeze_models) <->
  exists m, m ∈ freeze_models /\ name ∈ parameters m.
Proof.
  rewrite list_elem_of_In, in_concat. split.
  - intros (l & Hl & Hname). apply list_elem_of_In in Hl, Hname.
    apply list_elem_of_fmap in Hl as (m & -> & Hm).
    exists m. split; assumption.
  - intros (m & Hm & Hname). exists (parameters m).
    split; apply list_elem_of_In; [|exact Hname].
    apply list_elem_of_fmap. exists m. split; [reflexivity | exact Hm].
Qed.

Lemma backward_lookup (grad : string -> Q) (store : gmap string parameter)
    (name : string) :
  backward grad store !! name =
  (fun p => if requires_grad p
            then {| data := (data p - grad name)%Q; requires_grad := true |}
            else p) <$> store !! name.
Proof.
  unfold backward. rewrite map_lookup_imap.
  destruct (store !! name) as [p|]; reflexivity.
Qed.

(** Gradient steps keep the flag of every parameter and the value of the
    non-trainable ones. *)
Lemma backward_steps (grads : list (string -> Q)) (store : gmap string parameter)
    (name : string) (p : parameter) :
  store !! name = Some p ->
  exists p', foldl (fun store grad => backward grad store) store grads !! name = Some p' /\
             requires_grad p' = requires_grad p /\
             (requires_grad p = false -> p' = p).
Proof.
  revert store p. induction grads as [|grad grads IH]; intros store p Hp; simpl.
  - exists p. auto.
  - destruct (IH (backward grad store)
                (if requires_grad p
                 then {| data := (data p - grad name)%Q; requires_grad := true |}
                 else p)) as (p' & Hp' & Hflag & Hval).
    { rewrite backward_lookup, Hp. reflexivity. }
    exists p'. split; [exact Hp'|].
    destruct (requires_grad p) eqn:Hrg; simpl in *.
    + split; [exact Hflag | discriminate].
    + rewrite Hrg in Hflag, Hval. split; [exact Hflag | exact Hval].
Qed.

(** C5, as amended: before any conversation training step runs, the
    parameters of the word embedding of the graph, the entity and word
    graph encoders, the two self-attention poolers, the gate layer, the
    infomax head and the recommendation bias head are made non-trainable,
    and the training steps of the conversation phase leave them as they
    were; every other parameter, the token embedding among them, keeps its
    flag, so it is updated if it was trainable. *)
Theorem freeze_before_conversation (cuda_visible_devices : string)
    (grads : list (string -> Q)) (store : gmap string parameter) :
  exists store',
    train_conversation parameters (Some cuda_visible_devices) grads store = Ok store' /\
    (forall m name p,
       m ∈ freeze_models -> name ∈ parameters m -> store !! name = Some p ->
       freeze_parameters parameters store !! name = Some (set_requires_grad false p) /\
       store' !! name = Some (set_requires_grad false p)) /\
    (forall name p,
       (forall m, m ∈ freeze_models -> name ∉ parameters m) ->
       store !! name = Some p ->
       freeze_parameters parameters store !! name = Some p /\
       exists p', store' !! name = Some p' /\ requires_grad p' = requires_grad p).
Proof.
  eexists. split; [reflexivity|]. split.
  - intros m name p Hm Hname Hp.
    assert (Hfrozen : freeze_parameters parameters store !! name
                      = Some (set_requires_grad false p)).
    { rewrite freeze_parameters_lookup.
      destruct (decide (name ∈ concat (parameters <$> freeze_models))) as [_|Hout].
      - rewrite Hp. reflexivity.
      - exfalso. apply Hout, elem_of_frozen. exists m. split; assumption. }
    split; [exact Hfrozen|].
    destruct (backward_steps grads _ name _ Hfrozen) as (p' & Hp' & _ & Hval).
    rewrite Hp'. f_equal. apply Hval. reflexivity.
  - intros name p Hfree Hp.
    assert (Hsame : freeze_parameters parameters store !! name = Some p).
    { rewrite freeze_parameters_lookup.
      destruct (decide (name ∈ concat (parameters <$> freeze_models))) as [Hin|_];
        [|exact Hp].
      exfalso. apply elem_of_frozen in Hin as (m & Hm & Hname).
      exact (Hfree m Hm Hname). }
    split; [exact Hsame|].
    destruct (backward_steps grads _ name _ Hsame) as (p' & Hp' & Hflag & _).
    exists p'. split; [exact Hp' | exact Hflag].
Qed.

End Freezing.

Lemma freeze_before_conversation_witness :
  exists store',
    System.train_conversation KGSF.example_parameters (Some "-1"%string)
      [fun _ => 1%Q] KGSF.example_store = Ok store' /\
    store' !! "entity_encoder.weight"%string
      = Some {| KGSF.data := 7; KGSF.requires_grad := false |}.
Proof.
  destruct (freeze_before_conversation KGSF.example_parameters "-1"%string
              [fun _ => 1%Q] KGSF.example_store) as (store' & Hrun & Hfrozen & _).
  exists store'. split; [exact Hrun|].
  apply (Hfrozen KGSF.Layer.entity_encoder "entity_encoder.weight"%string
           {| KGSF.data := 7; KGSF.requires_grad := true |}).
  - unfold KGSF.freeze_models. right. left.
  - simpl. left.
  - vm_compute. reflexivity.
Defined.

(** C5 as stated fails: the token embedding is not among the frozen
    sub-modules; its weight stays trainable and a conversation training
    step changes it. *)
Lemma token_embedding_stays_trainable :
  KGSF.freeze_parameters KGSF.example_parameters KGSF.example_store
    !! "token_embedding.weight"%string
    = Some {| KGSF.data := 5; KGSF.requires_grad := true |} /\
  exists store',
    System.train_conversation KGSF.example_parameters (Some "-1"%string)
      [fun _ => 1%Q] KGSF.example_store = Ok store' /\
    store' !! "token_embedding.weight"%string
      = Some {| KGSF.data := 5 - 1; KGSF.requires_grad := true |} /\
    store' !! "entity_encoder.weight"%string
      = Some {| KGSF.data := 7; KGSF.requires_grad := false |}.
Proof.
  split; [vm_compute; reflexivity|].
  eexists. split; [reflexivity|]. split; vm_compute; reflexivity.
Qed.

(** ** Beam search *)

Section BeamSearch.

Import KGSF.

Context {St : Type}.
Variable self : model (St:=St).
Variable softmax : vec -> vec.

(** Four indices do not fit a tensor of rank 3. *)
Lemma tget4_rank3 {A : Type} (t : list (list (list A))) (n j k : nat) (x : tensor A) :
  tget4 (of_list3 t) n j k <> Ok x.
Proof.
  unfold tget4, tget3, of_list3. simpl. rewrite list_lookup_fmap.
  destruct (t !! n) as [m|]; simpl; [|discriminate].
  unfold of_list2. simpl. rewrite list_lookup_fmap.
  destruct (m !! j) as [v|]; simpl; [|discriminate].
  unfold of_list1. simpl. rewrite list_lookup_fmap.
  destruct (v !! 0%nat) as [y|]; simpl; discriminate.
Qed.

Lemma extend_candidate_raises (cands : list candidate) (inputs : list (list (list Z)))
    (logits probs : list (list vec)) (preds : list (list (list Z))) (j n k : nat)
    (c : candidate) :
  extend_candidate cands inputs (of_list3 logits) (of_list3 probs) (of_list3 preds) j n k
    <> Ok c.
Proof.
  unfold extend_candidate. intros H.
  bind_ok H old Hold. bind_ok H input Hinput. bind_ok H prd Hpred.
  exact (tget4_rank3 _ _ _ _ _ Hpred).
Qed.

Lemma update_sequences_raises (sequences : list (list candidate))
    (inputs : list (list (list Z))) (logits probs : list (list vec))
    (preds : list (list (list Z))) (batch_size : nat) (cands : list candidate)
    (c : candidate) (out : list (list candidate)) :
  sequences !! 0%nat = Some (c :: cands) ->
  _update_sequences sequences inputs logits probs preds 1 (S batch_size) <> Ok out.
Proof.
  intros Hseq H. unfold _update_sequences in H. simpl in H.
  bind_ok H row Hrow. rewrite Hseq in Hrow. simpl in Hrow.
  bind_ok Hrow cs Hcs. bind_ok Hcs y Hy.
  exact (extend_candidate_raises _ _ _ _ _ _ _ _ _ Hy).
Qed.

(** C1 cannot hold of the code: beam search never returns. With an empty
    batch the start tokens do not reshape; with no pass the candidates
    still hold the empty lists the search starts from; and the first pass
    indexes its rank-3 predictions with four indices. *)
Theorem beam_search_never_returns (enc : encodings)
    (entity_emb_attn word_emb_attn : list vec)
    (out : list (tensor Q) * list (list Z)) :
  decode_beam_search_with_kg self softmax enc entity_emb_attn word_emb_attn 1 <> Ok out.
Proof.
  unfold decode_beam_search_with_kg. intros H.
  bind_ok H init Hinit. destruct init as [[sequences inputs] incr_state].
  unfold _initialize_beam_search in Hinit. bind_ok Hinit inputs0 Hreshape.
  injection Hinit as <- <- <-.
  unfold reshape3 in Hreshape.
  destruct (length (token_encoding enc).1) as [|bs] eqn:Hbs; [discriminate Hreshape|].
  clear Hreshape. bind_ok H final Hloop.
  destruct (Z.to_nat (response_truncate self)) as [|n]; simpl in Hloop.
  - injection Hloop as <-. unfold _get_final_outputs in H. simpl in H. discriminate H.
  - bind_ok Hloop logits Hlogits. bind_ok Hloop pp Htopk. destruct pp as [probs preds].
    bind_ok Hloop sequences' Hupdate.
    eapply update_sequences_raises; [|exact Hupdate]. reflexivity.
Qed.

End BeamSearch.

(** On the example batch greedy decoding returns START and two tokens,
    while beam search with beam = 1 raises an [IndexError]. *)
Lemma beam_search_example_raises :
  KGSF._decode_greedy_with_kg KGSF.example_model KGSF.example_encodings
    [[0%Q]] [[0%Q]]
  = Ok ([[[0%Q; 1%Q; 0%Q]]; [[0%Q; 0%Q; 1%Q]]], [[0; 1; 2]]) /\
  KGSF.decode_beam_search_with_kg KGSF.example_model (fun x => x)
    KGSF.example_encodings [[0%Q]] [[0%Q]] 1
  = Raise IndexError.
Proof.
  split; vm_compute; reflexivity.
Qed.

(** * Further properties of the code *)

(** ** The data loader *)

Section LoaderExtras.

Import DataLoader.

Variable self : loader.

(** X1: [_get_context_tokens] needs an utterance: without one [tokens[-1]]
    raises; otherwise every utterance but the last gets the start token
    appended, and the last one is returned as it is. *)
Theorem get_context_tokens_separates :
  _get_context_tokens self [] = Raise IndexError /\
  forall (utterances : list (list Z)) (final : list Z),
    _get_context_tokens self (utterances ++ [final]) =
    Ok (((fun utter => utter ++ [start_token_idx self]) <$> utterances) ++ [final]).
Proof.
  split; [reflexivity|]. intros utterances final.
  unfold _get_context_tokens, conv_bos_id. rewrite fmap_app. simpl.
  rewrite last_snoc. f_equal. f_equal.
  - rewrite length_app. simpl.
    rewrite take_app_le by lia. apply take_ge. lia.
  - f_equal. unfold slice_to, slice_bound, len. rewrite length_app. simpl.
    replace (Z.to_nat (Z.max 0 (Z.of_nat (length final + 1) + -1)))
      with (length final) by lia.
    apply take_app_length.
Qed.

Lemma slice_from_1 {A : Type} (l : list A) : slice_from l 1 = drop 1 l.
Proof.
  destruct l as [|x l]; [reflexivity|].
  unfold slice_from, slice_bound, len. simpl length.
  replace (Z.to_nat (if 1 <? 0 then Z.max 0 (Z.of_nat (S (length l)) + 1)
                     else Z.min 1 (Z.of_nat (S (length l))))) with 1%nat
    by (destruct (Z.ltb_spec 1 0); lia).
  reflexivity.
Qed.

Lemma sample_negs_loop_spec (fuel : nat) (seq_set : gset Z) (input_ids : list Z) :
  forall (g g' : rng) (negs : list Z),
    sample_negs_loop fuel self seq_set input_ids g = Ok (negs, g') ->
    length negs = length input_ids /\ Forall (fun x => x ∉ seq_set) negs.
Proof.
  induction input_ids as [|i rest IH]; intros g g' negs; simpl.
  - intros [= <- _]. split; [reflexivity | constructor].
  - intros H. bind_ok H ng E1. destruct ng as [neg g1].
    bind_ok H rg E2. destruct rg as [ns g2]. injection H as <- _.
    destruct (IH _ _ _ E2) as [Hlen Hall]. split; [simpl; lia|].
    constructor; [|exact Hall].
    unfold _neg_sample in E1. bind_ok E1 dg Ed. destruct dg as [d gd].
    eapply neg_sample_loop_sound, E1.
Qed.

(** X2: [_process_history]: the mask and the negative samples have one entry
    per kept item, the mask is all ones, no negative sample is one of the
    kept items, and the target positions are the kept items moved one place
    to the left with the target item at the end; an empty history still has
    one target position. *)
Theorem process_history_shape (fuel : nat) (context_items : list Z) (item_id : Z)
    (g g' : rng) (h : history) :
  _process_history fuel self context_items (Some item_id) g = Ok (h, g') ->
  h_input_ids h = truncate context_items (item_truncate self) false /\
  h_input_mask h = replicate (length (h_input_ids h)) 1 /\
  length (h_sample_negs h) = length (h_input_ids h) /\
  Forall (fun neg => (neg ∉ h_input_ids h) /\ (1 <= neg <= n_entity self))
    (h_sample_negs h) /\
  h_target_pos h = Some (drop 1 (h_input_ids h) ++ [item_id]) /\
  (forall pos, h_target_pos h = Some pos ->
     length pos = Nat.max 1 (length (h_input_ids h))).
Proof.
  unfold _process_history. intros H. bind_ok H sg Es. destruct sg as [negs g1].
  injection H as <- _. simpl.
  destruct (sample_negs_loop_spec _ _ _ _ _ _ Es) as [Hlen Hout].
  pose proof (sample_negs_loop_range self _ _ _ _ _ _ Es) as Hrange.
  split; [reflexivity|]. split.
  { generalize (truncate context_items (item_truncate self) false). intros l.
    induction l as [|x l IH]; simpl; [reflexivity | f_equal; exact IH]. }
  split; [exact Hlen|]. split.
  { apply Forall_forall. intros neg Hneg. rewrite Forall_forall in Hout, Hrange.
    split; [|apply Hrange, Hneg].
    intros Hin. apply (Hout neg Hneg). apply elem_of_list_to_set. exact Hin. }
  rewrite slice_from_1. split; [reflexivity|].
  intros pos [= <-]. rewrite length_app, length_drop. simpl. lia.
Qed.

End LoaderExtras.

Lemma process_history_shape_witness :
  exists h g',
    DataLoader._process_history 3 DataLoader.example_loader [1; 2; 3] (Some 1)
      DataLoader.counting_rng = Ok (h, g') /\
    DataLoader.h_input_ids h = [2; 3] /\
    length (DataLoader.h_sample_negs h) = 2%nat.
Proof.
  eexists _, _. split; [vm_compute; reflexivity|].
  edestruct (process_history_shape DataLoader.example_loader 3 [1; 2; 3] 1
               DataLoader.counting_rng) as (Hids & _ & Hlen & _).
  - vm_compute. reflexivity.
  - split; [exact Hids | exact Hlen].
Defined.

(** ** Augmentation of a whole dataset *)

Section DatasetAugmentation.

Import DataLoader.

Lemma for_each_app {A B : Type} (f : A -> result B) (xs ys : list A) (us vs : list B) :
  for_each f xs = Ok us -> for_each f ys = Ok vs ->
  for_each f (xs ++ ys) = Ok (us ++ vs).
Proof.
  revert us. induction xs as [|x xs IH]; intros us Hx Hy; simpl in *.
  - injection Hx as <-. exact Hy.
  - bind_ok Hx u Eu. bind_ok Hx us' Eus. injection Hx as <-.
    rewrite (IH us' eq_refl Hy). reflexivity.
Qed.

Lemma for_each_Forall2_ok {A B : Type} (f : A -> result B) (xs : list A) (ys : list B) :
  Forall2 (fun x y => f x = Ok y) xs ys -> for_each f xs = Ok ys.
Proof.
  induction 1 as [|x y xs ys Hxy _ IH]; [reflexivity|].
  cbn [for_each]. rewrite Hxy. simpl. rewrite IH. reflexivity.
Qed.

(** X3: Over a dataset [rec_process_fn] expands the records one after the
    other: the result for two datasets in a row is the two results in a
    row, a record that lists no item contributes nothing, and the number of
    records returned is the number of listed items. *)
Theorem rec_process_fn_dataset (dataset : list conv_dict) (items : list (list value)) :
  Forall2 (fun d l => d !! "items"%string = Some (VList l)) dataset items ->
  rec_process_fn dataset = Ok (concat (zip_with (fun d l => augment d <$> l) dataset items)) /\
  (forall out, rec_process_fn dataset = Ok out ->
     length out = sum_list (length <$> items)) /\
  (forall more out out',
     rec_process_fn dataset = Ok out -> rec_process_fn more = Ok out' ->
     rec_process_fn (dataset ++ more) = Ok (out ++ out')).
Proof.
  intros Hitems.
  assert (Hrun : for_each expand_record dataset
                 = Ok (zip_with (fun d l => augment d <$> l) dataset items)).
  { induction Hitems as [|d l ds ls Hd _ IH]; simpl; [reflexivity|].
    rewrite (expand_record_items d l Hd). simpl. rewrite IH. reflexivity. }
  assert (Heq : rec_process_fn dataset
                = Ok (concat (zip_with (fun d l => augment d <$> l) dataset items))).
  { unfold rec_process_fn. rewrite Hrun. reflexivity. }
  split; [exact Heq|]. split.
  - intros out Hout. rewrite Heq in Hout. injection Hout as <-.
    clear Hrun Heq. induction Hitems as [|d l ds ls Hd _ IH]; simpl; [reflexivity|].
    rewrite length_app, length_fmap, IH. reflexivity.
  - intros more out out' Hout Hmore. unfold rec_process_fn in *.
    bind_ok Hout per Eper. bind_ok Hmore per' Eper'.
    injection Hout as <-. injection Hmore as <-.
    rewrite (for_each_app _ _ _ _ _ Eper Eper'). simpl. rewrite concat_app. reflexivity.
Qed.

Lemma rec_process_fn_dataset_witness :
  rec_process_fn [ {["items"%string := VList [VInt 3; VInt 8]]};
                   {["items"%string := VList []]} ]
  = Ok [ augment {["items"%string := VList [VInt 3; VInt 8]]} (VInt 3);
         augment {["items"%string := VList [VInt 3; VInt 8]]} (VInt 8) ].
Proof.
  destruct (rec_process_fn_dataset
              [ {["items"%string := VList [VInt 3; VInt 8]]};
                {["items"%string := VList []]} ]
              [[VInt 3; VInt 8]; []]) as [Hrun _].
  - repeat constructor.
  - rewrite Hrun. reflexivity.
Defined.

(** X4: One record without an ['items'] key makes [rec_process_fn] raise a
    [KeyError] for the whole dataset, wherever the record stands, as long as
    the records before it are expanded. *)
Theorem rec_process_fn_missing_items (before after : list conv_dict) (d : conv_dict)
    (expanded : list (list conv_dict)) :
  for_each expand_record before = Ok expanded ->
  d !! "items"%string = None ->
  rec_process_fn (before ++ d :: after) = Raise KeyError.
Proof.
  intros Hbefore Hd. unfold rec_process_fn.
  assert (Hrun : for_each expand_record (before ++ d :: after) = Raise KeyError).
  { revert expanded Hbefore. induction before as [|b before IH]; intros expanded Hb; simpl.
    - unfold expand_record, getitem. rewrite Hd. reflexivity.
    - simpl in Hb. bind_ok Hb x Ex. bind_ok Hb xs Exs.
      rewrite (IH xs eq_refl). reflexivity. }
  rewrite Hrun. reflexivity.
Qed.

Lemma rec_process_fn_missing_items_witness :
  rec_process_fn [ {["items"%string := VList [VInt 3]]}; ∅ ] = Raise KeyError.
Proof.
  apply (rec_process_fn_missing_items [ {["items"%string := VList [VInt 3]]} ] [] ∅
           [[augment {["items"%string := VList [VInt 3]]} (VInt 3)]]);
    reflexivity.
Defined.

(** X5: [policy_process_fn] returns, for a record whose target policies each
    carry a list of topics, one copy per topic, in the order of the
    policies and of their topics; the copy has the topic as its
    ['target_topic'] and every other field, ['target'] included, as in the
    record. *)
Theorem policy_process_fn_expansion (d : conv_dict) (policies : list value)
    (topics : list (list value)) :
  d !! "target"%string = Some (VList policies) ->
  Forall2 (fun policy ts => index1 policy = Ok (VList ts)) policies topics ->
  exists out,
    policy_process_fn [d] = Ok out /\
    out = set_target_topic d <$> concat topics /\
    length out = sum_list (length <$> topics) /\
    forall r, r ∈ out ->
      (exists topic, r !! "target_topic"%string = Some topic /\ topic ∈ concat topics) /\
      forall k, k <> "target_topic"%string -> r !! k = d !! k.
Proof.
  intros Hd Htopics.
  assert (Hrun : for_each policy_topic_variable policies = Ok topics).
  { apply for_each_Forall2_ok. eapply Forall2_impl; [exact Htopics|].
    intros p ts Hp. unfold policy_topic_variable. rewrite Hp. reflexivity. }
  exists (set_target_topic d <$> concat topics). split.
  { unfold policy_process_fn, expand_policy, getitem. simpl. rewrite Hd. simpl.
    rewrite Hrun. simpl. rewrite app_nil_r. reflexivity. }
  split; [reflexivity|]. split.
  { rewrite length_fmap. clear. induction topics as [|ts tss IH]; simpl; [reflexivity|].
    rewrite length_app, IH. reflexivity. }
  intros r Hr. apply list_elem_of_fmap in Hr as (topic & -> & Hin). split.
  - exists topic. split; [apply lookup_insert_eq | exact Hin].
  - intros k Hk. unfold set_target_topic. apply lookup_insert_ne. congruence.
Qed.

Lemma policy_process_fn_expansion_witness :
  exists out,
    policy_process_fn [example_policy_record] = Ok out /\ length out = 3%nat.
Proof.
  destruct (policy_process_fn_expansion example_policy_record
              [VList [VStr [1]; VList [VInt 10; VInt 11]];
               VList [VStr [2]; VList [VInt 12]]]
              [[VInt 10; VInt 11]; [VInt 12]])
    as (out & Hrun & _ & Hlen & _).
  - reflexivity.
  - repeat constructor.
  - exists out. split; [exact Hrun | exact Hlen].
Defined.

End DatasetAugmentation.

(** ** Interaction and enhanced contexts *)

Section Interaction.

Import DataLoader.

Variable self : loader.

Lemma for_each_raise_at {A B : Type} (f : A -> result B) (xs ys : list A) (x : A)
    (us : list B) (e : exn) :
  for_each f xs = Ok us -> f x = Raise e -> for_each f (xs ++ x :: ys) = Raise e.
Proof.
  revert us. induction xs as [|y xs IH]; intros us Hxs Hx; simpl in *.
  - rewrite Hx. reflexivity.
  - bind_ok Hxs u Eu. bind_ok Hxs us' Eus. rewrite (IH us' eq_refl Hx). reflexivity.
Qed.

(** X6: [conv_interact] reads the context tokens, entities and words of the
    record and nothing else: the four token fields it returns are one and the
    same padded context, without any enhancement by items or topics, there is
    no response, and the context, entity and word fields are those
    [conv_batchify] builds for the record on its own. *)
Theorem conv_interact_plain_context (data : conv_dict) (r : conv_interaction) :
  conv_interact self data = Ok r ->
  ci_enhanced_input_ids r = ci_context_tokens r /\
  ci_enhanced_context_tokens r = ci_context_tokens r /\
  ci_input_ids r = ci_context_tokens r /\
  ci_response r = None /\
  (forall data' : conv_dict,
     data' !! "context_tokens"%string = data !! "context_tokens"%string ->
     data' !! "context_entities"%string = data !! "context_entities"%string ->
     data' !! "context_words"%string = data !! "context_words"%string ->
     conv_interact self data' = Ok r) /\
  (forall b, conv_batchify self [data] = Ok b ->
     cb_context_tokens b = ci_context_tokens r /\
     cb_context_entities b = ci_context_entities r /\
     cb_context_words b = ci_context_words r).
Proof.
  intros H.
  assert (Hkeys : forall data' : conv_dict,
     data' !! "context_tokens"%string = data !! "context_tokens"%string ->
     data' !! "context_entities"%string = data !! "context_entities"%string ->
     data' !! "context_words"%string = data !! "context_words"%string ->
     conv_interact self data' = Ok r).
  { intros data' H1 H2 H3. rewrite <- H. unfold conv_interact, getitem.
    rewrite H1, H2, H3. reflexivity. }
  unfold conv_interact in H.
  bind_ok H ctx Ectx. bind_ok H tctx Etctx. bind_ok H ents Eents.
  bind_ok H words Ewords. bind_ok H tents Etents. bind_ok H twords Etwords.
  injection H as <-. simpl.
  split; [reflexivity|]. split; [reflexivity|]. split; [reflexivity|].
  split; [reflexivity|]. split; [exact Hkeys|].
  intros b Hb. unfold conv_batchify in Hb. bind_ok Hb rows Erows.
  simpl in Erows. bind_ok Erows row Erow. injection Erows as <-.
  unfold conv_row_of in Erow. rewrite Ectx in Erow. simpl in Erow.
  bind_ok Erow resp Eresp. bind_ok Erow ml Eml. rewrite Eents in Erow. simpl in Erow.
  rewrite Ewords in Erow. simpl in Erow. bind_ok Erow enh Eenh.
  injection Erow as <-. unfold _finalize_batch in Hb. simpl in Hb.
  rewrite Etctx in Hb. simpl in Hb.
  bind_ok Hb t2 E2. bind_ok Hb t3 E3. bind_ok Hb t4 E4. bind_ok Hb t5 E5.
  rewrite Etents in Hb. simpl in Hb. rewrite Etwords in Hb. simpl in Hb.
  injection Hb as <-. simpl. auto.
Qed.

(** X7: A record without ['items'] and ['target'] has its plain context as its
    enhanced context, so the enhanced fields of a batch of such records are
    its plain fields. *)
Theorem conv_batchify_without_enhancement (batch : list conv_dict) (b : conv_batch) :
  Forall (fun d : conv_dict => d !! "items"%string = None /\
                               d !! "target"%string = None) batch ->
  conv_batchify self batch = Ok b ->
  cb_enhanced_context_tokens b = cb_context_tokens b /\
  cb_enhanced_input_ids b = cb_input_ids b.
Proof.
  intros Hplain H. unfold conv_batchify in H. bind_ok H rows Erows.
  apply for_each_Forall2 in Erows.
  assert (Hrows : cr_enhanced_context_tokens <$> rows = cr_context_tokens <$> rows).
  { apply Forall_fmap_ext_1. apply Forall_forall. intros row Hrow.
    apply list_elem_of_lookup in Hrow as (i & Hi).
    destruct (Forall2_lookup_r _ _ _ _ _ Erows Hi) as (d & Hd & Hrow).
    rewrite Forall_forall in Hplain.
    destruct (Hplain d (list_elem_of_lookup_2 _ _ _ Hd)) as [Hitems Htarget].
    unfold conv_row_of in Hrow.
    bind_ok Hrow x1 E1. bind_ok Hrow x2 E2. bind_ok Hrow x3 E3. bind_ok Hrow x4 E4.
    bind_ok Hrow x5 E5. bind_ok Hrow x6 E6. injection Hrow as <-. simpl.
    unfold _get_enhanced_context_tokens, _get_enhanced_topic, _get_enhanced_movie,
      contains in E6.
    rewrite Hitems, Htarget in E6.
    rewrite !bool_decide_eq_false_2 in E6 by (intros [v Hv]; discriminate Hv).
    simpl in E6. injection E6 as <-. reflexivity. }
  unfold _finalize_batch in H. rewrite Hrows in H.
  bind_ok H t1 E1. bind_ok H t2 E2. bind_ok H t3 E3.
  bind_ok H t6 E6. bind_ok H t7 E7.
  injection H as <-. simpl. auto.
Qed.

(** X8: A token that the vocabulary does not know becomes the unknown token,
    so [token_ids] never fails and keeps the number of tokens; a movie id
    that [id2entity] does not know raises a [KeyError] as soon as the movies
    before it are looked up. *)
Theorem unknown_token_and_movie (d : conv_dict) :
  (forall tokens : list pystr,
     length (token_ids self tokens) = length tokens /\
     forall i token, tokens !! i = Some token ->
       token_ids self tokens !! i =
       Some (match tok2ind self !! token with
             | Some id => id
             | None => unk_token_idx self
             end)) /\
  (forall (known rest : list value) (movie_id : Z) (ids : list (list Z)),
     d !! "items"%string = Some (VList (known ++ VInt movie_id :: rest)) ->
     for_each (fun movie_id => toks ← movie_tokens self movie_id;
                               Ok (token_ids self toks)) known = Ok ids ->
     id2entity self !! movie_id = None ->
     _get_enhanced_movie self d = Raise KeyError).
Proof.
  split.
  - intros tokens. unfold token_ids. split; [apply length_fmap|].
    intros i token Hi. rewrite list_lookup_fmap, Hi. simpl.
    destruct (tok2ind self !! token); reflexivity.
  - intros known rest movie_id ids Hd Hknown Hmovie.
    unfold _get_enhanced_movie, contains, getitem. rewrite Hd.
    rewrite bool_decide_eq_true_2 by (eexists; reflexivity). simpl.
    rewrite (for_each_raise_at _ known rest (VInt movie_id) ids KeyError Hknown);
      [reflexivity|].
    unfold movie_tokens, getitem. rewrite Hmovie. reflexivity.
Qed.

End Interaction.

Lemma conv_interact_plain_context_witness :
  exists r,
    DataLoader.conv_interact DataLoader.example_loader DataLoader.example_record = Ok r /\
    DataLoader.ci_enhanced_context_tokens r = DataLoader.ci_context_tokens r /\
    DataLoader.ci_context_tokens r = [[0; 0; 5; 6]].
Proof.
  eexists. split; [vm_compute; reflexivity|].
  edestruct (conv_interact_plain_context DataLoader.example_loader
               DataLoader.example_record) as (_ & Hsame & _).
  - vm_compute. reflexivity.
  - split; [exact Hsame | reflexivity].
Defined.

Lemma conv_batchify_without_enhancement_witness :
  exists b,
    DataLoader.conv_batchify DataLoader.example_loader [DataLoader.example_record] = Ok b /\
    DataLoader.cb_enhanced_input_ids b = DataLoader.cb_input_ids b.
Proof.
  eexists. split; [vm_compute; reflexivity|].
  edestruct (conv_batchify_without_enhancement DataLoader.example_loader
               [DataLoader.example_record]) as [_ Hsame].
  - repeat constructor.
  - vm_compute. reflexivity.
  - exact Hsame.
Defined.

Lemma unknown_token_and_movie_witness :
  DataLoader._get_enhanced_movie DataLoader.example_loader
    {["items"%string := VList [VInt 4]]} = Raise KeyError.
Proof.
  apply (proj2 (unknown_token_and_movie DataLoader.example_loader
                  {["items"%string := VList [VInt 4]]}) [] [] 4 []);
    reflexivity.
Defined.

(** ** Decoding, pretraining and the recommender *)

Lemma argmax_from_spec (l : KGSF.vec) :
  forall (pre : KGSF.vec) (best : Q) (bi idx : Z),
  idx = len pre -> 0 <= bi < idx -> pre !! Z.to_nat bi = Some best ->
  (forall y, y ∈ pre -> (y <= best)%Q) ->
  (forall (j : nat) y, (j < Z.to_nat bi)%nat -> pre !! j = Some y -> (y < best)%Q) ->
  0 <= KGSF.argmax_from best bi idx l < len (pre ++ l) /\
  exists x, (pre ++ l) !! Z.to_nat (KGSF.argmax_from best bi idx l) = Some x /\
    (forall y, y ∈ pre ++ l -> (y <= x)%Q) /\
    (forall (j : nat) y, (j < Z.to_nat (KGSF.argmax_from best bi idx l))%nat ->
       (pre ++ l) !! j = Some y -> (y < x)%Q).
Proof.
  induction l as [|x rest IH]; intros pre best bi idx Hidx Hbi Hbest Hmax Hfirst; simpl.
  - rewrite app_nil_r. split; [unfold len in *; lia|]. exists best. auto.
  - replace (pre ++ x :: rest) with ((pre ++ [x]) ++ rest)
      by (rewrite <- app_assoc; reflexivity).
    destruct (Qle_bool x best) eqn:Hle.
    + apply Qle_bool_iff in Hle. apply IH.
      * unfold len in *. rewrite length_app. simpl. lia.
      * lia.
      * rewrite lookup_app_l; [exact Hbest|]. unfold len in *. lia.
      * intros y Hy. apply elem_of_app in Hy as [Hy|Hy]; [auto|].
        apply list_elem_of_singleton in Hy as ->. exact Hle.
      * intros j y Hj Hy. rewrite lookup_app_l in Hy; [eauto|]. unfold len in *. lia.
    + assert (Hlt : (best < x)%Q).
      { apply Qnot_le_lt. intros Hc. apply Qle_bool_iff in Hc. congruence. }
      apply IH.
      * unfold len in *. rewrite length_app. simpl. lia.
      * unfold len in *. lia.
      * subst idx. unfold len. rewrite Nat2Z.id. apply list_lookup_middle. reflexivity.
      * intros y Hy. apply elem_of_app in Hy as [Hy|Hy].
        -- apply Qlt_le_weak. eapply Qle_lt_trans; [apply Hmax, Hy | exact Hlt].
        -- apply list_elem_of_singleton in Hy as ->. apply Qle_refl.
      * intros j y Hj Hy. subst idx. unfold len in Hj. rewrite Nat2Z.id in Hj.
        rewrite lookup_app_l in Hy by lia.
        eapply Qle_lt_trans; [apply Hmax | exact Hlt].
        eapply list_elem_of_lookup_2. exact Hy.
Qed.

Lemma argmax_spec (l : KGSF.vec) (p : Z) :
  KGSF.argmax l = Ok p ->
  0 <= p < len l /\
  exists x, l !! Z.to_nat p = Some x /\
    (forall y, y ∈ l -> (y <= x)%Q) /\
    (forall (j : nat) y, (j < Z.to_nat p)%nat -> l !! j = Some y -> (y < x)%Q).
Proof.
  destruct l as [|x rest]; simpl; intros H; [discriminate H|].
  injection H as <-.
  apply (argmax_from_spec rest [x] x 0 1).
  - reflexivity.
  - lia.
  - reflexivity.
  - intros y Hy. apply list_elem_of_singleton in Hy as ->. apply Qle_refl.
  - intros j y Hj. simpl in Hj. lia.
Qed.

Lemma Qsquare_nonneg (a : Q) : (0 <= a * a)%Q.
Proof. destruct a as [n d]. unfold Qle. simpl. nia. Qed.

Lemma foldr_Qplus_nonneg (xs : list Q) :
  Forall (fun x => (0 <= x)%Q) xs -> (0 <= foldr Qplus 0%Q xs)%Q.
Proof.
  induction 1 as [|x xs Hx _ IH]; simpl; [apply Qle_refl|].
  replace 0%Q with (0 + 0)%Q at 1 by reflexivity. apply Qplus_le_compat; assumption.
Qed.

Lemma index_row_ok {A : Type} (reps : list A) (i : Z) :
  - len reps <= i < len reps -> exists x, KGSF.index_row reps i = Ok x.
Proof.
  intros Hi. unfold KGSF.index_row.
  set (j := if i <? 0 then i + len reps else i).
  assert (Hj : 0 <= j < len reps) by (subst j; destruct (Z.ltb_spec i 0); lia).
  replace ((j <? 0) || (len reps <=? j)) with false by lia.
  destruct (reps !! Z.to_nat j) as [x|] eqn:Hx; [eauto|].
  apply lookup_ge_None in Hx. unfold len in Hj. lia.
Qed.

Lemma index_row_raises {A : Type} (reps : list A) (i : Z) :
  ~ (- len reps <= i < len reps) -> KGSF.index_row reps i = Raise IndexError.
Proof.
  intros Hi. unfold KGSF.index_row.
  set (j := if i <? 0 then i + len reps else i).
  assert (Hj : ~ (0 <= j < len reps)) by (subst j; destruct (Z.ltb_spec i 0); lia).
  replace ((j <? 0) || (len reps <=? j)) with true by lia. reflexivity.
Qed.

Lemma for_each_partition {A B : Type} (f : A -> result B) (P : A -> Prop) (e : exn)
    (P_dec : forall x, Decision (P x)) :
  (forall x, P x -> exists y, f x = Ok y) ->
  (forall x, ~ P x -> f x = Raise e) ->
  forall l, (Forall P l -> exists ys, for_each f l = Ok ys) /\
            (~ Forall P l -> for_each f l = Raise e).
Proof.
  intros Hok Hraise. induction l as [|x l [IHok IHraise]]; simpl.
  - split; [eauto|]. intros Hall. exfalso. apply Hall. constructor.
  - destruct (P_dec x) as [Hx|Hx].
    + destruct (Hok x Hx) as [y ->]. simpl. split.
      * intros Hall. apply Forall_cons in Hall as [_ Hall].
        destruct (IHok Hall) as [ys ->]. simpl. eauto.
      * intros Hall. rewrite IHraise; [reflexivity|].
        intros Hl. apply Hall. constructor; assumption.
    + rewrite (Hraise x Hx). simpl. split; [|reflexivity].
      intros Hall. apply Forall_cons in Hall as [Hall _]. contradiction.
Qed.

Lemma index_rows_partition {A : Type} (reps : list A) (ids : list (list Z)) :
  (Forall (Forall (fun i => - len reps <= i < len reps)) ids ->
     exists rows, KGSF.index_rows reps ids = Ok rows) /\
  (~ Forall (Forall (fun i => - len reps <= i < len reps)) ids ->
     KGSF.index_rows reps ids = Raise IndexError).
Proof.
  unfold KGSF.index_rows.
  apply (for_each_partition _ (Forall (fun i => - len reps <= i < len reps))
           IndexError _).
  - intros row. apply (for_each_partition _ (fun i => - len reps <= i < len reps)
                         IndexError _ (index_row_ok reps) (index_row_raises reps)).
  - intros row. apply (for_each_partition _ (fun i => - len reps <= i < len reps)
                         IndexError _ (index_row_ok reps) (index_row_raises reps)).
Qed.

Section ModelExtras.

Import KGSF System.

Context {St : Type}.
Variable self : model (St:=St).

(** X9: Forced decoding never reads the last token of a response: two batches
    of responses that differ in the last token of their rows only give the
    same logits and the same predictions. *)
Theorem forced_decoding_ignores_last_token (enc : encodings) (e w : list vec)
    (response response' : list (list Z)) :
  Forall2 (fun row row' : list Z =>
             exists init x y, row = init ++ [x] /\ row' = init ++ [y])
          response response' ->
  _decode_forced_with_kg self enc e w response =
  _decode_forced_with_kg self enc e w response'.
Proof.
  intros H.
  assert (Hin : forced_inputs self response = forced_inputs self response').
  { unfold forced_inputs. rewrite (Forall2_length _ _ _ H). f_equal.
    induction H as [|row row' rs rs' (init & x & y & -> & ->) _ IH]; [reflexivity|].
    rewrite !fmap_cons, IH. f_equal.
    rewrite !slice_to_drop_last, !length_app. simpl.
    replace (length init + 1 - 1)%nat with (length init) by lia.
    rewrite !take_app_length. reflexivity. }
  assert (Hlen : length (default [] (head response)) =
                 length (default [] (head response'))).
  { destruct H as [|row row' ? ? (init & x & y & -> & ->)]; simpl; [reflexivity|].
    rewrite !length_app. reflexivity. }
  unfold _decode_forced_with_kg. rewrite Hin, Hlen. reflexivity.
Qed.

(** X10: Every token forced decoding predicts is a position of the logits it
    is taken from, holds their largest value, and is the first position to
    do so. *)
Theorem forced_predictions_first_maximum (enc : encodings) (e w : list vec)
    (response : list (list Z)) (logits : list (list vec)) (preds : list (list Z)) :
  _decode_forced_with_kg self enc e w response = Ok (logits, preds) ->
  Forall2 (Forall2 (fun (scores : vec) (p : Z) =>
    0 <= p < len scores /\
    exists x, scores !! Z.to_nat p = Some x /\
      (forall y, y ∈ scores -> (y <= x)%Q) /\
      (forall (j : nat) y, (j < Z.to_nat p)%nat -> scores !! j = Some y -> (y < x)%Q)))
    logits preds.
Proof.
  intros H. apply forced_preds_argmax in H.
  eapply Forall2_impl; [exact H|]. intros row prow Hrow. simpl in Hrow.
  eapply Forall2_impl; [exact Hrow|]. intros scores p Hp. simpl in Hp.
  apply argmax_spec. exact Hp.
Qed.

(** X11: A pretraining batch whose labels sum to zero is skipped whatever its
    word ids are: the model returns [None] before it looks any of them up,
    and the step records nothing. *)
Theorem pretrain_without_labels (item_ids : list Z) (words : list (list Z))
    (labels : list vec) (mode : string) (log : list event) :
  (sum_all labels == 0)%Q ->
  pretrain_infomax self words labels = Ok None /\
  step self item_ids (PretrainBatch words labels) "pretrain" mode log = Ok log.
Proof.
  intros H. apply Qeq_bool_iff in H.
  assert (Hp : pretrain_infomax self words labels = Ok None).
  { unfold pretrain_infomax. rewrite H. reflexivity. }
  split; [exact Hp|].
  unfold step, _handle_pretrain_stage, forward. simpl. rewrite Hp. reflexivity.
Qed.

(** X12: A pretraining step on labels that do not sum to zero makes its
    gradient update in every mode, not only in training: when it returns,
    the word ids were valid rows of the word encoder and the step recorded
    a gradient update on the infomax loss and the loss itself. *)
Theorem pretrain_updates_in_every_mode (item_ids : list Z) (words : list (list Z))
    (labels : list vec) (mode : string) (log log' : list event) :
  ~ (sum_all labels == 0)%Q ->
  step self item_ids (PretrainBatch words labels) "pretrain" mode log = Ok log' ->
  exists reps,
    index_rows (word_encoder self) words = Ok reps /\
    Forall (Forall (fun i => - len (word_encoder self) <= i < len (word_encoder self)))
           words /\
    let attn := word_self_attn self reps (eq_mask words (pad_word_idx self)) in
    let loss := (infomax_loss (info_predict self attn) labels / sum_all labels)%Q in
    log' = log ++ [Backward loss; OptimMetric "info_loss" loss].
Proof.
  intros Hsum H.
  assert (Hb : Qeq_bool (sum_all labels) 0 = false).
  { destruct (Qeq_bool (sum_all labels) 0) eqn:Hb; [|reflexivity].
    apply Qeq_bool_iff in Hb. contradiction. }
  unfold step, _handle_pretrain_stage, forward in H. simpl in H.
  unfold pretrain_infomax in H. rewrite Hb in H.
  destruct (index_rows (word_encoder self) words) as [reps| |] eqn:Hreps;
    simpl in H; try discriminate H.
  injection H as <-. exists reps. split; [reflexivity|]. split; [|reflexivity].
  destruct (decide (Forall (Forall (fun i => - len (word_encoder self) <= i
                                              < len (word_encoder self))) words))
    as [Hv|Hv]; [exact Hv|].
  apply (index_rows_partition (word_encoder self) words) in Hv. congruence.
Qed.

(** X13: The infomax loss is a sum of squares divided by the sum of the labels:
    with labels of a positive sum the loss [pretrain_infomax] and
    [recommend] return is never negative. *)
Theorem infomax_loss_nonnegative (words ce cw : list (list Z)) (labels : list vec)
    (movie : list Z) (mode : string) :
  (0 < sum_all labels)%Q ->
  (forall loss, pretrain_infomax self words labels = Ok (Some loss) -> (0 <= loss)%Q) /\
  (forall rl loss scores,
     recommend self ce cw labels movie mode = Ok (rl, Some loss, scores) ->
     (0 <= loss)%Q).
Proof.
  intros Hpos.
  assert (Hsq : forall predict : list vec, (0 <= infomax_loss predict labels)%Q).
  { intros predict. unfold infomax_loss, sum_all. apply foldr_Qplus_nonneg.
    apply Forall_concat. generalize labels. clear.
    induction predict as [|p predict IH]; intros [|l labels]; simpl; try constructor.
    - clear. revert l. induction p as [|a p IH]; intros [|b l]; simpl; try constructor.
      + apply Qsquare_nonneg.
      + apply IH.
    - apply IH. }
  assert (Hdiv : forall predict : list vec,
             (0 <= infomax_loss predict labels / sum_all labels)%Q).
  { intros predict. apply Qle_shift_div_l; [exact Hpos|].
    rewrite Qmult_0_l. apply Hsq. }
  split.
  - intros loss H. unfold pretrain_infomax in H.
    destruct (Qeq_bool (sum_all labels) 0); [discriminate H|].
    bind_ok H reps Hreps. injection H as <-. apply Hdiv.
  - intros rl loss scores H. unfold recommend in H.
    bind_ok H er Her. bind_ok H wr Hwr.
    destruct (Qeq_bool (sum_all labels) 0); [discriminate H|].
    injection H as _ <- _. apply Hdiv.
Qed.

(** X14: with the layers and the loss as the functions of the model record,
    the two lookups are the steps of [recommend] that can fail: it returns
    exactly when every context entity is a row of the entity encoder and
    every context word a row of the word encoder (an id may count from the
    end); with any other id it raises an [IndexError]. *)
Theorem recommend_index_range (ce cw : list (list Z)) (entities : list vec)
    (movie : list Z) (mode : string) :
  let valid := fun (reps : list vec) (i : Z) => - len reps <= i < len reps in
  let all_valid := Forall (Forall (valid (entity_encoder self))) ce /\
                   Forall (Forall (valid (word_encoder self))) cw in
  (all_valid ->
     exists rl il scores, recommend self ce cw entities movie mode = Ok (rl, il, scores)) /\
  (~ all_valid -> recommend self ce cw entities movie mode = Raise IndexError).
Proof.
  intros valid all_valid. subst valid all_valid. unfold recommend.
  destruct (index_rows_partition (entity_encoder self) ce) as [Heok Heraise].
  destruct (index_rows_partition (word_encoder self) cw) as [Hwok Hwraise].
  split.
  - intros [He Hw]. destruct (Heok He) as [er ->]. destruct (Hwok Hw) as [wr ->].
    simpl. eauto.
  - intros Hn.
    destruct (decide (Forall (Forall (fun i => - len (entity_encoder self) <= i
                                               < len (entity_encoder self))) ce))
      as [He|He].
    + destruct (Heok He) as [er ->]. simpl. rewrite Hwraise; [reflexivity|].
      intros Hw. apply Hn. split; assumption.
    + rewrite (Heraise He). reflexivity.
Qed.

End ModelExtras.

Lemma forced_decoding_ignores_last_token_witness :
  KGSF._decode_forced_with_kg KGSF.example_model KGSF.example_encodings
    [[0%Q]] [[0%Q]] [[1; 2]] =
  KGSF._decode_forced_with_kg KGSF.example_model KGSF.example_encodings
    [[0%Q]] [[0%Q]] [[1; 0]].
Proof.
  apply (forced_decoding_ignores_last_token KGSF.example_model KGSF.example_encodings
           [[0%Q]] [[0%Q]] [[1; 2]] [[1; 0]]).
  constructor; [|constructor]. exists [1], 2, 0. split; reflexivity.
Defined.

Lemma forced_predictions_first_maximum_witness :
  exists logits preds,
    KGSF._decode_forced_with_kg KGSF.example_model KGSF.example_encodings
      [[0%Q]] [[0%Q]] [[1; 2]] = Ok (logits, preds) /\
    preds = [[1; 2]] /\
    Forall2 (Forall2 (fun (scores : KGSF.vec) (p : Z) => 0 <= p < len scores))
      logits preds.
Proof.
  eexists _, _. split; [vm_compute; reflexivity|]. split; [reflexivity|].
  eapply Forall2_impl.
  - apply (forced_predictions_first_maximum KGSF.example_model KGSF.example_encodings
             [[0%Q]] [[0%Q]] [[1; 2]]). vm_compute. reflexivity.
  - intros row prow Hrow. eapply Forall2_impl; [exact Hrow|].
    intros scores p [Hp _]. exact Hp.
Defined.

Lemma pretrain_without_labels_witness :
  System.step KGSF.example_model [0; 1] (KGSF.PretrainBatch [[7]] [[0%Q; 0%Q]])
    "pretrain" "train" [] = Ok [].
Proof.
  apply (pretrain_without_labels KGSF.example_model [0; 1] [[7]] [[0%Q; 0%Q]]
           "train" []).
  reflexivity.
Defined.

Lemma pretrain_updates_in_every_mode_witness :
  exists loss,
    System.step KGSF.example_model [0; 1] (KGSF.PretrainBatch [[1]] [[1%Q; 0%Q]])
      "pretrain" "test" [] =
    Ok [System.Backward loss; System.OptimMetric "info_loss" loss].
Proof.
  edestruct (pretrain_updates_in_every_mode KGSF.example_model [0; 1] [[1]]
               [[1%Q; 0%Q]] "test" []) as (reps & _ & _ & Hlog).
  - intros H. vm_compute in H. discriminate H.
  - vm_compute. reflexivity.
  - eexists. vm_compute. reflexivity.
Defined.

Lemma recommend_index_range_witness :
  KGSF.recommend KGSF.example_model [[5]] [[0]] [] [0] "train" = Raise IndexError.
Proof.
  apply (proj2 (recommend_index_range KGSF.example_model [[5]] [[0]] [] [0] "train")).
  intros [He _]. apply Forall_cons in He as [He _]. apply Forall_cons in He as [He _].
  unfold len in He. simpl in He. lia.
Defined.

Lemma infomax_loss_nonnegative_witness :
  exists loss,
    KGSF.pretrain_infomax KGSF.example_model [[1]] [[1%Q; 0%Q]] = Ok (Some loss) /\
    (0 <= loss)%Q.
Proof.
  eexists. split; [vm_compute; reflexivity|].
  assert (Hpos : (0 < KGSF.sum_all [[1%Q; 0%Q]])%Q) by reflexivity.
  eapply (proj1 (infomax_loss_nonnegative KGSF.example_model [[1]] [[1]] [[1]]
                   [[1%Q; 0%Q]] [0] "train" Hpos)).
  vm_compute. reflexivity.
Defined.

(** ** Frozen parameters *)

Section FreezingExtras.

Import KGSF.

Variable parameters : Layer.t -> list string.

(** X15: Freezing only ever clears [requires_grad]: it keeps the names and the
    values of all parameters, never makes a frozen parameter trainable
    again, and freezing twice is freezing once. *)
Theorem freeze_parameters_idempotent (store : gmap string parameter) :
  freeze_parameters parameters (freeze_parameters parameters store) =
    freeze_parameters parameters store /\
  dom (freeze_parameters parameters store) = dom store /\
  (forall name p', freeze_parameters parameters store !! name = Some p' ->
     exists p, store !! name = Some p /\ data p' = data p /\
               (requires_grad p' = true -> requires_grad p = true)).
Proof.
  split; [|split].
  - apply map_eq. intros name. rewrite !freeze_parameters_lookup.
    destruct (decide (name ∈ concat (parameters <$> freeze_models))); [|reflexivity].
    destruct (store !! name) as [[d r]|]; reflexivity.
  - apply set_eq. intros name. rewrite !elem_of_dom, freeze_parameters_lookup.
    destruct (decide (name ∈ concat (parameters <$> freeze_models))); [|reflexivity].
    apply fmap_is_Some.
  - intros name p' H. rewrite freeze_parameters_lookup in H.
    destruct (decide (name ∈ concat (parameters <$> freeze_models))).
    + destruct (store !! name) as [p|]; [|discriminate H]. injection H as <-.
      exists p. split; [reflexivity|]. split; [reflexivity|]. discriminate.
    + exists p'. auto.
Qed.

End FreezingExtras.

(** ** Ranking the recommendations *)

Section Ranking.

Import KGSF System.

Lemma insert_desc_perm {A : Type} (key : A -> Q) (x : A) (l : list A) :
  insert_desc key x l ≡ₚ x :: l.
Proof.
  induction l as [|y l IH]; simpl; [reflexivity|].
  destruct (Qle_bool (key y) (key x)); [reflexivity|].
  rewrite IH. apply Permutation_swap.
Qed.

Lemma sorted_desc_perm {A : Type} (key : A -> Q) (l : list A) :
  sorted_desc key l ≡ₚ l.
Proof.
  unfold sorted_desc. induction l as [|x l IH]; simpl; [reflexivity|].
  rewrite insert_desc_perm, IH. reflexivity.
Qed.

Lemma insert_desc_sorted {A : Type} (key : A -> Q) (x : A) (l : list A) :
  StronglySorted (fun a b => (key b <= key a)%Q) l ->
  StronglySorted (fun a b => (key b <= key a)%Q) (insert_desc key x l).
Proof.
  induction 1 as [|y l Hl IH Hy]; simpl.
  - constructor; constructor.
  - destruct (Qle_bool (key y) (key x)) eqn:Hle.
    + apply Qle_bool_iff in Hle. constructor; [constructor; assumption|].
      constructor; [exact Hle|].
      eapply Forall_impl; [exact Hy|]. intros z Hz. simpl in Hz.
      eapply Qle_trans; [exact Hz | exact Hle].
    + assert (Hlt : (key x < key y)%Q).
      { apply Qnot_le_lt. intros Hc. apply Qle_bool_iff in Hc. congruence. }
      constructor; [exact IH|].
      rewrite insert_desc_perm. constructor; [apply Qlt_le_weak, Hlt | exact Hy].
Qed.

Lemma sorted_desc_sorted {A : Type} (key : A -> Q) (l : list A) :
  StronglySorted (fun a b => (key b <= key a)%Q) (sorted_desc key l).
Proof.
  unfold sorted_desc. induction l as [|x l IH]; simpl; [constructor|].
  apply insert_desc_sorted, IH.
Qed.

Lemma StronglySorted_lookup {A : Type} (R : A -> A -> Prop) (l : list A) :
  StronglySorted R l ->
  forall (i j : nat) a b, (i < j)%nat -> l !! i = Some a -> l !! j = Some b -> R a b.
Proof.
  induction 1 as [|x l Hl IH Hx]; intros i j a b Hij Ha Hb; [discriminate Ha|].
  destruct j as [|j]; [lia|]. simpl in Hb. destruct i as [|i]; simpl in Ha.
  - injection Ha as <-. rewrite Forall_forall in Hx. apply Hx.
    eapply list_elem_of_lookup_2. exact Hb.
  - apply (IH i j); [lia | assumption | assumption].
Qed.

(** [topk]: the indices are [k] distinct positions of the vector, listed
    with their values from the best down, and no position left out holds a
    better value than one that was taken. *)
Lemma topk_spec (k : nat) (v : vec) (vals : vec) (idxs : list Z) :
  topk k v = Ok (vals, idxs) ->
  (k <= length v)%nat /\ length idxs = k /\ NoDup idxs /\
  Forall2 (fun s r => 0 <= r < len v /\ v !! Z.to_nat r = Some s) vals idxs /\
  (forall (a b : nat) sa sb, (a < b)%nat -> vals !! a = Some sa -> vals !! b = Some sb ->
     (sb <= sa)%Q) /\
  (forall (j : nat) s s', v !! j = Some s -> Z.of_nat j ∉ idxs -> s' ∈ vals ->
     (s <= s')%Q).
Proof.
  unfold topk. destruct (Nat.ltb_spec (length v) k) as [Hlt|Hge]; [discriminate|].
  intros H. injection H as <- <-.
  set (pairs := zip v (seqZ 0 (len v))).
  set (sorted := sorted_desc fst pairs).
  assert (Hperm : sorted ≡ₚ pairs) by apply sorted_desc_perm.
  assert (Hsorted : StronglySorted (fun a b : Q * Z => (b.1 <= a.1)%Q) sorted)
    by apply (sorted_desc_sorted fst).
  assert (Hlen : length sorted = length v).
  { rewrite Hperm. subst pairs. rewrite length_zip, length_seqZ. unfold len. lia. }
  assert (Hpair : forall s r, (s, r) ∈ pairs <->
            0 <= r < len v /\ v !! Z.to_nat r = Some s).
  { intros s r. subst pairs. rewrite list_elem_of_lookup. split.
    - intros (i & Hi). apply lookup_zip_Some in Hi as [Hs Hr].
      apply lookup_seqZ in Hr as [-> Hr].
      replace (Z.to_nat (0 + Z.of_nat i)) with i by lia.
      split; [lia | exact Hs].
    - intros [Hr Hs]. exists (Z.to_nat r). apply lookup_zip_Some.
      split; [exact Hs|]. apply lookup_seqZ. split; lia. }
  assert (Hsnd : NoDup (sorted.*2)).
  { rewrite Hperm. subst pairs. rewrite snd_zip.
    - apply NoDup_seqZ.
    - rewrite length_seqZ. unfold len. lia. }
  split; [exact Hge|]. split; [|split; [|split; [|split]]].
  - rewrite length_fmap, length_take. lia.
  - rewrite fmap_take. eapply sublist_NoDup; [exact Hsnd | apply sublist_take].
  - apply Forall2_fmap. apply Forall_Forall2_diag. apply Forall_forall.
    intros [s r] Hin. simpl. apply Hpair. rewrite <- Hperm.
    eapply elem_of_sublist; [exact Hin | apply sublist_take].
  - intros a b sa sb Hab Ha Hb.
    rewrite list_lookup_fmap in Ha, Hb.
    destruct (take k sorted !! a) as [pa|] eqn:Epa; [|discriminate Ha].
    destruct (take k sorted !! b) as [pb|] eqn:Epb; [|discriminate Hb].
    simpl in Ha, Hb. injection Ha as <-. injection Hb as <-.
    apply lookup_take_Some in Epa as [Epa _]. apply lookup_take_Some in Epb as [Epb _].
    exact (StronglySorted_lookup _ _ Hsorted a b pa pb Hab Epa Epb).
  - intros j s s' Hs Hout Hin.
    assert (Hj : (s, Z.of_nat j) ∈ sorted).
    { rewrite Hperm. apply Hpair. rewrite Nat2Z.id.
      split; [|exact Hs]. apply lookup_lt_Some in Hs. unfold len. lia. }
    apply list_elem_of_lookup in Hj as (n & Hn).
    apply list_elem_of_fmap in Hin as (p & -> & Hp).
    apply list_elem_of_lookup in Hp as (m & Hm).
    apply lookup_take_Some in Hm as [Hm Hmk].
    destruct (Nat.lt_ge_cases n k) as [Hnk|Hnk].
    + exfalso. apply Hout. apply list_elem_of_fmap. exists (s, Z.of_nat j).
      split; [reflexivity|]. eapply list_elem_of_lookup_2.
      apply lookup_take_Some. split; [exact Hn | exact Hnk].
    + exact (StronglySorted_lookup _ _ Hsorted m n p (s, Z.of_nat j)
               ltac:(lia) Hm Hn).
Qed.

Lemma list_index_spec (x : Z) (l : list Z) (i : Z) :
  list_index x l = Ok i ->
  0 <= i /\ l !! Z.to_nat i = Some x /\
  forall j : nat, (j < Z.to_nat i)%nat -> l !! j <> Some x.
Proof.
  revert i. induction l as [|y l IH]; intros i H; simpl in H; [discriminate H|].
  destruct (Z.eqb_spec y x) as [->|Hne].
  - injection H as <-. split; [lia|]. split; [reflexivity|]. intros j Hj. simpl in Hj. lia.
  - bind_ok H i' Hi'. injection H as <-.
    destruct (IH i' eq_refl) as (Hpos & Hget & Hfirst).
    split; [lia|]. replace (Z.to_nat (i' + 1)) with (S (Z.to_nat i')) by lia.
    split; [exact Hget|]. intros [|j] Hj; simpl.
    + intros [= Heq]. contradiction.
    + apply Hfirst. lia.
Qed.

(** X16: When [rec_evaluate] returns for a batch with a row, there are at
    least 50 item entities, and the evaluator was called once per example
    (as far as scores and labels both go) with 50 distinct positions of the
    item list, listed from the best score of the example down, and with the
    first position of the example's label in the item list. *)
Theorem rec_evaluate_calls (item_ids : list Z) (rec_predict : list vec)
    (item_label : list Z) (calls : list (list Z * Z)) :
  rec_predict <> [] ->
  rec_evaluate item_ids rec_predict item_label = Ok calls ->
  (50 <= length item_ids)%nat /\
  length calls = Nat.min (length rec_predict) (length item_label) /\
  forall (i : nat) rec_rank item, calls !! i = Some (rec_rank, item) ->
    exists row label scores,
      rec_predict !! i = Some row /\ item_label !! i = Some label /\
      Forall2 (fun id s => index_row row id = Ok s) item_ids scores /\
      length rec_rank = 50%nat /\ NoDup rec_rank /\
      Forall (fun r => 0 <= r < len item_ids) rec_rank /\
      (forall (a b : nat) ra rb, (a < b)%nat ->
         rec_rank !! a = Some ra -> rec_rank !! b = Some rb ->
         exists sa sb, scores !! Z.to_nat ra = Some sa /\
                       scores !! Z.to_nat rb = Some sb /\ (sb <= sa)%Q) /\
      0 <= item /\ item_ids !! Z.to_nat item = Some label /\
      (forall j : nat, (j < Z.to_nat item)%nat -> item_ids !! j <> Some label).
Proof.
  intros Hne H. unfold rec_evaluate in H.
  bind_ok H picked Hpicked. bind_ok H ranks Hranks.
  apply for_each_Forall2 in Hpicked, Hranks, H.
  assert (Hrank : forall (i : nat) rec_rank, ranks !! i = Some rec_rank ->
            exists row scores vals,
              rec_predict !! i = Some row /\
              Forall2 (fun id s => index_row row id = Ok s) item_ids scores /\
              topk 50 scores = Ok (vals, rec_rank)).
  { intros i rec_rank Hi.
    destruct (Forall2_lookup_r _ _ _ _ _ Hranks Hi) as (scores & Hscores & Htop).
    destruct (Forall2_lookup_r _ _ _ _ _ Hpicked Hscores) as (row & Hrow & Hpick).
    simpl in Htop, Hpick. apply for_each_Forall2 in Hpick.
    bind_ok Htop ranked Hranked. destruct ranked as [vals idxs].
    injection Htop as <-. exists row, scores, vals. auto. }
  split; [|split].
  - destruct rec_predict as [|row0 rest]; [contradiction|].
    apply Forall2_cons_inv_l in Hpicked as (scores0 & picked' & Hpick0 & _ & ->).
    apply Forall2_cons_inv_l in Hranks as (rank0 & ranks' & Htop0 & _ & ->).
    simpl in Htop0, Hpick0. apply for_each_Forall2 in Hpick0.
    bind_ok Htop0 ranked Hranked. destruct ranked as [vals idxs].
    apply topk_spec in Hranked as (Hk & _).
    rewrite (Forall2_length _ _ _ Hpick0). exact Hk.
  - rewrite <- (Forall2_length _ _ _ H), length_zip.
    rewrite <- (Forall2_length _ _ _ Hranks), <- (Forall2_length _ _ _ Hpicked).
    reflexivity.
  - intros i rec_rank item Hi.
    destruct (Forall2_lookup_r _ _ _ _ _ H Hi) as ([rank0 label] & Hzip & Hcall).
    apply lookup_zip_Some in Hzip as [Hrank0 Hlabel]. simpl in Hcall.
    bind_ok Hcall pos Hpos. injection Hcall as <- <-.
    destruct (Hrank i rank0 Hrank0) as (row & scores & vals & Hrow & Hscores & Htop).
    apply topk_spec in Htop as (Hk & Hlen & Hnodup & Hvals & Hdesc & _).
    apply list_index_spec in Hpos as (Hpos0 & Hposget & Hfirst).
    assert (Hsl : len scores = len item_ids).
    { unfold len. rewrite (Forall2_length _ _ _ Hscores). reflexivity. }
    exists row, label, scores.
    split; [exact Hrow|]. split; [exact Hlabel|]. split; [exact Hscores|].
    split; [exact Hlen|]. split; [exact Hnodup|]. split; [|split].
    + apply Forall_forall. intros r Hr. apply list_elem_of_lookup in Hr as (a & Ha).
      destruct (Forall2_lookup_r _ _ _ _ _ Hvals Ha) as (s & _ & Hs & _). lia.
    + intros a b ra rb Hab Ha Hb.
      destruct (Forall2_lookup_r _ _ _ _ _ Hvals Ha) as (sa & Hsa & _ & Hga).
      destruct (Forall2_lookup_r _ _ _ _ _ Hvals Hb) as (sb & Hsb & _ & Hgb).
      exists sa, sb. split; [exact Hga|]. split; [exact Hgb|].
      exact (Hdesc a b sa sb Hab Hsa Hsb).
    + auto.
Qed.

End Ranking.

Lemma rec_evaluate_calls_witness :
  exists calls,
    System.rec_evaluate (seqZ 100 60) [inject_Z <$> seqZ 0 200] [107] = Ok calls /\
    length calls = 1%nat.
Proof.
  eexists. split; [vm_compute; reflexivity|].
  edestruct (rec_evaluate_calls (seqZ 100 60) [inject_Z <$> seqZ 0 200] [107])
    as (_ & Hlen & _).
  - discriminate.
  - vm_compute. reflexivity.
  - exact Hlen.
Defined.

(** ** Recommendation contexts across calls *)

Section RecInteraction.

Import DataLoader.

Variable self : loader.

(** X17: Every call of [_process_rec_context] on a record puts one more
    separator in front of each stored utterance but the first: after [n]
    calls the record holds its utterances with [n] separators in front, and
    that is what the next call reads. *)
Theorem process_rec_context_accumulates (n : nat) (context_tokens : list (list Z)) :
  Nat.iter n (fun tokens => (_process_rec_context_inplace self tokens).2) context_tokens =
  imap (fun (i : nat) utterance =>
          if (i =? 0)%nat then utterance
          else replicate n (sent_split_idx self) ++ utterance)
       context_tokens.
Proof.
  induction n as [|n IH].
  - simpl. apply list_eq. intros i. rewrite list_lookup_imap.
    destruct (context_tokens !! i) as [u|]; simpl; [|reflexivity].
    destruct (i =? 0)%nat; reflexivity.
  - rewrite Nat.iter_succ, IH. unfold _process_rec_context_inplace, insert_splits.
    simpl. apply list_eq. intros i.
    rewrite !list_lookup_imap.
    destruct (context_tokens !! i) as [u|]; simpl; [|reflexivity].
    destruct (i =? 0)%nat; reflexivity.
Qed.

#[local] Opaque padded_tensor.

(** X18: [rec_interact] builds the fields [rec_batchify] builds for the record
    alone, from the same draws of the generator, and has [None] for the
    target positions and the movie. *)
Theorem rec_interact_agrees (fuel : nat) (data : conv_dict) (g g' : rng)
    (r : rec_interaction) :
  rec_interact fuel self data g = Ok (r, g') ->
  ri_target_pos r = None /\ ri_movie_id r = None /\
  forall b g'', rec_batchify fuel self [data] g = Ok (b, g'') ->
    g'' = g' /\
    rb_context b = ri_context r /\ rb_mask b = ri_mask r /\
    rb_input_ids b = ri_input_ids r /\ rb_input_mask b = ri_input_mask r /\
    rb_sample_negs b = ri_sample_negs r.
Proof.
  intros H. unfold rec_interact in H.
  bind_ok H ctx Ectx. bind_ok H items Eitems. bind_ok H hg Ehist.
  destruct hg as [h g1]. simpl in H.
  bind_ok H t1 E1. bind_ok H t2 E2. bind_ok H t3 E3. bind_ok H t4 E4.
  injection H as <- <-. simpl.
  split; [reflexivity|]. split; [reflexivity|].
  intros b g'' Hb. unfold rec_batchify in Hb. bind_ok Hb rg Erows.
  destruct rg as [rows g2]. simpl in Hb. bind_ok Hb b' Epad. injection Hb as <- <-.
  simpl in Erows. rewrite Ectx in Erows. simpl in Erows.
  bind_ok Erows item_id Eitem. rewrite Eitems in Erows. simpl in Erows.
  bind_ok Erows hg2 Ehist2. destruct hg2 as [h2 g3]. simpl in Erows.
  injection Erows as <- <-.
  unfold _process_history in Ehist, Ehist2.
  bind_ok Ehist sg Eneg. destruct sg as [negs gn]. simpl in Ehist, Ehist2.
  injection Ehist as <- <-. injection Ehist2 as <- <-.
  simpl in E2, E3, E4. unfold rec_pad in Epad. simpl in Epad.
  rewrite E1 in Epad. simpl in Epad. rewrite E2 in Epad. simpl in Epad.
  bind_ok Epad tp Etp. rewrite E3 in Epad. simpl in Epad.
  rewrite E4 in Epad. simpl in Epad. injection Epad as <-. simpl.
  repeat split; reflexivity.
Qed.

#[local] Transparent padded_tensor.

End RecInteraction.

Lemma rec_interact_agrees_witness :
  exists r g',
    DataLoader.rec_interact 5 DataLoader.example_loader DataLoader.example_rec_record
      DataLoader.counting_rng = Ok (r, g') /\
    DataLoader.ri_movie_id r = None /\
    DataLoader.ri_sample_negs r = [[3; 3]].
Proof.
  eexists _, _. split; [vm_compute; reflexivity|].
  edestruct (rec_interact_agrees DataLoader.example_loader 5
               DataLoader.example_rec_record DataLoader.counting_rng)
    as (_ & Hmovie & _).
  - vm_compute. reflexivity.
  - split; [exact Hmovie | reflexivity].
Defined.

(** ** The tokens of greedy decoding *)

Section GreedyExtras.

Import KGSF.

Context {St : Type}.
Variable self : model (St:=St).
Variable enc : encodings.
Variables entity_emb_attn word_emb_attn : list vec.

Lemma cat3_seq_length (a b c : list vec) (r : list (vec * vec * vec)) :
  cat3_seq a b c = Ok r -> length r = length c.
Proof.
  revert b c r. induction a as [|x a IH]; intros [|y b] [|z c] r H; simpl in H;
    try discriminate H.
  - injection H as <-. reflexivity.
  - bind_ok H rest Hrest. injection H as <-. simpl. f_equal. eapply IH, Hrest.
Qed.

Lemma cat3_rows (a b c : list (list vec)) (r : list (list (vec * vec * vec))) :
  cat3 a b c = Ok r ->
  Forall2 (fun (z : list vec) (row : list (vec * vec * vec)) => length row = length z)
          c r.
Proof.
  revert b c r. induction a as [|x a IH]; intros [|y b] [|z c] r H; simpl in H;
    try discriminate H.
  - injection H as <-. constructor.
  - bind_ok H row Hrow. bind_ok H rest Hrest. injection H as <-.
    constructor; [eapply cat3_seq_length, Hrow | eapply IH, Hrest].
Qed.

(** Appending the predictions of one pass to the rows. *)
Lemma greedy_append (k : nat) (sl : list (list vec)) :
  forall (preds inputs : list (list Z)),
  Forall (fun row => length row = 1%nat) sl ->
  Forall2 (fun row ps => for_each argmax row = Ok ps) sl preds ->
  Forall (fun row => length row = S k) inputs ->
  length inputs = length preds ->
  Forall (fun row => length row = S (S k)) (zip_with app inputs preds) /\
  inputs = take (S k) <$> zip_with app inputs preds /\
  Forall2 (fun (scores : vec) (row : list Z) =>
             exists p, argmax scores = Ok p /\ row !! S k = Some p)
          (concat sl) (zip_with app inputs preds).
Proof.
  induction sl as [|row sl IH]; intros preds inputs Hone Hpreds Hrows Hlen.
  - apply Forall2_nil_inv_l in Hpreds. subst preds.
    destruct inputs; [|discriminate Hlen]. simpl.
    split; [constructor|]. split; [reflexivity | constructor].
  - apply Forall2_cons_inv_l in Hpreds as (ps & preds' & Hps & Hpreds & ->).
    destruct inputs as [|input inputs]; [discriminate Hlen|].
    apply Forall_cons in Hone as [Hrow Hone]. apply Forall_cons in Hrows as [Hin Hrows].
    destruct row as [|scores [|? ?]]; try discriminate Hrow.
    simpl in Hps. bind_ok Hps p Hp. injection Hps as <-.
    destruct (IH preds' inputs Hone Hpreds Hrows) as (F & E & A);
      [simpl in Hlen; lia|].
    simpl. split; [|split].
    + constructor; [rewrite length_app; simpl; lia | exact F].
    + change (input :: inputs =
              take (S k) (input ++ [p]) :: (take (S k) <$> zip_with app inputs preds')).
      f_equal; [|exact E].
      rewrite take_app_le by lia. rewrite take_ge by lia. reflexivity.
    + constructor; [|exact A]. exists p. split; [exact Hp|].
      rewrite <- Hin. apply list_lookup_middle. reflexivity.
Qed.

Hypothesis Hshape : decoder_shape self.

Lemma greedy_step_argmax (k : nat) (inputs inputs' : list (list Z))
    (incr_state incr_state' : option St) (sum_logits : list vec) :
  Forall (fun row => length row = S k) inputs ->
  greedy_step self enc entity_emb_attn word_emb_attn inputs incr_state =
    Ok (sum_logits, inputs', incr_state') ->
  Forall (fun row => length row = S (S k)) inputs' /\
  inputs = take (S k) <$> inputs' /\
  Forall2 (fun (scores : vec) (row : list Z) =>
             exists p, argmax scores = Ok p /\ row !! S k = Some p)
          sum_logits inputs'.
Proof using Hshape.
  intros Hrows H. unfold greedy_step in H.
  pose proof (Hshape inputs enc incr_state) as Hlat.
  destruct (conv_decoder self inputs enc incr_state) as [dialog_latent st1].
  simpl in Hlat.
  assert (Flat : Forall (fun row => length row = S k) dialog_latent).
  { clear -Hlat Hrows. induction Hlat as [|x y xs ys Hxy _ IH]; constructor.
    - apply Forall_cons in Hrows as [Hx _]. lia.
    - apply IH. apply Forall_cons in Hrows as [_ Hrows]. exact Hrows. }
  apply last_position_length in Flat.
  bind_ok H sl Hsl. bind_ok H preds Hpreds. bind_ok H inputs1 Hcat.
  injection H as <- <- <-.
  unfold sum_logits_of in Hsl. bind_ok Hsl r Hr. injection Hsl as <-.
  apply cat3_rows in Hr. apply for_each_Forall2 in Hpreds.
  unfold DataLoader.cat_cols in Hcat.
  destruct (Nat.eqb_spec (length inputs) (length preds)) as [Hlen|]; [|discriminate Hcat].
  injection Hcat as <-.
  apply (greedy_append k _ preds inputs); try assumption.
  apply Forall_fmap. clear -Hr Flat.
  induction Hr as [|z row zs rows Hz _ IH]; constructor.
  - simpl. rewrite length_fmap, Hz. apply Forall_cons in Flat as [Hl _]. exact Hl.
  - apply IH. apply Forall_cons in Flat as [_ Flat]. exact Flat.
Qed.

Lemma greedy_loop_argmax (n : nat) (batch_size : nat) :
  forall (k0 : nat) (inputs inputs' : list (list Z)) (incr_state : option St)
         (logits logits' : list (list vec)),
  Forall (fun row => length row = S k0) inputs ->
  length logits = k0 ->
  (forall (k : nat) pass, logits !! k = Some pass ->
     Forall2 (fun (scores : vec) (row : list Z) =>
                exists p, argmax scores = Ok p /\ row !! S k = Some p) pass inputs) ->
  greedy_loop self n enc entity_emb_attn word_emb_attn batch_size inputs incr_state
    logits = Ok (logits', inputs') ->
  forall (k : nat) pass, logits' !! k = Some pass ->
    Forall2 (fun (scores : vec) (row : list Z) =>
               exists p, argmax scores = Ok p /\ row !! S k = Some p) pass inputs'.
Proof using Hshape.
  induction n as [|n IH]; intros k0 inputs inputs' incr_state logits logits'
    Hrows Hlen Hinv H; simpl in H.
  - injection H as <- <-. exact Hinv.
  - bind_ok H res Hstep. destruct res as [[sum_logits inputs1] st1]. simpl in H.
    destruct (greedy_step_argmax k0 _ _ _ _ _ Hrows Hstep) as (F1 & E1 & A1).
    assert (Hinv1 : forall (k : nat) pass, (logits ++ [sum_logits]) !! k = Some pass ->
              Forall2 (fun (scores : vec) (row : list Z) =>
                         exists p, argmax scores = Ok p /\ row !! S k = Some p)
                      pass inputs1).
    { intros k pass Hk. apply lookup_snoc_Some in Hk as [[Hlt Hk]|[-> <-]].
      - specialize (Hinv k pass Hk). rewrite E1 in Hinv.
        apply Forall2_fmap_r in Hinv. eapply Forall2_impl; [exact Hinv|].
        intros scores row (p & Hp & Hget). simpl in Hget.
        apply lookup_take_Some in Hget as [Hget _]. eauto.
      - rewrite Hlen. exact A1. }
    destruct (all_finished self batch_size inputs1).
    + injection H as <- <-. exact Hinv1.
    + apply (IH (S k0) inputs1 inputs' st1 (logits ++ [sum_logits]) logits');
        try assumption.
      rewrite length_app. simpl. lia.
Qed.

(** X19: The token greedy decoding appends to a sequence in a pass is a
    position of the logits of that pass for that sequence, holds their
    largest value and is the first position to do so. *)
Theorem greedy_tokens_first_maximum (logits : list (list vec)) (inputs : list (list Z)) :
  _decode_greedy_with_kg self enc entity_emb_attn word_emb_attn = Ok (logits, inputs) ->
  forall (k : nat) pass, logits !! k = Some pass ->
    Forall2 (fun (scores : vec) (row : list Z) =>
               exists p, row !! S k = Some p /\ 0 <= p < len scores /\
                 exists x, scores !! Z.to_nat p = Some x /\
                   (forall y, y ∈ scores -> (y <= x)%Q) /\
                   (forall (j : nat) y, (j < Z.to_nat p)%nat -> scores !! j = Some y ->
                      (y < x)%Q))
            pass inputs.
Proof using Hshape.
  intros H k pass Hk. unfold _decode_greedy_with_kg in H.
  bind_ok H res Hloop. destruct res as [lg ins]. simpl in H.
  destruct lg as [|l0 lg]; [discriminate H|]. injection H as <- <-.
  eapply Forall2_impl.
  - eapply (greedy_loop_argmax _ _ 0%nat); [| |  |exact Hloop|exact Hk].
    + unfold _starts. apply Forall_forall. intros row Hrow.
      apply elem_of_replicate_inv in Hrow. subst row. reflexivity.
    + reflexivity.
    + intros k' pass' Hk'. discriminate Hk'.
  - intros scores row (p & Hp & Hget). simpl. exists p. split; [exact Hget|].
    apply argmax_spec. exact Hp.
Qed.

End GreedyExtras.

Lemma greedy_tokens_first_maximum_witness :
  exists logits inputs,
    KGSF._decode_greedy_with_kg KGSF.example_model KGSF.example_encodings
      [[0%Q]] [[0%Q]] = Ok (logits, inputs) /\
    inputs = [[0; 1; 2]] /\
    forall (k : nat) pass, logits !! k = Some pass ->
      Forall2 (fun (scores : KGSF.vec) (row : list Z) =>
                 exists p, row !! S k = Some p /\ 0 <= p < len scores) pass inputs.
Proof.
  eexists _, _. split; [vm_compute; reflexivity|]. split; [reflexivity|].
  intros k pass Hk. eapply Forall2_impl.
  - eapply (greedy_tokens_first_maximum KGSF.example_model KGSF.example_encodings
              [[0%Q]] [[0%Q]] example_model_decoder_shape); [|exact Hk].
    vm_compute. reflexivity.
  - intros scores row (p & Hget & Hp & _). exists p. split; assumption.
Defined.

(** ** Policy batches *)

Section PolicyBatches.

Import DataLoader.

Variable self : loader.

Lemma policy_tokens_run (pad_topic_idx : Z) (ids : list Z) :
  Forall (fun i => i = pad_topic_idx \/ is_Some (ind2topic self !! i)) ids ->
  for_each (fun topic_id =>
              if value_ne topic_id pad_topic_idx then
                toks ← topic_tokens self topic_id; Ok (Some (token_ids self toks))
              else Ok None) (VInt <$> ids) =
  Ok ((fun i => if i =? pad_topic_idx then None
                else Some (token_ids self (default [] (ind2topic self !! i))))
        <$> ids).
Proof.
  induction 1 as [|i ids Hi _ IH]; [reflexivity|].
  rewrite !fmap_cons. cbn [for_each value_ne]. rewrite IH.
  destruct (Z.eqb_spec i pad_topic_idx) as [Heq|Hne]; [reflexivity|].
  destruct Hi as [Hi|[toks Hi]]; [contradiction|].
  unfold topic_tokens, getitem. rewrite Hi. reflexivity.
Qed.

(** X20: [_get_policy_tokens] leaves the pad topic out: of a list of known topic
    ids it returns the token ids of those that are not the pad topic, in
    order; a topic that is neither the pad topic nor known raises a
    [KeyError], wherever it stands after pad topics and known ones. *)
Theorem get_policy_tokens_skips_pad (pad_topic_idx : Z) (ids : list Z) :
  Forall (fun i => i = pad_topic_idx \/ is_Some (ind2topic self !! i)) ids ->
  _get_policy_tokens self pad_topic_idx (VList (VInt <$> ids)) =
    Ok ((fun i => token_ids self (default [] (ind2topic self !! i)))
          <$> filter (fun i => i <> pad_topic_idx) ids) /\
  (forall i rest, i <> pad_topic_idx -> ind2topic self !! i = None ->
     _get_policy_tokens self pad_topic_idx (VList (VInt i :: rest)) = Raise KeyError) /\
  (forall i rest, i <> pad_topic_idx -> ind2topic self !! i = None ->
     _get_policy_tokens self pad_topic_idx (VList ((VInt <$> ids) ++ VInt i :: rest)) =
       Raise KeyError).
Proof.
  intros Hids. split; [|split].
  - unfold _get_policy_tokens. cbn [iter mbind result_bind].
    rewrite (policy_tokens_run pad_topic_idx ids Hids).
    cbn [mbind result_bind]. f_equal. clear.
    induction ids as [|i ids IH]; [reflexivity|].
    rewrite fmap_cons, filter_cons. cbn [omap list_omap].
    destruct (Z.eqb_spec i pad_topic_idx) as [Heq|Hne];
      destruct (decide (i <> pad_topic_idx)) as [Hd|Hd]; try contradiction.
    + exact IH.
    + rewrite fmap_cons. cbn [id]. f_equal. exact IH.
  - intros i rest Hne Hi. unfold _get_policy_tokens. simpl.
    replace (i =? pad_topic_idx) with false by lia. simpl.
    unfold getitem. rewrite Hi. reflexivity.
  - intros i rest Hne Hi. unfold _get_policy_tokens. cbn [iter mbind result_bind].
    rewrite (for_each_raise_at _ (VInt <$> ids) rest (VInt i) _ KeyError
               (policy_tokens_run pad_topic_idx ids Hids)); [reflexivity|].
    cbn [value_ne]. replace (i =? pad_topic_idx) with false by lia. cbn [negb].
    unfold topic_tokens, getitem. rewrite Hi. reflexivity.
Qed.

Lemma length_concat_sum {A : Type} (ls : list (list A)) :
  length (concat ls) = sum_list (length <$> ls).
Proof.
  induction ls as [|l ls IH]; simpl; [reflexivity|].
  rewrite length_app, IH. reflexivity.
Qed.

Lemma padded_tensor_rows (items : list (list Z)) (pad_idx : Z) (pad_tail : bool)
    (max_len : option Z) (rows : list (list Z)) :
  padded_tensor items pad_idx pad_tail max_len = Ok rows -> length rows = length items.
Proof.
  intros H. apply padded_tensor_ok in H. symmetry. eapply Forall2_length, H.
Qed.

(** X21: In a policy batch the contexts, the policies and the targets have one
    row per record, while the user profiles have one row per profile
    sentence of the batch: the sentences of all records in a row. *)
Theorem policy_batchify_rows (pad_topic_idx : Z) (batch : list conv_dict)
    (b : policy_batch) :
  policy_batchify self pad_topic_idx batch = Ok b ->
  exists profiles : list (list (list Z)),
    Forall2 (fun (d : conv_dict) p =>
               (v ← getitem d "user_profile"%string; as_int_lists v) = Ok p)
            batch profiles /\
    length (pb_context b) = length batch /\
    length (pb_context_policy b) = length batch /\
    length (pb_target b) = length batch /\
    length (pb_user_profile b) = sum_list (length <$> profiles) /\
    (forall sentence, sentence ∈ concat profiles ->
       exists row, row ∈ pb_user_profile b /\
         row = sentence ++ replicate (length row - length sentence) (pad_token_idx self)).
Proof.
  intros H. unfold policy_batchify in H. bind_ok H rows Erows.
  apply for_each_Forall2 in Erows.
  unfold _finalize_policy_batch in H.
  bind_ok H t1 E1. bind_ok H t2 E2. bind_ok H t3 E3. injection H as <-. simpl.
  exists (pr_user_profile <$> rows). split; [|split; [|split; [|split; [|split]]]].
  - apply Forall2_fmap_r. eapply Forall2_impl; [exact Erows|].
    intros d row Hrow. simpl. unfold policy_row_of in Hrow.
    bind_ok Hrow x1 X1. bind_ok Hrow x2 X2. bind_ok Hrow x3 X3. bind_ok Hrow x4 X4.
    bind_ok Hrow x5 X5. injection Hrow as <-. reflexivity.
  - rewrite (padded_tensor_rows _ _ _ _ _ E1), length_fmap.
    symmetry. eapply Forall2_length, Erows.
  - rewrite (padded_tensor_rows _ _ _ _ _ E2), length_fmap.
    symmetry. eapply Forall2_length, Erows.
  - rewrite length_fmap. symmetry. eapply Forall2_length, Erows.
  - rewrite (padded_tensor_rows _ _ _ _ _ E3). apply length_concat_sum.
  - intros sentence Hin. apply padded_tensor_ok in E3.
    apply list_elem_of_lookup in Hin as (i & Hi).
    destruct (Forall2_lookup_l _ _ _ _ _ E3 Hi) as (row & Hrow & Hle & Heq).
    exists row. split; [eapply list_elem_of_lookup_2, Hrow|].
    rewrite Heq at 1. f_equal. f_equal. rewrite Heq, length_app, length_replicate. lia.
Qed.

(** X22: The masks of the policies and of the user profiles compare with 0 and
    not with the pad token: with a pad token other than 0, and no id 0 in
    the rows, both masks are 1 everywhere, on the padding too, while the
    mask of the contexts is 0 exactly on the pad token. *)
Theorem policy_masks_ignore_padding
    (batch_context batch_context_policy batch_user_profile : list (list Z))
    (batch_target : list Z) (b : policy_batch) :
  pad_token_idx self <> 0 ->
  Forall (Forall (fun x => x <> 0)) batch_context_policy ->
  Forall (Forall (fun x => x <> 0)) batch_user_profile ->
  _finalize_policy_batch self batch_context batch_context_policy batch_user_profile
    batch_target = Ok b ->
  Forall (Forall (fun m => m = 1)) (pb_context_policy_mask b) /\
  Forall (Forall (fun m => m = 1)) (pb_user_profile_mask b) /\
  Forall2 (Forall2 (fun x m => (x = pad_token_idx self -> m = 0) /\
                               (x <> pad_token_idx self -> m = 1)))
          (pb_context b) (pb_context_mask b).
Proof.
  intros Hpad Hpol Hprof H. unfold _finalize_policy_batch in H.
  bind_ok H t1 E1. bind_ok H t2 E2. bind_ok H t3 E3. injection H as <-. simpl.
  assert (Hones : forall items rows,
            Forall (Forall (fun x => x <> 0)) items ->
            padded_tensor items (pad_token_idx self) true None = Ok rows ->
            Forall (Forall (fun m => m = 1)) (ne_mask rows 0)).
  { intros items rows Hitems Hrows. unfold ne_mask.
    apply Forall_fmap, Forall_forall. intros row Hrow. simpl.
    apply Forall_fmap, Forall_forall. intros x Hx. simpl.
    destruct (padded_tensor_elem _ _ _ _ _ row x Hrows Hrow Hx)
      as [->|(item & Hitem & Hxi)].
    - replace (pad_token_idx self =? 0) with false by lia. reflexivity.
    - rewrite Forall_forall in Hitems. specialize (Hitems item Hitem).
      rewrite Forall_forall in Hitems. specialize (Hitems x Hxi).
      replace (x =? 0) with false by lia. reflexivity. }
  split; [exact (Hones _ _ Hpol E2)|]. split; [exact (Hones _ _ Hprof E3)|].
  unfold ne_mask. apply Forall2_fmap_r. apply Forall_Forall2_diag.
  apply Forall_forall. intros row _. simpl.
  apply Forall2_fmap_r. apply Forall_Forall2_diag.
  apply Forall_forall. intros x _. simpl.
  destruct (Z.eqb_spec x (pad_token_idx self)); split; intros; congruence.
Qed.

End PolicyBatches.

Lemma get_policy_tokens_skips_pad_witness :
  DataLoader._get_policy_tokens DataLoader.example_policy_loader 0
    (VList (VInt <$> [10; 0])) = Ok [[7]].
Proof.
  apply (proj1 (get_policy_tokens_skips_pad DataLoader.example_policy_loader 0 [10; 0]
                  ltac:(constructor; [right; vm_compute; eauto|];
                        constructor; [left; reflexivity | constructor]))).
Defined.

Lemma policy_batchify_rows_witness :
  exists b,
    DataLoader.policy_batchify DataLoader.example_policy_loader 0
      [DataLoader.example_policy_batch_record] = Ok b /\
    length (DataLoader.pb_context b) = 1%nat /\
    length (DataLoader.pb_user_profile b) = 2%nat.
Proof.
  eexists. split; [vm_compute; reflexivity|].
  edestruct (policy_batchify_rows DataLoader.example_policy_loader 0
               [DataLoader.example_policy_batch_record])
    as (profiles & Hprofiles & Hctx & _ & _ & _ & _).
  - vm_compute. reflexivity.
  - split; [exact Hctx | reflexivity].
Defined.

Lemma policy_masks_ignore_padding_witness :
  exists b,
    DataLoader._finalize_policy_batch DataLoader.example_policy_loader
      [[1; 5]] [[1; 7; 2]; [1]] [[4]; [5; 6]] [10; 10] = Ok b /\
    DataLoader.pb_context_policy b = [[1; 7; 2]; [1; 9; 9]] /\
    DataLoader.pb_context_policy_mask b = [[1; 1; 1]; [1; 1; 1]].
Proof.
  eexists. split; [vm_compute; reflexivity|].
  edestruct (policy_masks_ignore_padding DataLoader.example_policy_loader
               [[1; 5]] [[1; 7; 2]; [1]] [[4]; [5; 6]] [10; 10]) as (Hmask & _).
  - discriminate.
  - repeat constructor; discriminate.
  - repeat constructor; discriminate.
  - vm_compute. reflexivity.
  - split; reflexivity.
Defined.

(** ** Loops that cannot finish *)

Section NoFreeItem.

Import DataLoader.

Variable self : loader.
Variable item_set : gset Z.

Lemma neg_sample_loop_full (s : gset Z) (fuel : nat) :
  1 <= item_size self ->
  (forall v, 1 <= v <= item_size self -> v ∈ s) ->
  forall item g, item ∈ s ->
    neg_sample_loop fuel self s item g = OutOfFuel.
Proof.
  intros HM Hfull. induction fuel as [|fuel IH]; intros item g Hin; simpl;
    rewrite bool_decide_eq_true_2 by exact Hin; [reflexivity|].
  rewrite (randint_item self g HM). simpl. apply IH.
  apply Hfull, draw_range, HM.
Qed.

(** X23: Without a free item [_neg_sample] cannot return: with an empty item
    space the first draw raises a [ValueError], and when the set holds
    every id of [1..item_size] the loop redraws for ever, whatever the
    generator; so does [_process_history] on a history that holds every
    id. *)
Theorem neg_sample_without_free_item :
  (item_size self < 1 ->
   forall fuel g, _neg_sample fuel self item_set g = Raise ValueError) /\
  (1 <= item_size self ->
   (forall v, 1 <= v <= item_size self -> v ∈ item_set) ->
   forall fuel g, _neg_sample fuel self item_set g = OutOfFuel) /\
  (1 <= item_size self ->
   forall context_items : list Z,
     (forall v, 1 <= v <= item_size self ->
        v ∈ truncate context_items (item_truncate self) false) ->
     forall fuel item_id g,
       _process_history fuel self context_items item_id g = OutOfFuel).
Proof.
  assert (Hloop : 1 <= item_size self ->
            forall s : gset Z, (forall v, 1 <= v <= item_size self -> v ∈ s) ->
            forall fuel g, _neg_sample fuel self s g = OutOfFuel).
  { intros HM s Hfull fuel g. unfold _neg_sample.
    rewrite (randint_item self g HM). simpl.
    apply (neg_sample_loop_full s fuel HM Hfull).
    apply Hfull, draw_range, HM. }
  split; [|split].
  - intros HM fuel g. unfold _neg_sample, randint.
    destruct (Z.ltb_spec (item_size self) 1) as [_|Hge]; [reflexivity | lia].
  - intros HM Hfull. apply (Hloop HM item_set Hfull).
  - intros HM context_items Hfull fuel item_id g. unfold _process_history.
    destruct (truncate context_items (item_truncate self) false) as [|x ids] eqn:Hids.
    + exfalso. specialize (Hfull 1 ltac:(lia)). apply elem_of_nil in Hfull. exact Hfull.
    + cbn [sample_negs_loop]. rewrite Hloop; [reflexivity | exact HM|].
      intros v Hv. apply elem_of_list_to_set. apply Hfull, Hv.
Qed.

End NoFreeItem.

Section NoPass.

Import KGSF System.

Context {St : Type}.
Variable self : model (St:=St).

(** X24: With a cap of no pass greedy decoding has no logits to join and
    raises a [RuntimeError]; so do the conversation forward pass and the
    conversation step in mode 'test', once the encodings are built. *)
Theorem greedy_decoding_needs_a_pass (item_ids : list Z)
    (ct ce cw response : list (list Z))
    (enc : encodings) (e w : list vec) (log : list event) :
  response_truncate self <= 0 ->
  conv_encodings self ct ce cw = Ok (enc, e, w) ->
  _decode_greedy_with_kg self enc e w = Raise RuntimeError /\
  converse self ct ce cw response "test" = Raise RuntimeError /\
  step self item_ids (ConvBatch ct ce cw response) "conv" "test" log =
    Raise RuntimeError.
Proof.
  intros HT Henc.
  pose proof (greedy_without_passes self enc e w HT) as Hgreedy.
  assert (Hconv : converse self ct ce cw response "test" = Raise RuntimeError).
  { unfold converse. rewrite Henc. simpl. rewrite Hgreedy. reflexivity. }
  split; [exact Hgreedy|]. split; [exact Hconv|].
  unfold step, _handle_conv_stage, forward. simpl. rewrite Hconv. reflexivity.
Qed.

End NoPass.

Lemma greedy_decoding_needs_a_pass_witness :
  System.step (KGSF.with_response_truncate 0 KGSF.example_model) [0; 1]
    (KGSF.ConvBatch [[0]] [[1]] [[1]] [[1; 2]]) "conv" "test" [] = Raise RuntimeError.
Proof.
  edestruct (greedy_decoding_needs_a_pass (KGSF.with_response_truncate 0 KGSF.example_model)
               [0; 1] [[0]] [[1]] [[1]] [[1; 2]]) as (_ & _ & Hstep).
  - simpl. lia.
  - vm_compute. reflexivity.
  - exact Hstep.
Defined.

Section NoPosition.

Import KGSF.

Context {St : Type}.
Variable self : model (St:=St).

(** X25: Forced decoding needs a response position: on a response whose
    first row is empty the decoder still reads the start token, its one
    latent position does not join with entity and word latents of no
    position, and the call raises a [RuntimeError], whatever the encodings
    are. *)
Theorem forced_decoding_needs_a_position (enc : encodings) (e w : list vec)
    (rest : list (list Z)) :
  decoder_shape self ->
  _decode_forced_with_kg self enc e w ([] :: rest) = Raise RuntimeError.
Proof.
  intros Hshape. unfold _decode_forced_with_kg.
  pose proof (Hshape (forced_inputs self ([] :: rest)) enc None) as Hlat.
  destruct (conv_decoder self (forced_inputs self ([] :: rest)) enc None)
    as [dialog_latent st]. simpl in Hlat. cbn [fst head default length].
  unfold forced_inputs in Hlat. simpl in Hlat.
  apply Forall2_cons_inv_l in Hlat as (drow & dl & Hrow & _ & ->).
  simpl in Hrow. unfold sum_logits_of, expand1.
  destruct e as [|e0 e], w as [|w0 w]; try reflexivity.
  destruct drow as [|x [|? ?]]; try discriminate Hrow. reflexivity.
Qed.

End NoPosition.

Lemma forced_decoding_needs_a_position_witness :
  KGSF._decode_forced_with_kg KGSF.example_model KGSF.example_encodings
    [[0%Q]] [[0%Q]] [[]] = Raise RuntimeError.
Proof.
  apply (forced_decoding_needs_a_position KGSF.example_model KGSF.example_encodings
           [[0%Q]] [[0%Q]] [] example_model_decoder_shape).
Defined.
